(** * amazon-price-per-kg-scraper: price normalisation, resolution and ranking

    A shallow embedding of [amazon-price-per-kg-scraper.py].

    - Python strings are sequences of Unicode code points; Python floats are
      IEEE 754 binary64 numbers (the bit-level specification [spec_float]
      of the standard library, rounding to nearest, ties to even); Python
      integers are [Z].
    - The built-ins the program calls ([float], [int], [str.strip],
      [str.replace], [str.lower], [re.search], [sorted]) are written out as
      CPython 3.11 defines them.
    - Exceptions are values of a sum type; [try]/[except] is a function on
      results.
    - [ProduitAmazon] objects live in a store and are handled through
      references; the functions that create, modify or read them run in a
      state monad, which also keeps a journal of the calls made by
      [_traiter_produit].
    - The browser and the HTML parser are inputs: a product block is given
      by what the CSS selectors find in it, a page by its product blocks or
      by the exception that stopped its loading.
    - [_preparer_ligne_csv] and [ecrire_csv] only read the listings
      ([format] with [".2f"] and [csv.DictWriter] are written out as CPython
      defines them).  Output operations are events, which the outside takes
      or answers with an exception: the [print] that ends
      [_traiter_produit], the one of [ecrire_csv], and the file
      [ecrire_csv] opens, writes and closes.  The [print] calls of the
      loops and of the ranking are not part of the model. *)

From Stdlib Require Import ZArith NArith PArith List Ascii Bool Lia.
From Stdlib Require String.
From Stdlib Require Import Sorted Permutation.
From Stdlib Require Import PrimFloat SpecFloat FloatOps.
From Stdlib Require DecimalNat DecimalN.
Import ListNotations.
Import String.StringSyntax.

(* Decimal literals such as 19.99 denote the nearest binary64 number. *)
Set Warnings "-inexact-float".

Local Open Scope string_scope.
Local Open Scope Z_scope.

(* ====================================================================== *)
(** * Python strings *)
(* ====================================================================== *)

(** A [str] is its list of code points. *)
Definition codepoint := N.
Definition str := list codepoint.

(** Decoder from UTF-8, so that literals can be written as Rocq strings
    (this file is UTF-8 encoded). *)
Fixpoint utf8_decode (bs : list N) : str :=
  match bs with
  | [] => []
  | b0 :: r0 =>
    if (b0 <? 128)%N then b0 :: utf8_decode r0
    else match r0 with
    | [] => [b0]
    | b1 :: r1 =>
      if (b0 <? 224)%N then ((b0 - 192) * 64 + (b1 - 128))%N :: utf8_decode r1
      else match r1 with
      | [] => [b0; b1]
      | b2 :: r2 =>
        if (b0 <? 240)%N
        then ((b0 - 224) * 4096 + (b1 - 128) * 64 + (b2 - 128))%N :: utf8_decode r2
        else match r2 with
        | [] => [b0; b1; b2]
        | b3 :: r3 =>
          ((b0 - 240) * 262144 + (b1 - 128) * 4096 + (b2 - 128) * 64 + (b3 - 128))%N
            :: utf8_decode r3
        end
      end
    end
  end.

Definition py (s : String.string) : str :=
  utf8_decode (map N_of_ascii (String.list_ascii_of_string s)).

(** One-character literals. *)
Definition chr (s : String.string) : codepoint :=
  match py s with c :: _ => c | [] => 0%N end.

Definition str_eqb (a b : str) : bool :=
  if list_eq_dec N.eq_dec a b then true else false.

(** [Py_UNICODE_ISSPACE]: the code points [str.isspace], [str.strip] and the
    regular-expression class [\s] treat as whitespace. *)
Definition is_space (c : codepoint) : bool :=
  ((9 <=? c) && (c <=? 13) || (28 <=? c) && (c <=? 32)
   || (c =? 133) || (c =? 160) || (c =? 5760)
   || (8192 <=? c) && (c <=? 8202)
   || (c =? 8232) || (c =? 8233) || (c =? 8239) || (c =? 8287)
   || (c =? 12288))%N.

(** [Py_UNICODE_TODECIMAL]: the decimal digits of Unicode come in blocks of
    ten consecutive code points, digit zero first.  These are the first code
    points of the blocks (Unicode 14, as shipped with CPython 3.11). *)
Definition decimal_blocks : list N :=
  [ 0x30; 0x660; 0x6f0; 0x7c0; 0x966; 0x9e6; 0xa66; 0xae6; 0xb66; 0xbe6;
    0xc66; 0xce6; 0xd66; 0xde6; 0xe50; 0xed0; 0xf20; 0x1040; 0x1090; 0x17e0;
    0x1810; 0x1946; 0x19d0; 0x1a80; 0x1a90; 0x1b50; 0x1bb0; 0x1c40; 0x1c50;
    0xa620; 0xa8d0; 0xa900; 0xa9d0; 0xa9f0; 0xaa50; 0xabf0; 0xff10; 0x104a0;
    0x10d30; 0x11066; 0x110f0; 0x11136; 0x111d0; 0x112f0; 0x11450; 0x114d0;
    0x11650; 0x116c0; 0x11730; 0x118e0; 0x11950; 0x11c50; 0x11d50; 0x11da0;
    0x16a60; 0x16ac0; 0x16b50; 0x1d7ce; 0x1d7d8; 0x1d7e2; 0x1d7ec; 0x1d7f6;
    0x1e140; 0x1e2f0; 0x1e950; 0x1fbf0 ]%N.

Fixpoint decimal_in (blocks : list N) (c : codepoint) : option N :=
  match blocks with
  | [] => None
  | b :: r => if ((b <=? c) && (c <? b + 10))%N then Some (c - b)%N
              else decimal_in r c
  end.

Definition to_decimal (c : codepoint) : option N := decimal_in decimal_blocks c.

(** The class [\d] of a [str] pattern. *)
Definition is_decimal (c : codepoint) : bool :=
  match to_decimal c with Some _ => true | None => false end.

Definition is_ascii_digit (c : codepoint) : bool := ((48 <=? c) && (c <=? 57))%N.

(** [str.strip()]. *)
Fixpoint lstrip (s : str) : str :=
  match s with
  | c :: r => if is_space c then lstrip r else s
  | [] => []
  end.

Definition rstrip (s : str) : str := rev (lstrip (rev s)).

Definition strip (s : str) : str := rstrip (lstrip s).

(** [str.replace(old, new)] for a one-character [old], the only form the
    program uses. *)
Fixpoint replace (old : codepoint) (new : str) (s : str) : str :=
  match s with
  | [] => []
  | c :: r => if (c =? old)%N then new ++ replace old new r
              else c :: replace old new r
  end.

(** [str.lower()].  The program only compares lowered text with ["kg"] and
    ["100g"]; the capital ASCII letters and the Kelvin sign (U+212A, whose
    lowercase is ["k"]) are the only code points whose lowercase contains one
    of the characters k, g, 1, 0.  Other code points are left as they are,
    which none of these comparisons observes. *)
Definition lower_char (c : codepoint) : codepoint :=
  if ((65 <=? c) && (c <=? 90))%N then (c + 32)%N
  else if (c =? 8490)%N then 107%N
  else c.

Definition lower (s : str) : str := map lower_char s.

(** [str(n)] for a non-negative integer, as an f-string prints it. *)
Fixpoint digits_of_uint (d : Decimal.uint) : str :=
  match d with
  | Decimal.Nil => []
  | Decimal.D0 r => 48%N :: digits_of_uint r
  | Decimal.D1 r => 49%N :: digits_of_uint r
  | Decimal.D2 r => 50%N :: digits_of_uint r
  | Decimal.D3 r => 51%N :: digits_of_uint r
  | Decimal.D4 r => 52%N :: digits_of_uint r
  | Decimal.D5 r => 53%N :: digits_of_uint r
  | Decimal.D6 r => 54%N :: digits_of_uint r
  | Decimal.D7 r => 55%N :: digits_of_uint r
  | Decimal.D8 r => 56%N :: digits_of_uint r
  | Decimal.D9 r => 57%N :: digits_of_uint r
  end.

Definition str_of_nat (n : nat) : str := digits_of_uint (Nat.to_uint n).

(* ====================================================================== *)
(** * Exceptions *)
(* ====================================================================== *)

Inductive exception :=
| ValueError
| TypeError
| ZeroDivisionError
| OverflowError
| TimeoutError
| LookupError.

(** A computation that returns a value or raises. *)
Definition result (A : Type) : Type := exception + A.

Definition ret {A} (a : A) : result A := inr a.
Definition raise {A} (e : exception) : result A := inl e.

Definition rbind {A B} (m : result A) (f : A -> result B) : result B :=
  match m with
  | inl e => inl e
  | inr a => f a
  end.

Declare Scope result_scope.
Delimit Scope result_scope with result.
Notation "x <- m ;; k" := (rbind m (fun x => k))
  (at level 61, m at next level, right associativity) : result_scope.

Definition exception_eqb (a b : exception) : bool :=
  match a, b with
  | ValueError, ValueError | TypeError, TypeError
  | ZeroDivisionError, ZeroDivisionError | OverflowError, OverflowError
  | TimeoutError, TimeoutError | LookupError, LookupError => true
  | _, _ => false
  end.

(** [try: body  except (e1, ..., en): handler]. *)
Definition try_except {A} (body : result A) (caught : list exception)
    (handler : result A) : result A :=
  match body with
  | inl e => if existsb (exception_eqb e) caught then handler else inl e
  | inr a => inr a
  end.

(* ====================================================================== *)
(** * Python floats and integers *)
(* ====================================================================== *)

(** binary64. *)
Definition float := spec_float.

(** Literals are written as primitive floats and read through [Prim2SF]. *)
Definition fl (x : PrimFloat.float) : float := Prim2SF x.

Definition f_zero : float := S754_zero false.

Definition f_ltb (x y : float) : bool := SFltb x y.
Definition f_leb (x y : float) : bool := SFleb x y.
Definition f_eqb (x y : float) : bool := SFeqb x y.
Definition f_mul (x y : float) : float := SFmul prec emax x y.

Definition is_nan (x : float) : bool :=
  match x with S754_nan => true | _ => false end.

(** [x / y] on floats raises on a zero divisor. *)
Definition f_truediv (x y : float) : result float :=
  match y with
  | S754_zero _ => raise ZeroDivisionError
  | _ => ret (SFdiv prec emax x y)
  end.

(** The float nearest to [num / den] (ties to even), with the given sign. *)
Definition float_of_ratio (sign : bool) (num den : positive) : float :=
  let '(mz, ez, lz) := SFdiv_core_binary prec emax (Zpos num) 0 (Zpos den) 0 in
  binary_round_aux prec emax sign mz ez lz.

(** The float nearest to [m * 10 ^ e]. *)
Definition float_of_decimal (sign : bool) (m : Z) (e : Z) : float :=
  match m with
  | Zpos p =>
    if 0 <=? e then float_of_ratio sign (p * Z.to_pos (10 ^ e)) 1
    else float_of_ratio sign p (Z.to_pos (10 ^ (- e)))
  | _ => S754_zero sign
  end.

(** Conversion of an [int] operand of a float operation ([PyLong_AsDouble]):
    the nearest float, [OverflowError] when it is out of range. *)
Definition float_of_int (n : Z) : result float :=
  match binary_normalize prec emax n 0 false with
  | S754_infinity _ => raise OverflowError
  | f => ret f
  end.

(** ** [float(s)] for a [str] argument *)

(** [_PyUnicode_TransformDecimalAndSpaceToASCII]: non-ASCII whitespace becomes
    a space, a non-ASCII decimal digit its ASCII digit, anything else ["?"]. *)
Definition to_ascii (c : codepoint) : codepoint :=
  if (c <? 127)%N then c
  else if is_space c then 32%N
  else match to_decimal c with
       | Some d => (48 + d)%N
       | None => 63%N
       end.

(** [Py_ISSPACE], the whitespace of the C locale. *)
Definition is_c_space (c : codepoint) : bool :=
  ((9 <=? c) && (c <=? 13) || (c =? 32))%N.

Fixpoint c_lstrip (s : str) : str :=
  match s with
  | c :: r => if is_c_space c then c_lstrip r else s
  | [] => []
  end.

Definition c_strip (s : str) : str := rev (c_lstrip (rev (c_lstrip s))).

(** [_Py_string_to_number_with_underscores]: an underscore is accepted
    between two digits only, and dropped. *)
Fixpoint drop_underscores (prev : codepoint) (s : str) : option str :=
  match s with
  | [] => if (prev =? 95)%N then None else Some []
  | c :: r =>
    if (c =? 95)%N then
      if is_ascii_digit prev then drop_underscores c r else None
    else if (prev =? 95)%N && negb (is_ascii_digit c) then None
    else option_map (cons c) (drop_underscores c r)
  end.

Definition parse_sign (s : str) : bool * str :=
  match s with
  | c :: r => if (c =? 45)%N then (true, r)
              else if (c =? 43)%N then (false, r)
              else (false, s)
  | [] => (false, [])
  end.

(** The longest prefix of ASCII digits, and what follows it. *)
Fixpoint scan_digits (s : str) : str * str :=
  match s with
  | c :: r => if is_ascii_digit c
              then let '(d, t) := scan_digits r in (c :: d, t)
              else ([], s)
  | [] => ([], [])
  end.

(** Value of a string of ASCII digits. *)
Definition Z_of_digits (d : str) : Z :=
  fold_left (fun acc c => 10 * acc + (Z.of_N c - 48)) d 0.

(** A decimal numeral [digits [. digits] [(e|E) [sign] digits]] with at least
    one digit before the exponent, read to the end of the text: its digits as
    an integer and the power of ten that scales them. *)
Definition parse_decimal (s : str) : option (Z * Z) :=
  let '(ip, r1) := scan_digits s in
  let '(fp, r2) :=
    match r1 with
    | c :: r => if (c =? 46)%N then scan_digits r else ([], r1)
    | [] => ([], [])
    end in
  match ip ++ fp with
  | [] => None
  | _ :: _ =>
    let m := Z_of_digits (ip ++ fp) in
    let scale := - Z.of_nat (length fp) in
    match r2 with
    | [] => Some (m, scale)
    | c :: r3 =>
      if ((c =? 101) || (c =? 69))%N then
        let '(es, r4) := parse_sign r3 in
        match scan_digits r4 with
        | ((_ :: _) as ed, []) =>
          Some (m, (if es then - Z_of_digits ed else Z_of_digits ed) + scale)
        | _ => None
        end
      else None
    end
  end.

(** [_Py_parse_inf_or_nan] on the text after the sign. *)
Definition parse_inf_or_nan (sign : bool) (s : str) : option float :=
  let l := lower s in
  if str_eqb l (py "inf") || str_eqb l (py "infinity") then Some (S754_infinity sign)
  else if str_eqb l (py "nan") then Some S754_nan
  else None.

Definition parse_float_literal (s : str) : option float :=
  let '(sign, r) := parse_sign s in
  match parse_decimal r with
  | Some (m, e) => Some (float_of_decimal sign m e)
  | None => parse_inf_or_nan sign r
  end.

Definition float_of_str (s : str) : result float :=
  match drop_underscores 0%N (c_strip (map to_ascii s)) with
  | None => raise ValueError
  | Some t =>
    match parse_float_literal t with
    | Some f => ret f
    | None => raise ValueError
    end
  end.

(** ** [int(s)] for a [str] argument, base ten *)

(** [sys.int_info.default_max_str_digits]. *)
Definition int_max_str_digits : nat := 4300.

Definition int_of_str (s : str) : result Z :=
  let '(sign, r) := parse_sign (c_strip (map to_ascii s)) in
  match drop_underscores 0%N r with
  | None => raise ValueError
  | Some t =>
    match scan_digits t with
    | ((_ :: _) as d, []) =>
      if (int_max_str_digits <? length d)%nat then raise ValueError
      else ret (if sign then - Z_of_digits d else Z_of_digits d)
    | _ => raise ValueError
    end
  end.

(* ====================================================================== *)
(** * Regular expressions ([re]) *)
(* ====================================================================== *)

Module Re.

(** Pattern syntax, as much of it as the two patterns of the program use. *)
Inductive regex :=
| Eps
| Cls (p : codepoint -> bool)
| Cat (r1 r2 : regex)
| Alt (r1 r2 : regex)
| Star (r : regex)
| Grp (n : nat) (r : regex).

(** [r+], [r?] (both greedy), a literal character, and a literal character
    under [re.IGNORECASE]. *)
Definition Plus (r : regex) : regex := Cat r (Star r).
Definition Opt (r : regex) : regex := Alt r Eps.
Definition Chr (c : codepoint) : regex := Cls (N.eqb c).
Definition ChrI (c : codepoint) : regex :=
  Cls (fun x => (lower_char x =? lower_char c)%N).

(** Captured groups, the latest binding of a group first. *)
Definition captures := list (nat * str).

Fixpoint group (cs : captures) (n : nat) : str :=
  match cs with
  | [] => []
  | (k, t) :: r => if Nat.eqb k n then t else group r n
  end.

(** The part of [s] consumed when [rest] is what remains of it. *)
Definition consumed (s rest : str) : str :=
  firstn (length s - length rest) s.

(** Greedy repetition of [step]: one more round when it consumes something
    and the rest then matches, else the continuation.  [fuel] bounds the
    rounds; the length of the text is enough, a round consuming at least one
    character. *)
Fixpoint star_loop
    (step : str -> captures -> (str -> captures -> option captures) -> option captures)
    (k : str -> captures -> option captures)
    (fuel : nat) (s : str) (cs : captures) : option captures :=
  match fuel with
  | O => k s cs
  | S fuel' =>
    match step s cs
            (fun s1 c1 =>
               if (length s1 <? length s)%nat
               then star_loop step k fuel' s1 c1 else None) with
    | Some res => Some res
    | None => k s cs
    end
  end.

(** Backtracking matcher: [exec r s cs k] matches [r] at the head of [s] and
    hands what remains to [k]; when [k] fails the next way of matching [r] is
    tried, alternatives left to right and repetitions longest first. *)
Fixpoint exec (r : regex) (s : str) (cs : captures)
    (k : str -> captures -> option captures) : option captures :=
  match r with
  | Eps => k s cs
  | Cls p =>
    match s with
    | c :: s' => if p c then k s' cs else None
    | [] => None
    end
  | Cat r1 r2 => exec r1 s cs (fun s1 c1 => exec r2 s1 c1 k)
  | Alt r1 r2 =>
    match exec r1 s cs k with
    | Some res => Some res
    | None => exec r2 s cs k
    end
  | Star r' => star_loop (exec r') k (length s) s cs
  | Grp n r' => exec r' s cs (fun s1 c1 => k s1 ((n, consumed s s1) :: c1))
  end.

Definition match_here (r : regex) (s : str) : option captures :=
  exec r s [] (fun _ cs => Some cs).

(** [re.search]: the match at the leftmost position that has one. *)
Fixpoint search (r : regex) (s : str) : option captures :=
  match match_here r s with
  | Some cs => Some cs
  | None =>
    match s with
    | [] => None
    | _ :: s' => search r s'
    end
  end.

End Re.

(* ====================================================================== *)
(** * The program *)
(* ====================================================================== *)

(** ** 1. Configuration *)

Definition URL_BASE_AMAZON : str := py "https://www.amazon.fr".
Definition MAX_PAGES : nat := 3.

Definition NA : str := py "N/A".

(** What the selectors of [SELECTEURS] find in a product block
    ([bs4.Tag]): the text of the first ["h2 span"], the first ["h2 a"] with
    its [href] attribute when it has one, the text of the first
    [".a-price .a-offscreen"], and for every
    ["span.a-size-base.a-color-secondary"] its text nodes in document
    order. *)
Record Tag := {
  TITRE : option str;
  LIEN : option (option str);
  PRIX_TOTAL : option str;
  PRIX_UNITAIRE_TEXTE : list (list str)
}.

(** [span.get_text(strip=True)]: the text nodes stripped, the empty ones
    dropped, joined without separator. *)
Definition get_text_strip (span : list str) : str :=
  concat (filter (fun t => negb (str_eqb t [])) (map strip span)).

Record ProduitAmazon := {
  id_produit : str;
  titre : str;
  prix_total_str : str;
  lien : str;
  prix_unitaire_kg : float;
  source_prix_kg : str;
  prix_unitaire_texte_amazon : str;
  prix_unitaire_valeur_amazon : float;
  prix_unitaire_unite_amazon : str
}.

(** The dataclass constructor with its defaults. *)
Definition new_ProduitAmazon (id_produit titre prix_total_str lien : str)
    : ProduitAmazon :=
  {| id_produit := id_produit;
     titre := titre;
     prix_total_str := prix_total_str;
     lien := lien;
     prix_unitaire_kg := f_zero;
     source_prix_kg := NA;
     prix_unitaire_texte_amazon := NA;
     prix_unitaire_valeur_amazon := f_zero;
     prix_unitaire_unite_amazon := NA |}.

(** Attribute assignments. *)
Definition set_prix_unitaire_kg (v : float) (p : ProduitAmazon) : ProduitAmazon :=
  {| id_produit := id_produit p; titre := titre p;
     prix_total_str := prix_total_str p; lien := lien p;
     prix_unitaire_kg := v;
     source_prix_kg := source_prix_kg p;
     prix_unitaire_texte_amazon := prix_unitaire_texte_amazon p;
     prix_unitaire_valeur_amazon := prix_unitaire_valeur_amazon p;
     prix_unitaire_unite_amazon := prix_unitaire_unite_amazon p |}.

Definition set_source_prix_kg (v : str) (p : ProduitAmazon) : ProduitAmazon :=
  {| id_produit := id_produit p; titre := titre p;
     prix_total_str := prix_total_str p; lien := lien p;
     prix_unitaire_kg := prix_unitaire_kg p;
     source_prix_kg := v;
     prix_unitaire_texte_amazon := prix_unitaire_texte_amazon p;
     prix_unitaire_valeur_amazon := prix_unitaire_valeur_amazon p;
     prix_unitaire_unite_amazon := prix_unitaire_unite_amazon p |}.

Definition set_prix_unitaire_texte_amazon (v : str) (p : ProduitAmazon)
    : ProduitAmazon :=
  {| id_produit := id_produit p; titre := titre p;
     prix_total_str := prix_total_str p; lien := lien p;
     prix_unitaire_kg := prix_unitaire_kg p;
     source_prix_kg := source_prix_kg p;
     prix_unitaire_texte_amazon := v;
     prix_unitaire_valeur_amazon := prix_unitaire_valeur_amazon p;
     prix_unitaire_unite_amazon := prix_unitaire_unite_amazon p |}.

Definition set_prix_unitaire_valeur_amazon (v : float) (p : ProduitAmazon)
    : ProduitAmazon :=
  {| id_produit := id_produit p; titre := titre p;
     prix_total_str := prix_total_str p; lien := lien p;
     prix_unitaire_kg := prix_unitaire_kg p;
     source_prix_kg := source_prix_kg p;
     prix_unitaire_texte_amazon := prix_unitaire_texte_amazon p;
     prix_unitaire_valeur_amazon := v;
     prix_unitaire_unite_amazon := prix_unitaire_unite_amazon p |}.

Definition set_prix_unitaire_unite_amazon (v : str) (p : ProduitAmazon)
    : ProduitAmazon :=
  {| id_produit := id_produit p; titre := titre p;
     prix_total_str := prix_total_str p; lien := lien p;
     prix_unitaire_kg := prix_unitaire_kg p;
     source_prix_kg := source_prix_kg p;
     prix_unitaire_texte_amazon := prix_unitaire_texte_amazon p;
     prix_unitaire_valeur_amazon := prix_unitaire_valeur_amazon p;
     prix_unitaire_unite_amazon := v |}.

(** ** 2. Computation and transformation *)

Local Open Scope result_scope.

(** The local [prix_net]:
    [prix_str.replace('€', '').replace('\xa0', '').replace(' ', '')
             .replace(',', '.').strip()]. *)
Definition prix_net (prix_str : str) : str :=
  strip (replace (chr ",") (py ".")
           (replace (chr " ") []
              (replace 160%N []
                 (replace (chr "€") [] prix_str)))).

Definition _nettoyer_prix_total (prix_str : str) : result float :=
  if str_eqb prix_str [] || str_eqb prix_str NA then ret f_zero
  else
    try_except (float_of_str (prix_net prix_str)) [ValueError] (ret f_zero).

Definition calculer_prix_au_kg_direct (valeur : float) (unite : str) : float :=
  if f_leb valeur f_zero then f_zero
  else
    let unite := strip (lower unite) in
    if str_eqb unite (py "kg") then valeur
    else if str_eqb unite (py "100g") then f_mul valeur (fl 10)
    else f_zero.

(** [(\d+)\s*x\s*(\d+)\s*g] compiled with [re.IGNORECASE]. *)
Definition re_format : Re.regex :=
  Re.Cat (Re.Grp 1 (Re.Plus (Re.Cls is_decimal)))
  (Re.Cat (Re.Star (Re.Cls is_space))
  (Re.Cat (Re.ChrI (chr "x"))
  (Re.Cat (Re.Star (Re.Cls is_space))
  (Re.Cat (Re.Grp 2 (Re.Plus (Re.Cls is_decimal)))
  (Re.Cat (Re.Star (Re.Cls is_space))
          (Re.ChrI (chr "g"))))))).

Definition calculer_prix_par_format (prix_total_str titre : str) : result float :=
  prix_total <- _nettoyer_prix_total prix_total_str ;;
  if f_leb prix_total f_zero then ret f_zero
  else
    match Re.search re_format titre with
    | Some match_format =>
      (* the body of [try] gives [Some v] when it returns [v] and [None]
         when it falls through; the handler is [pass] *)
      returned <-
        try_except
          (nombre_unites <- int_of_str (Re.group match_format 1) ;;
           poids_par_unite_g <- int_of_str (Re.group match_format 2) ;;
           produit <- float_of_int (nombre_unites * poids_par_unite_g) ;;
           poids_total_kg <- f_truediv produit (fl 1000) ;;
           if f_ltb f_zero poids_total_kg
           then (prix <- f_truediv prix_total poids_total_kg ;; ret (Some prix))
           else ret None)
          [ValueError; TypeError; ZeroDivisionError]
          (ret None) ;;
      match returned with
      | Some prix => ret prix
      | None => ret f_zero
      end
    | None => ret f_zero
    end.

(** ** 3. Extraction *)

(** [([\d.,\s]+)€\s*(?:/|/\s*|/)?\s*(kg|100\s*g)], compiled without flags. *)
Definition re_unitaire : Re.regex :=
  Re.Cat (Re.Grp 1 (Re.Plus (Re.Cls (fun c =>
            is_decimal c || (c =? chr ".")%N || (c =? chr ",")%N || is_space c))))
  (Re.Cat (Re.Chr (chr "€"))
  (Re.Cat (Re.Star (Re.Cls is_space))
  (Re.Cat (Re.Opt (Re.Alt (Re.Chr (chr "/"))
                  (Re.Alt (Re.Cat (Re.Chr (chr "/")) (Re.Star (Re.Cls is_space)))
                          (Re.Chr (chr "/")))))
  (Re.Cat (Re.Star (Re.Cls is_space))
          (Re.Grp 2 (Re.Alt (Re.Cat (Re.Chr (chr "k")) (Re.Chr (chr "g")))
                            (Re.Cat (Re.Chr (chr "1"))
                            (Re.Cat (Re.Chr (chr "0"))
                            (Re.Cat (Re.Chr (chr "0"))
                            (Re.Cat (Re.Star (Re.Cls is_space))
                                    (Re.Chr (chr "g")))))))))))).

(** The locals [valeur_str] and [unite_str] of the loop:
    [match.group(1).replace(',', '.').replace(' ', '').strip()] and
    [match.group(2).replace(' ', '').strip()]. *)
Definition valeur_str_de (m : Re.captures) : str :=
  strip (replace (chr " ") [] (replace (chr ",") (py ".") (Re.group m 1))).

Definition unite_str_de (m : Re.captures) : str :=
  strip (replace (chr " ") [] (Re.group m 2)).

(** The [for span in prix_blocs] loop; the triple is the state of the three
    local variables. *)
Fixpoint boucle_prix_blocs (prix_blocs : list (list str))
    (etat : float * str * str) : result (float * str * str) :=
  match prix_blocs with
  | [] => ret etat
  | span :: suite =>
    let '(prix_unitaire_valeur, prix_unitaire_unite, prix_unitaire_texte) := etat in
    let texte := get_text_strip span in
    match Re.search re_unitaire texte with
    | Some m =>
      let valeur_str := valeur_str_de m in
      let unite_str := unite_str_de m in
      converted <-
        try_except (v <- float_of_str valeur_str ;; ret (Some v))
                   [ValueError] (ret None) ;;
      match converted with
      | Some v => ret (v, unite_str, texte)                               (* break *)
      | None => boucle_prix_blocs suite
                  (prix_unitaire_valeur, prix_unitaire_unite, texte)      (* continue *)
      end
    | None => boucle_prix_blocs suite etat
    end
  end.

Definition _extraire_prix_unitaire_amazon (produit : Tag)
    : result (float * str * str) :=
  boucle_prix_blocs (PRIX_UNITAIRE_TEXTE produit) (f_zero, NA, NA).

(** ** Objects, the call journal and effects

    [ProduitAmazon] objects are mutable and shared by reference: they live
    in a store, and lists hold references.  The journal records the calls
    [_traiter_produit] makes to the extractor and to the two normalizers, in
    the order they are made. *)

Definition ref := nat.

Inductive appel :=
| Appel_extraire_prix_unitaire_amazon
| Appel_calculer_prix_au_kg_direct
| Appel_calculer_prix_par_format.

Record world := {
  objets : list ProduitAmazon;
  journal : list appel
}.

Definition M (A : Type) : Type := world -> world * result A.

Definition mret {A} (a : A) : M A := fun w => (w, inr a).

Definition mbind {A B} (m : M A) (f : A -> M B) : M B :=
  fun w =>
    match m w with
    | (w', inl e) => (w', inl e)
    | (w', inr a) => f a w'
    end.

Definition lift {A} (r : result A) : M A := fun w => (w, r).

Declare Scope M_scope.
Delimit Scope M_scope with M.
Notation "x <- m ;; k" := (mbind m (fun x => k))
  (at level 61, m at next level, right associativity) : M_scope.
Notation "' p <- m ;; k" := (mbind m (fun x => let 'p := x in k))
  (at level 61, p pattern, m at next level, right associativity) : M_scope.
Notation "m ;; k" := (mbind m (fun _ => k))
  (at level 61, right associativity) : M_scope.

Fixpoint update {A} (n : nat) (x : A) (l : list A) : list A :=
  match l, n with
  | [], _ => []
  | _ :: r, O => x :: r
  | y :: r, S n' => y :: update n' x r
  end.

(** Creation of an object: a fresh reference. *)
Definition alloc (o : ProduitAmazon) : M ref :=
  fun w => ({| objets := objets w ++ [o]; journal := journal w |},
            inr (length (objets w))).

Definition getattr {A} (r : ref) (field : ProduitAmazon -> A) : M A :=
  fun w =>
    match nth_error (objets w) r with
    | Some o => (w, inr (field o))
    | None => (w, inl LookupError)
    end.

Definition setattr (r : ref) (assign : ProduitAmazon -> ProduitAmazon) : M unit :=
  fun w =>
    match nth_error (objets w) r with
    | Some o => ({| objets := update r (assign o) (objets w);
                    journal := journal w |}, inr tt)
    | None => (w, inl LookupError)
    end.

Definition call {A} (f : appel) (body : M A) : M A :=
  fun w => body {| objets := objets w; journal := journal w ++ [f] |}.

Local Open Scope M_scope.

(** The three basic extractions at the head of [_traiter_produit].  The
    [print] at its end comes with [_traiter_produit_print], further down:
    [_traiter_produit] is the function up to that [print]. *)
Definition titre_de (produit : Tag) : str :=
  match TITRE produit with
  | Some text => strip text
  | None => py "Titre non trouvé"
  end.

Definition lien_de (produit : Tag) : str :=
  match LIEN produit with
  | Some attrs =>
    (URL_BASE_AMAZON ++
       match attrs with
       | Some href => href
       | None => py "Lien non trouvé"
       end)%list
  | None => py "Lien non trouvé"
  end.

Definition prix_total_str_de (produit : Tag) : str :=
  match PRIX_TOTAL produit with
  | Some text => text
  | None => NA
  end.

Definition _traiter_produit (produit : Tag) (id_prefix : str) : M ref :=
  let titre := titre_de produit in
  let lien := lien_de produit in
  let prix_total_str := prix_total_str_de produit in
  produit_data <- alloc (new_ProduitAmazon id_prefix titre prix_total_str lien) ;;
  '(valeur_amz, unite_amz, texte_amz) <-
    call Appel_extraire_prix_unitaire_amazon
      (lift (_extraire_prix_unitaire_amazon produit)) ;;
  setattr produit_data (set_prix_unitaire_valeur_amazon valeur_amz) ;;
  setattr produit_data (set_prix_unitaire_unite_amazon unite_amz) ;;
  setattr produit_data (set_prix_unitaire_texte_amazon texte_amz) ;;
  prix_kg_direct <-
    call Appel_calculer_prix_au_kg_direct
      (mret (calculer_prix_au_kg_direct valeur_amz unite_amz)) ;;
  (if f_ltb f_zero prix_kg_direct then
     setattr produit_data (set_prix_unitaire_kg prix_kg_direct) ;;
     setattr produit_data (set_source_prix_kg (py "Amazon (Direct)"))
   else
     prix_calcule_format <-
       call Appel_calculer_prix_par_format
         (lift (calculer_prix_par_format prix_total_str titre)) ;;
     if f_ltb f_zero prix_calcule_format then
       setattr produit_data (set_prix_unitaire_kg prix_calcule_format) ;;
       setattr produit_data (set_source_prix_kg (py "Calculé (NxG)"))
     else mret tt) ;;
  mret produit_data.

(** The [for i, produit in enumerate(produits)] loop.  [except Exception]
    catches every exception; the product is skipped. *)
Fixpoint boucle_produits (produits : list Tag) (i : nat) (row_num_base : nat)
    (resultats : list ref) : M (list ref) :=
  match produits with
  | [] => mret resultats
  | produit :: suite =>
    let produit_id := (py "R" ++ str_of_nat (row_num_base + i + 1))%list in
    fun w =>
      match _traiter_produit produit produit_id w with
      | (w', inr produit_data) =>
        boucle_produits suite (S i) row_num_base (resultats ++ [produit_data]) w'
      | (w', inl _) =>
        boucle_produits suite (S i) row_num_base resultats w'
      end
  end.

(** [produits] is what [soup.select(SELECTEURS["PRODUIT_BLOC"])] finds in the
    page. *)
Definition extraire_donnees_page (produits : list Tag) (row_num_base : nat)
    : M (list ref) :=
  boucle_produits produits 0 row_num_base [].

(** ** 5. Ranking *)

(** The comprehension [[r for r in resultats if r.prix_unitaire_kg > 0.0]]. *)
Fixpoint filtrer (resultats : list ref) : M (list ref) :=
  match resultats with
  | [] => mret []
  | r :: suite =>
    prix <- getattr r prix_unitaire_kg ;;
    gardes <- filtrer suite ;;
    mret (if f_ltb f_zero prix then r :: gardes else gardes)
  end.

(** [sorted(l, key=...)]: the keys are computed first, one per element, and
    the elements are then ordered by comparing keys with [<] only.  The sort
    is stable; it is written here as an insertion sort. *)
Fixpoint with_keys (l : list ref) : M (list (float * ref)) :=
  match l with
  | [] => mret []
  | r :: suite =>
    k <- getattr r prix_unitaire_kg ;;
    ks <- with_keys suite ;;
    mret ((k, r) :: ks)
  end.

Fixpoint insert {A} (x : float * A) (l : list (float * A)) : list (float * A) :=
  match l with
  | [] => [x]
  | y :: l' => if f_ltb (fst y) (fst x) then y :: insert x l' else x :: l
  end.

Definition sort_keyed {A} (l : list (float * A)) : list (float * A) :=
  fold_right insert [] l.

Definition sorted_by_prix (l : list ref) : M (list ref) :=
  keyed <- with_keys l ;;
  mret (map snd (sort_keyed keyed)).

Definition nettoyer_et_trier_resultats (resultats : list ref) : M (list ref) :=
  resultats_filtres <- filtrer resultats ;;
  resultats_tries <- sorted_by_prix resultats_filtres ;;
  mret resultats_tries.

(** ** Orchestration

    [web page_num] is what the browser gives for page [page_num]: an
    exception of [page.goto], [page.wait_for_selector] or [page.content], or
    the product blocks of the page.  The loop stops at the first exception
    ([break]). *)
Fixpoint boucle_pages (web : nat -> result (list Tag)) (page_nums : list nat)
    (total_resultats : list ref) (current_row : nat) : M (list ref) :=
  match page_nums with
  | [] => mret total_resultats
  | page_num :: suite =>
    match web page_num with
    | inl _ => mret total_resultats
    | inr produits =>
      fun w =>
        match extraire_donnees_page produits current_row w with
        | (w', inr resultats_page) =>
          boucle_pages web suite (total_resultats ++ resultats_page)
            (current_row + length resultats_page) w'
        | (w', inl _) => (w', inr total_resultats)
        end
    end
  end.

(** [main] hands [produits_tries] to [ecrire_csv]; it is returned here
    together with [total_resultats]. *)
Definition main (web : nat -> result (list Tag)) : M (list ref * list ref) :=
  total_resultats <- boucle_pages web (seq 1 MAX_PAGES) [] 0 ;;
  produits_tries <- nettoyer_et_trier_resultats total_resultats ;;
  mret (total_resultats, produits_tries).

Definition empty_world : world := {| objets := []; journal := [] |}.

(* ====================================================================== *)
(** * Vocabulary of the properties *)
(* ====================================================================== *)

(** The object a reference designates. *)
Definition deref (w : world) (r : ref) : option ProduitAmazon :=
  nth_error (objets w) r.

Definition live (w : world) (r : ref) : Prop :=
  exists o, deref w r = Some o.

(** The resolved price of the listing behind a reference. *)
Definition prix_of (w : world) (r : ref) : float :=
  match deref w r with
  | Some o => prix_unitaire_kg o
  | None => f_zero
  end.

(** The two states of a resolved listing: a positive price with a source
    other than ["N/A"], or price [0.0] with source ["N/A"]. *)
Definition resolved_state (o : ProduitAmazon) : Prop :=
  f_ltb f_zero (prix_unitaire_kg o) = true /\ source_prix_kg o <> NA.

Definition unresolved_state (o : ProduitAmazon) : Prop :=
  prix_unitaire_kg o = f_zero /\ source_prix_kg o = NA.

Definition coherent (o : ProduitAmazon) : Prop :=
  resolved_state o \/ unresolved_state o.

(** [w'] has the objects of [w], unchanged, and possibly new ones. *)
Definition extends (w w' : world) : Prop :=
  exists l, objets w' = objets w ++ l.

(** A listing collected from a page, with the position (from 0) of its
    product block in the page: the object [r] designates in [w] was built
    from block [k] of [produits] and carries the identifier computed from
    [offset]. *)
Definition collected_from (w : world) (produits : list Tag) (offset : nat)
    (k : nat) (r : ref) : Prop :=
  exists o produit,
    deref w r = Some o /\
    nth_error produits k = Some produit /\
    titre o = titre_de produit /\
    prix_total_str o = prix_total_str_de produit /\
    id_produit o = (py "R" ++ str_of_nat (offset + (k + 1)))%list.

(** Keys of the elements being sorted: positive, and in order. *)
Definition key_pos {A} (x : float * A) : Prop := f_ltb f_zero (fst x) = true.
Definition key_le {A} (x y : float * A) : Prop := f_leb (fst x) (fst y) = true.

(** The listings kept by the ranking: those with a price [> 0], and those
    with a price that is not [0]. *)
Definition prix_positif (w : world) (r : ref) : bool := f_ltb f_zero (prix_of w r).
Definition prix_non_nul (w : world) (r : ref) : bool :=
  negb (f_eqb (prix_of w r) f_zero).

(** Ascending order of the resolved prices. *)
Definition prix_le (w : world) (a b : ref) : Prop :=
  f_leb (prix_of w a) (prix_of w b) = true.

(** Five listings with prices [0.0, 12.5, 0.0, 8.0, 8.0], in arrival order. *)
Definition listing_exemple (n : nat) (prix : float) (source : str) : ProduitAmazon :=
  set_source_prix_kg source
    (set_prix_unitaire_kg prix
       (new_ProduitAmazon (py "R" ++ str_of_nat n)%list (py "Barre") (py "9,99 €")
          (py "Lien non trouvé"))).

Definition world_exemple : world :=
  {| objets := [ listing_exemple 1 (fl 0) NA;
                 listing_exemple 2 (fl 12.5) (py "Amazon (Direct)");
                 listing_exemple 3 (fl 0) NA;
                 listing_exemple 4 (fl 8) (py "Calculé (NxG)");
                 listing_exemple 5 (fl 8) (py "Amazon (Direct)") ];
     journal := [] |}.

(** The references collected from the pages, page after page. *)
Definition refs_of (pages : list (list (nat * ref))) : list ref :=
  concat (map (map snd) pages).

(** Three product blocks: one with a declared price per kilogram, one with
    a pack size in its title, one with neither; the first page shows the
    last two, the second page the first, the third page does not load. *)
Definition bloc_A : Tag :=
  {| TITRE := Some (py " Barre A ");
     LIEN := Some (Some (py "/dp/A"));
     PRIX_TOTAL := Some (py "24,60 €");
     PRIX_UNITAIRE_TEXTE := [[py "Promo"]; [py " (20,50€/kg) "]] |}.

Definition bloc_B : Tag :=
  {| TITRE := Some (py "Barres 10x50g");
     LIEN := Some None;
     PRIX_TOTAL := Some (py "15,00 €");
     PRIX_UNITAIRE_TEXTE := [] |}.

Definition bloc_C : Tag :=
  {| TITRE := None; LIEN := None; PRIX_TOTAL := None;
     PRIX_UNITAIRE_TEXTE := [] |}.

Definition web_exemple (page_num : nat) : result (list Tag) :=
  match page_num with
  | 1%nat => inr [bloc_C; bloc_B]
  | 2%nat => inr [bloc_A]
  | _ => inl TimeoutError
  end.

(** The identifiers of the listings behind a list of references. *)
Definition ids_of (w : world) (l : list ref) : list (option str) :=
  map (fun r => option_map id_produit (deref w r)) l.

(** A title whose pack pattern reads [10^309 x 1 g]: the digit 1, then 309
    zeros, then ["x1g"]. *)
Definition titre_debordement : str :=
  (py "1" ++ repeat (chr "0") 309 ++ py "x1g")%list.

Definition bloc_debordement : Tag :=
  {| TITRE := Some titre_debordement;
     LIEN := None;
     PRIX_TOTAL := Some (py "19,99 €");
     PRIX_UNITAIRE_TEXTE := [] |}.

(** A price in the locale's format, ["<amount>,<cents> €"]: the amount is
    made of ASCII digits, possibly grouped by spaces or non-breaking spaces,
    and starts with a digit; the cents are ASCII digits; what follows them
    is made of spaces, non-breaking spaces and the euro sign. *)
Definition all_digits (s : str) : Prop :=
  Forall (fun c => is_ascii_digit c = true) s.

Definition locale_amount (a : str) : Prop :=
  (exists d r, a = d :: r /\ is_ascii_digit d = true) /\
  Forall (fun c => is_ascii_digit c = true \/ c = 32%N \/ c = 160%N) a.

Definition locale_tail (t : str) : Prop :=
  Forall (fun c => c = 32%N \/ c = 160%N \/ c = chr "€") t.

(** The digits of an amount, its separators left out. *)
Definition digits_only (a : str) : str := filter is_ascii_digit a.

(** A float that is not NaN and carries the given sign. *)
Definition has_sign (sign : bool) (x : float) : Prop :=
  match x with
  | S754_zero s | S754_infinity s | S754_finite s _ _ => s = sign
  | S754_nan => False
  end.

(** ** Meaning of a pattern

    [matches r s cs s' cs']: pattern [r] matches a prefix of [s], [s']
    being what remains, and turns the captures [cs] into [cs']. *)
Inductive matches : Re.regex -> str -> Re.captures -> str -> Re.captures -> Prop :=
| M_Eps s cs : matches Re.Eps s cs s cs
| M_Cls (p : codepoint -> bool) c s cs :
    p c = true -> matches (Re.Cls p) (c :: s) cs s cs
| M_Cat r1 r2 s cs s1 c1 s2 c2 :
    matches r1 s cs s1 c1 -> matches r2 s1 c1 s2 c2 ->
    matches (Re.Cat r1 r2) s cs s2 c2
| M_AltL r1 r2 s cs s1 c1 :
    matches r1 s cs s1 c1 -> matches (Re.Alt r1 r2) s cs s1 c1
| M_AltR r1 r2 s cs s1 c1 :
    matches r2 s cs s1 c1 -> matches (Re.Alt r1 r2) s cs s1 c1
| M_Star0 r s cs : matches (Re.Star r) s cs s cs
| M_StarS r s cs s1 c1 s2 c2 :
    matches r s cs s1 c1 -> matches (Re.Star r) s1 c1 s2 c2 ->
    matches (Re.Star r) s cs s2 c2
| M_Grp n r s cs s1 c1 :
    matches r s cs s1 c1 ->
    matches (Re.Grp n r) s cs s1 ((n, Re.consumed s s1) :: c1).

(** A pattern without capturing group. *)
Fixpoint no_group (r : Re.regex) : bool :=
  match r with
  | Re.Eps | Re.Cls _ => true
  | Re.Cat r1 r2 | Re.Alt r1 r2 => no_group r1 && no_group r2
  | Re.Star r' => no_group r'
  | Re.Grp _ _ => false
  end.

(** ** Spans, as the Unit-Price Extractor sees them *)

(** The span's text matches the pattern and its amount converts: the
    extractor stops at it, with value [v] and unit [u]. *)
Definition span_succeeds (span : list str) (v : float) (u : str) : Prop :=
  exists m,
    Re.search re_unitaire (get_text_strip span) = Some m /\
    float_of_str (valeur_str_de m) = inr v /\
    u = unite_str_de m.

(** The span's text does not match the pattern. *)
Definition span_no_match (span : list str) : Prop :=
  Re.search re_unitaire (get_text_strip span) = None.

(** The text has no whitespace other than the plain space. *)
Definition plain_spaces (t : str) : Prop :=
  forall c, In c t -> is_space c = true -> c = 32%N.

(** The pattern of the extractor with its unit tokens read without regard
    to case, as [re.IGNORECASE] would. *)
Definition re_unitaire_ignorecase : Re.regex :=
  Re.Cat (Re.Grp 1 (Re.Plus (Re.Cls (fun c =>
            is_decimal c || (c =? chr ".")%N || (c =? chr ",")%N || is_space c))))
  (Re.Cat (Re.Chr (chr "€"))
  (Re.Cat (Re.Star (Re.Cls is_space))
  (Re.Cat (Re.Opt (Re.Alt (Re.Chr (chr "/"))
                  (Re.Alt (Re.Cat (Re.Chr (chr "/")) (Re.Star (Re.Cls is_space)))
                          (Re.Chr (chr "/")))))
  (Re.Cat (Re.Star (Re.Cls is_space))
          (Re.Grp 2 (Re.Alt (Re.Cat (Re.ChrI (chr "k")) (Re.ChrI (chr "g")))
                            (Re.Cat (Re.Chr (chr "1"))
                            (Re.Cat (Re.Chr (chr "0"))
                            (Re.Cat (Re.Chr (chr "0"))
                            (Re.Cat (Re.Star (Re.Cls is_space))
                                    (Re.ChrI (chr "g")))))))))))).

Definition bloc_spans (spans : list (list str)) : Tag :=
  {| TITRE := None; LIEN := None; PRIX_TOTAL := None;
     PRIX_UNITAIRE_TEXTE := spans |}.

(** The span's text does not match, or it matches and its amount does not
    convert: the extractor moves on to the next span. *)
Definition span_fails (span : list str) : Prop :=
  span_no_match span \/
  exists m e,
    Re.search re_unitaire (get_text_strip span) = Some m /\
    float_of_str (valeur_str_de m) = inl e.

(* ====================================================================== *)
(** * The report: formatting and CSV *)
(* ====================================================================== *)

Local Open Scope result_scope.

(** ** [str(n)] and [format(x, ".2f")] *)

Definition str_of_N (n : N) : str := digits_of_uint (N.to_uint n).

(** [n / d] rounded to the nearest integer, ties to the even one
    ([0 <= n], [0 < d]). *)
Definition div_half_even (n d : Z) : Z :=
  let q := n / d in
  match 2 * (n mod d) ?= d with
  | Lt => q
  | Gt => q + 1
  | Eq => if Z.even q then q else q + 1
  end.

(** The number of hundredths nearest to [m * 2 ^ e]. *)
Definition centiemes (m : positive) (e : Z) : Z :=
  if 0 <=? e then Zpos m * 2 ^ e * 100
  else div_half_even (Zpos m * 100) (2 ^ (- e)).

(** A number of hundredths in fixed notation: integer part, point, two
    digits. *)
Definition fixed_2 (c : Z) : str :=
  (str_of_N (Z.to_N (c / 100))
   ++ chr "." :: [ (48 + Z.to_N ((c mod 100) / 10))%N;
                   (48 + Z.to_N ((c mod 100) mod 10))%N ])%list.

(** [f"{x:.2f}"]: the exact value of the float rounded to two decimals,
    ties to even. *)
Definition format_2f (x : float) : str :=
  match x with
  | S754_nan => py "nan"
  | S754_infinity s => if s then py "-inf" else py "inf"
  | S754_zero s => if s then py "-0.00" else py "0.00"
  | S754_finite s m e =>
    ((if s then py "-" else []) ++ fixed_2 (centiemes m e))%list
  end.

(** ** Dictionaries with string keys, in insertion order *)

Definition dict := list (str * str).

(** [d[k] = v]: the value of an existing key is replaced in place, a new key
    goes to the end. *)
Fixpoint dict_set (k v : str) (d : dict) : dict :=
  match d with
  | [] => [(k, v)]
  | (k', v') :: r =>
    if str_eqb k' k then (k', v) :: r else (k', v') :: dict_set k v r
  end.

(** [d.get(k, "")]. *)
Fixpoint dict_get (k : str) (d : dict) : str :=
  match d with
  | [] => []
  | (k', v) :: r => if str_eqb k' k then v else dict_get k r
  end.

Definition dict_keys (d : dict) : list str := map fst d.

(** ** 4. Cleaning and CSV writing *)

Definition NOM_FICHIER_CSV : str :=
  py "resultats_amazon_barres_proteinees_clean.csv".

Definition COL_ID : str := py "ID".
Definition COL_TITRE : str := py "Titre".
Definition COL_PRIX_UNITAIRE : str := py "Prix Unitaire (€/kg)".
Definition COL_PRIX_TOTAL : str := py "Prix Total (€)".
Definition COL_SOURCE : str := py "Source Prix (€/kg)".
Definition COL_TEXTE_AMAZON : str := py "Prix Unitaire (texte Amazon)".
Definition COL_UNITE_AMAZON : str := py "Prix Unitaire (Unité Amazon)".

Local Open Scope M_scope.

Definition _preparer_ligne_csv (produit : ref) : M dict :=
  id <- getattr produit id_produit ;;
  titre <- getattr produit titre ;;
  source <- getattr produit source_prix_kg ;;
  texte <- getattr produit prix_unitaire_texte_amazon ;;
  unite <- getattr produit prix_unitaire_unite_amazon ;;
  let ligne : dict :=
    [ (COL_ID, id);
      (COL_TITRE, titre);
      (COL_PRIX_UNITAIRE, []);
      (COL_PRIX_TOTAL, []);
      (COL_SOURCE, source);
      (COL_TEXTE_AMAZON, texte);
      (COL_UNITE_AMAZON, unite) ] in
  prix_unitaire_kg <- getattr produit prix_unitaire_kg ;;
  let ligne :=
    if f_ltb f_zero prix_unitaire_kg
    then dict_set COL_PRIX_UNITAIRE
           (replace (chr ".") (py ",") (format_2f prix_unitaire_kg)) ligne
    else ligne in
  prix_total_str <- getattr produit prix_total_str ;;
  prix_total_float <- lift (_nettoyer_prix_total prix_total_str) ;;
  let ligne :=
    if f_ltb f_zero prix_total_float
    then dict_set COL_PRIX_TOTAL
           (replace (chr ".") (py ",") (format_2f prix_total_float)) ligne
    else dict_set COL_PRIX_TOTAL prix_total_str ligne in
  mret ligne.

(** *** [csv.writer] with [delimiter=';'] and the defaults of the [excel]
    dialect: minimal quoting with the double quote (code point 34), quotes
    doubled, lines ended by CR LF. *)

Definition csv_special (c : codepoint) : bool :=
  ((c =? chr ";") || (c =? 34) || (c =? 13) || (c =? 10))%N.

Definition csv_field (f : str) : str :=
  if existsb csv_special f
  then (34%N :: replace 34%N [34%N; 34%N] f ++ [34%N])%list
  else f.

Fixpoint csv_join (fields : list str) : str :=
  match fields with
  | [] => []
  | [f] => f
  | f :: r => (f ++ chr ";" :: csv_join r)%list
  end.

(** [writer.writerow(fields)]; a row made of one empty field is written as
    two double quotes. *)
Definition csv_row (fields : list str) : str :=
  (match fields with
   | [ [] ] => [34%N; 34%N]
   | _ => csv_join (map csv_field fields)
   end ++ [13%N; 10%N])%list.

(** [DictWriter._dict_to_list] with [extrasaction='raise'] and
    [restval='']. *)
Definition dict_to_list (fieldnames : list str) (rowdict : dict)
    : result (list str) :=
  if forallb (fun kv => existsb (str_eqb (fst kv)) fieldnames) rowdict
  then ret (map (fun k => dict_get k rowdict) fieldnames)
  else raise ValueError.

(** ** Output operations and the outside world

    The program prints on the console and writes one file.  Whether such an
    operation goes through is decided outside the program: the console may
    be unable to encode a text, a file may not open, a disk may be full.
    An operation is an event; the outside is asked about each event, given
    the events that went through before it, and answers [None] when it
    takes it and [Some e] when the operation raises [e]. *)

Inductive evenement :=
| Ev_print (texte : str)          (* print(texte) *)
| Ev_open (nom : str)             (* open(nom, 'w', newline='', encoding='utf-8') *)
| Ev_write (nom texte : str)      (* the write of a text to the open file *)
| Ev_close (nom : str).           (* the close that ends the with block *)

Definition exterieur := list evenement -> evenement -> option exception.

(** A computation that does output: from the events done so far to those
    done after it, with its result. *)
Definition sortie (A : Type) : Type :=
  list evenement -> list evenement * result A.

Definition faire (ext : exterieur) (ev : evenement) : sortie unit :=
  fun h =>
    match ext h ev with
    | Some e => (h, inl e)
    | None => (h ++ [ev], inr tt)
    end.

(** *** [_traiter_produit] with the [print] that ends it *)

Definition statut_de (o : ProduitAmazon) : str :=
  if f_ltb f_zero (prix_unitaire_kg o) then py "✅ Trouvé"
  else py "❌ Non trouvé".

Definition affichage_prix_kg_de (o : ProduitAmazon) : str :=
  if f_ltb f_zero (prix_unitaire_kg o)
  then (py "~" ++ format_2f (prix_unitaire_kg o) ++ py "€/kg ("
        ++ source_prix_kg o ++ py ")")%list
  else py "N/A".

(** The text printed: [titre[:60]] is the first sixty code points. *)
Definition message_produit (o : ProduitAmazon) : str :=
  (py "[" ++ id_produit o ++ py "] - " ++ statut_de o ++ py " ("
   ++ affichage_prix_kg_de o ++ py "): " ++ firstn 60 (titre o)
   ++ py "...")%list.

(** The whole of [_traiter_produit]: the computation [_traiter_produit]
    above, then the [print] of the listing, then [return produit_data].  An
    exception of the [print] leaves the function like any other. *)
Definition _traiter_produit_print (ext : exterieur) (produit : Tag)
    (id_prefix : str) (w : world) (h : list evenement)
    : world * list evenement * result ref :=
  match _traiter_produit produit id_prefix w with
  | (w', inl e) => (w', h, inl e)
  | (w', inr produit_data) =>
    match deref w' produit_data with
    | None => (w', h, inl LookupError)
    | Some o =>
      match faire ext (Ev_print (message_produit o)) h with
      | (h', inl e) => (w', h', inl e)
      | (h', inr _) => (w', h', inr produit_data)
      end
    end
  end.

(** *** The file *)

(** UTF-8 has no encoding for the surrogates, U+D800 to U+DFFF. *)
Definition est_surrogate (c : codepoint) : bool :=
  ((55296 <=? c) && (c <=? 57343))%N.

Definition encodable (s : str) : bool :=
  forallb (fun c => negb (est_surrogate c)) s.

(** [csvfile.write(texte)]: the file object encodes the text, which raises
    [UnicodeEncodeError] on a surrogate, and hands it on.
    [UnicodeEncodeError] is a [ValueError]; it is raised here as the class
    [ValueError], the one handlers would name. *)
Definition file_write (ext : exterieur) (nom texte : str) : sortie unit :=
  fun h =>
    if encodable texte then faire ext (Ev_write nom texte) h
    else (h, raise ValueError).

(** [DictWriter.writerows]: each row is converted, then written, before the
    next one is looked at. *)
Fixpoint writerows (ext : exterieur) (nom : str) (fieldnames : list str)
    (rowdicts : list dict) : sortie unit :=
  fun h =>
    match rowdicts with
    | [] => (h, ret tt)
    | d :: r =>
      match dict_to_list fieldnames d with
      | inl e => (h, inl e)
      | inr row =>
        match file_write ext nom (csv_row row) h with
        | (h', inl e) => (h', inl e)
        | (h', inr _) => writerows ext nom fieldnames r h'
        end
      end
    end.

(** The comprehension [[_preparer_ligne_csv(p) for p in produits_tries]]. *)
Fixpoint preparer_lignes (produits_tries : list ref) : M (list dict) :=
  match produits_tries with
  | [] => mret []
  | p :: suite =>
    ligne <- _preparer_ligne_csv p ;;
    lignes <- preparer_lignes suite ;;
    mret (ligne :: lignes)
  end.

(** [ecrire_csv].  [writeheader] writes the field names as a row.  Leaving
    the [with] block closes the file, also when the block raised; an
    exception of the close is the one that leaves the function. *)
Definition ecrire_csv (ext : exterieur) (produits_tries : list ref)
    (nom_fichier : str) (w : world) (h : list evenement)
    : world * list evenement * result unit :=
  match produits_tries with
  | [] =>
    let '(h', res) :=
      faire ext (Ev_print (py "Aucun produit à enregistrer dans le CSV.")) h in
    (w, h', res)
  | _ :: _ =>
    match preparer_lignes produits_tries w with
    | (w', inl e) => (w', h, inl e)
    | (w', inr lignes_formatees) =>
      let fieldnames := dict_keys (hd [] lignes_formatees) in
      match faire ext (Ev_open nom_fichier) h with
      | (h1, inl e) => (w', h1, inl e)
      | (h1, inr _) =>
        let '(h2, bloc) :=
          match file_write ext nom_fichier (csv_row fieldnames) h1 with
          | (h2, inl e) => (h2, inl e)
          | (h2, inr _) =>
            writerows ext nom_fichier fieldnames lignes_formatees h2
          end in
        match faire ext (Ev_close nom_fichier) h2 with
        | (h3, inl e) => (w', h3, inl e)
        | (h3, inr _) => (w', h3, bloc)
        end
      end
    end
  end.

(** ** Reading the CSV text back

    The reading side, as [csv.reader] with [delimiter=';'] reads a text:
    a field is closed by the delimiter or by the end of the line, a field
    that starts with a double quote runs to its closing quote, two quotes
    in it standing for one. *)

Inductive csv_mode := AtStart | InUnquoted | InQuoted | AfterQuote | AfterCR.

Record csv_state := {
  cs_records : list (list str);   (* finished records, the latest first *)
  cs_fields : list str;           (* fields of the record, the latest first *)
  cs_field : str;                 (* the field being read, backwards *)
  cs_mode : csv_mode
}.

Definition csv_push (c : codepoint) (m : csv_mode) (st : csv_state) : csv_state :=
  {| cs_records := cs_records st; cs_fields := cs_fields st;
     cs_field := c :: cs_field st; cs_mode := m |}.

Definition csv_set_mode (m : csv_mode) (st : csv_state) : csv_state :=
  {| cs_records := cs_records st; cs_fields := cs_fields st;
     cs_field := cs_field st; cs_mode := m |}.

Definition csv_end_field (st : csv_state) : csv_state :=
  {| cs_records := cs_records st;
     cs_fields := rev (cs_field st) :: cs_fields st;
     cs_field := []; cs_mode := AtStart |}.

Definition csv_end_record (m : csv_mode) (st : csv_state) : csv_state :=
  {| cs_records := rev (rev (cs_field st) :: cs_fields st) :: cs_records st;
     cs_fields := []; cs_field := []; cs_mode := m |}.

(** An end of line where a field could start: an empty record when the
    record has no field yet, else an empty last field. *)
Definition csv_eol_at_start (m : csv_mode) (st : csv_state) : csv_state :=
  match cs_fields st with
  | [] => {| cs_records := [] :: cs_records st;
             cs_fields := []; cs_field := []; cs_mode := m |}
  | _ :: _ => csv_end_record m st
  end.

Definition csv_step_start (st : csv_state) (c : codepoint) : csv_state :=
  if (c =? 34)%N then csv_set_mode InQuoted st
  else if (c =? chr ";")%N then csv_end_field st
  else if (c =? 13)%N then csv_eol_at_start AfterCR st
  else if (c =? 10)%N then csv_eol_at_start AtStart st
  else csv_push c InUnquoted st.

Definition csv_step (st : csv_state) (c : codepoint) : csv_state :=
  match cs_mode st with
  | AtStart => csv_step_start st c
  | AfterCR =>
    if (c =? 10)%N then csv_set_mode AtStart st else csv_step_start st c
  | InUnquoted =>
    if (c =? chr ";")%N then csv_end_field st
    else if (c =? 13)%N then csv_end_record AfterCR st
    else if (c =? 10)%N then csv_end_record AtStart st
    else csv_push c InUnquoted st
  | InQuoted =>
    if (c =? 34)%N then csv_set_mode AfterQuote st
    else csv_push c InQuoted st
  | AfterQuote =>
    if (c =? 34)%N then csv_push c InQuoted st
    else if (c =? chr ";")%N then csv_end_field st
    else if (c =? 13)%N then csv_end_record AfterCR st
    else if (c =? 10)%N then csv_end_record AtStart st
    else csv_push c InUnquoted st
  end.

Definition csv_run (st : csv_state) (text : str) : csv_state :=
  fold_left csv_step text st.

Definition csv_init : csv_state :=
  {| cs_records := []; cs_fields := []; cs_field := []; cs_mode := AtStart |}.

(** The records of a text; a last record without end of line counts. *)
Definition csv_read (text : str) : list (list str) :=
  let st := csv_run csv_init text in
  rev (match cs_mode st, cs_fields st, cs_field st with
       | (AtStart | AfterCR), [], [] => cs_records st
       | _, _, _ => cs_records (csv_end_record AtStart st)
       end).

(* ====================================================================== *)
(** * Vocabulary of the further properties *)
(* ====================================================================== *)

(** The characters [_nettoyer_prix_total] deletes: the euro sign, the
    non-breaking space and the space. *)
Definition est_separateur (c : codepoint) : bool :=
  ((c =? chr "€") || (c =? 160) || (c =? 32))%N.

Definition sans_separateurs (s : str) : str :=
  filter (fun c => negb (est_separateur c)) s.

(** The characters the first group of the extractor's pattern accepts. *)
Definition classe_montant (c : codepoint) : bool :=
  is_decimal c || (c =? chr ".")%N || (c =? chr ",")%N || is_space c.

(** A listing built from a product block: it carries the block's title, link
    and price text, and the annotation the extractor reads in the block. *)
Definition fidele (produit : Tag) (o : ProduitAmazon) : Prop :=
  titre o = titre_de produit /\
  lien o = lien_de produit /\
  prix_total_str o = prix_total_str_de produit /\
  _extraire_prix_unitaire_amazon produit
  = inr (prix_unitaire_valeur_amazon o, prix_unitaire_unite_amazon o,
         prix_unitaire_texte_amazon o).

(** A listing whose price and source follow from its own fields: the Direct
    Normalizer on the stored annotation when that gives a price [> 0], else
    the Pack-Size Normalizer on the stored price text and title. *)
Definition rederivable (o : ProduitAmazon) : Prop :=
  let direct :=
    calculer_prix_au_kg_direct (prix_unitaire_valeur_amazon o)
      (prix_unitaire_unite_amazon o) in
  if f_ltb f_zero direct then
    prix_unitaire_kg o = direct /\ source_prix_kg o = py "Amazon (Direct)"
  else
    exists p,
      calculer_prix_par_format (prix_total_str o) (titre o) = inr p /\
      if f_ltb f_zero p then
        prix_unitaire_kg o = p /\ source_prix_kg o = py "Calculé (NxG)"
      else
        prix_unitaire_kg o = f_zero /\ source_prix_kg o = NA.

(** A product block [_traiter_produit] returns on, whatever the identifier
    and the store. *)
Definition aboutit (produit : Tag) : Prop :=
  forall (id : str) (w : world),
    exists r, snd (_traiter_produit produit id w) = inr r.

(** Two answers of the browser the page loop cannot tell apart: the same
    product blocks, or an exception on both sides. *)
Definition meme_page (a b : result (list Tag)) : Prop :=
  match a, b with
  | inl _, inl _ => True
  | inr x, inr y => x = y
  | _, _ => False
  end.


(** The header of the report. *)
Definition en_tete : list str :=
  [ COL_ID; COL_TITRE; COL_PRIX_UNITAIRE; COL_PRIX_TOTAL; COL_SOURCE;
    COL_TEXTE_AMAZON; COL_UNITE_AMAZON ].

(** A price as the report shows it: [f"{x:.2f}".replace('.', ',')]. *)
Definition prix_fr (x : float) : str :=
  replace (chr ".") (py ",") (format_2f x).

(** The row [_preparer_ligne_csv] builds for a listing. *)
Definition ligne_de (o : ProduitAmazon) : dict :=
  [ (COL_ID, id_produit o);
    (COL_TITRE, titre o);
    (COL_PRIX_UNITAIRE,
     if f_ltb f_zero (prix_unitaire_kg o) then prix_fr (prix_unitaire_kg o)
     else []);
    (COL_PRIX_TOTAL,
     match _nettoyer_prix_total (prix_total_str o) with
     | inr x => if f_ltb f_zero x then prix_fr x else prix_total_str o
     | inl _ => prix_total_str o
     end);
    (COL_SOURCE, source_prix_kg o);
    (COL_TEXTE_AMAZON, prix_unitaire_texte_amazon o);
    (COL_UNITE_AMAZON, prix_unitaire_unite_amazon o) ].

(** The rows of the listings behind a list of references. *)
Definition lignes_de (w : world) (l : list ref) : list (list str) :=
  map (fun r => match deref w r with
                | Some o => map snd (ligne_de o)
                | None => []
                end) l.

(** A price cell in the report's notation: digits, a comma, two digits. *)
Definition cellule_decimale (s : str) : Prop :=
  exists ent d1 d2,
    s = (ent ++ chr "," :: [d1; d2])%list /\
    ent <> [] /\ all_digits ent /\
    is_ascii_digit d1 = true /\ is_ascii_digit d2 = true.

(** A listing collected from block [fst kr] of a page, as [collected_from],
    together with what ties it to the block and to its own fields. *)
Definition collecte_fidele (w : world) (produits : list Tag) (offset : nat)
    (kr : nat * ref) : Prop :=
  exists o produit,
    deref w (snd kr) = Some o /\
    nth_error produits (fst kr) = Some produit /\
    id_produit o = (py "R" ++ str_of_nat (offset + fst kr + 1))%list /\
    fidele produit o /\ rederivable o.

(** The example web with other answers after the page that does not load. *)
Definition web_exemple_bis (page_num : nat) : result (list Tag) :=
  match page_num with
  | 1%nat => inr [bloc_C; bloc_B]
  | 2%nat => inr [bloc_A]
  | 3%nat => inl LookupError
  | _ => inr [bloc_A; bloc_B]
  end.

(** The mode a field written by [csv_field] leaves the reader in. *)
Definition mode_apres (f : str) : csv_mode :=
  if existsb csv_special f then AfterQuote
  else match f with [] => AtStart | _ :: _ => InUnquoted end.

(** An outside that takes every operation. *)
Definition accueillant (ext : exterieur) : Prop :=
  forall h ev, ext h ev = None.

Definition tout_accepter : exterieur := fun _ _ => None.

(** A console that cannot encode surrogates, as one in UTF-8. *)
Definition console_utf8 : exterieur :=
  fun _ ev =>
    match ev with
    | Ev_print texte => if encodable texte then None else Some ValueError
    | _ => None
    end.

(** Texts written to a file one after the other. *)
Fixpoint ecrire_textes (ext : exterieur) (nom : str) (textes : list str)
    : sortie unit :=
  fun h =>
    match textes with
    | [] => (h, ret tt)
    | t :: r =>
      match file_write ext nom t h with
      | (h', inl e) => (h', inl e)
      | (h', inr _) => ecrire_textes ext nom r h'
      end
    end.

(** The events of a file written in full. *)
Definition fichier_ecrit (nom : str) (rows : list (list str))
    : list evenement :=
  Ev_open nom :: map (fun row => Ev_write nom (csv_row row)) rows
  ++ [Ev_close nom].

(** Rows whose cells UTF-8 can encode. *)
Definition rows_encodables (rows : list (list str)) : bool :=
  forallb (forallb encodable) rows.

(** A block whose title holds a lone surrogate. *)
Definition bloc_surrogate : Tag :=
  {| TITRE := Some (py "Barre " ++ [55296%N])%list;
     LIEN := None;
     PRIX_TOTAL := Some (py "15,00 €");
     PRIX_UNITAIRE_TEXTE := [[py "20,50€/kg"]] |}.

(* ====================================================================== *)
(** * Properties *)
(* ====================================================================== *)

(** ** The built-ins on examples *)

Example float_of_str_exemples :
  float_of_str (py "19.99") = inr (fl 19.99) /\
  float_of_str (py " 1_000.5 ") = inr (fl 1000.5) /\
  float_of_str (py "1e3") = inr (fl 1000) /\
  float_of_str (py "+.5") = inr (fl 0.5) /\
  float_of_str (py "-0") = inr (S754_zero true) /\
  float_of_str (py "iNf") = inr (S754_infinity false) /\
  float_of_str (py "1e400") = inr (S754_infinity false) /\
  float_of_str (py "9007199254740993") = inr (fl 9007199254740992) /\
  float_of_str (py "4.9e-324") = inr (S754_finite false 1 (-1074)) /\
  float_of_str [1633; 1634]%N = inr (fl 12) /\
  float_of_str (py "1 2") = inl ValueError /\
  float_of_str (py "1__0") = inl ValueError /\
  float_of_str (py "1e") = inl ValueError /\
  float_of_str (py "") = inl ValueError.
Proof. repeat split; vm_compute; reflexivity. Qed.

Example int_of_str_exemples :
  int_of_str (py "12") = inr 12 /\
  int_of_str (py " 0_7 ") = inr 7 /\
  int_of_str [1633; 1634]%N = inr 12 /\
  int_of_str (py "-5") = inr (-5) /\
  int_of_str (py "12a") = inl ValueError /\
  int_of_str (py "") = inl ValueError /\
  int_of_str (repeat (chr "1") 4300 ++ [chr "1"]) = inl ValueError.
Proof. repeat split; vm_compute; reflexivity. Qed.

Example float_of_int_exemples :
  float_of_int 768 = inr (fl 768) /\
  float_of_int (2 ^ 53 + 1) = inr (fl 9007199254740992) /\
  float_of_int (2 ^ 1024 - 2 ^ 970 - 1)
  = inr (S754_finite false 9007199254740991 971) /\
  float_of_int (2 ^ 1024 - 2 ^ 970) = inl OverflowError.
Proof. repeat split; vm_compute; reflexivity. Qed.

Example re_search_exemples :
  option_map (fun m => (Re.group m 1, Re.group m 2))
    (Re.search re_format (py "Protein Bar 12x64g Pack"))
  = Some (py "12", py "64") /\
  option_map (fun m => (Re.group m 1, Re.group m 2))
    (Re.search re_format (py "10 X 40 G")) = Some (py "10", py "40") /\
  option_map (fun m => (Re.group m 1, Re.group m 2))
    (Re.search re_format (py "a1x2gb3x4g")) = Some (py "1", py "2") /\
  Re.search re_format (py "lot de 6") = None /\
  Re.search re_format (py "12 x 64") = None /\
  option_map (fun m => (Re.group m 1, Re.group m 2))
    (Re.search re_unitaire (py "(33,32" ++ 160%N :: py "€/kg)"))
  = Some (py "33,32" ++ [160%N], py "kg") /\
  option_map (fun m => (Re.group m 1, Re.group m 2))
    (Re.search re_unitaire (py "2 € / 100  g"))
  = Some (py "2 ", py "100  g") /\
  Re.search re_unitaire (py "5€//kg") = None.
Proof. repeat split; vm_compute; reflexivity. Qed.

Example str_exemples :
  strip (py "  a b ") = py "a b" /\
  strip (160%N :: py "x" ++ [12288%N]) = py "x" /\
  lower (py " 100G ") = py " 100g " /\
  replace (chr ",") (py ".") (py "1,5") = py "1.5" /\
  get_text_strip [py " (20,50"; py " "; py "€/kg) "] = py "(20,50€/kg)" /\
  str_of_nat 42 = py "42".
Proof. repeat split; vm_compute; reflexivity. Qed.

(** ** Order on floats *)

Lemma f_ltb_leb (x y : float) : f_ltb x y = true -> f_leb x y = true.
Proof.
  unfold f_ltb, f_leb, SFltb, SFleb.
  destruct (SFcompare x y) as [[ | | ] | ]; congruence.
Qed.

Lemma f_ltb_eqb (x y : float) : f_ltb x y = true -> f_eqb x y = false.
Proof.
  unfold f_ltb, f_eqb, SFltb, SFeqb.
  destruct (SFcompare x y) as [[ | | ] | ]; congruence.
Qed.

Lemma f_eqb_leb (x y : float) : f_eqb x y = true -> f_leb x y = true.
Proof.
  unfold f_eqb, f_leb, SFeqb, SFleb.
  destruct (SFcompare x y) as [[ | | ] | ]; congruence.
Qed.

(** A strictly positive float is [+inf] or a finite float with sign [+]. *)
Lemma f_pos_inv (x : float) :
  f_ltb f_zero x = true ->
  x = S754_infinity false \/ exists m e, x = S754_finite false m e.
Proof.
  destruct x as [s | [ | ] | | [ | ] m e]; cbn; try discriminate; eauto.
Qed.

Lemma f_pos_not_leb_zero (x : float) :
  f_ltb f_zero x = true -> f_leb x f_zero = false.
Proof.
  intros H. destruct (f_pos_inv x H) as [-> | (m & e & ->)]; reflexivity.
Qed.

Lemma f_pos_not_nan (x : float) : f_ltb f_zero x = true -> is_nan x = false.
Proof.
  intros H. destruct (f_pos_inv x H) as [-> | (m & e & ->)]; reflexivity.
Qed.

Lemma f_zero_not_pos : f_ltb f_zero f_zero = false.
Proof. reflexivity. Qed.

Lemma finite_compare_antisym (m1 m2 : positive) (e1 e2 : Z) :
  match (e2 ?= e1) with
  | Lt => Lt
  | Gt => Gt
  | Eq => Pos.compare_cont Eq m2 m1
  end
  = CompOpp match (e1 ?= e2) with
            | Lt => Lt
            | Gt => Gt
            | Eq => Pos.compare_cont Eq m1 m2
            end.
Proof.
  rewrite (Z.compare_antisym e1 e2).
  destruct (e1 ?= e2); cbn; auto.
  change (Pos.compare_cont Eq m2 m1) with (Pos.compare m2 m1).
  change (Pos.compare_cont Eq m1 m2) with (Pos.compare m1 m2).
  apply Pos.compare_antisym.
Qed.

(** On positive floats [<] is total. *)
Lemma f_pos_total (x y : float) :
  f_ltb f_zero x = true -> f_ltb f_zero y = true ->
  f_ltb y x = false -> f_leb x y = true.
Proof.
  intros Hx Hy.
  destruct (f_pos_inv x Hx) as [-> | (m1 & e1 & ->)];
    destruct (f_pos_inv y Hy) as [-> | (m2 & e2 & ->)];
    try (cbn; congruence).
  unfold f_ltb, f_leb, SFltb, SFleb, SFcompare.
  rewrite (finite_compare_antisym m1 m2 e1 e2).
  destruct (match e1 ?= e2 with
            | Lt => Lt | Gt => Gt | Eq => Pos.compare_cont Eq m1 m2 end);
    cbn; congruence.
Qed.

(** On positive floats [==] is equality. *)
Lemma f_pos_eqb_eq (x y : float) :
  f_ltb f_zero x = true -> f_eqb x y = true -> x = y.
Proof.
  intros Hx.
  destruct (f_pos_inv x Hx) as [-> | (m1 & e1 & ->)];
    destruct y as [s | [ | ] | | [ | ] m2 e2]; cbn; try discriminate; auto.
  unfold f_eqb, SFeqb, SFcompare.
  destruct (e1 ?= e2) eqn:He; try discriminate.
  apply Z.compare_eq in He. subst e2.
  change (Pos.compare_cont Eq m1 m2) with (Pos.compare m1 m2).
  destruct (m1 ?= m2)%positive eqn:Hm; try discriminate.
  apply Pos.compare_eq in Hm. now subst m2.
Qed.

Lemma f_pos_eqb_refl (x : float) : f_ltb f_zero x = true -> f_eqb x x = true.
Proof.
  intros Hx.
  destruct (f_pos_inv x Hx) as [-> | (m & e & ->)]; auto.
  unfold f_eqb, SFeqb, SFcompare. rewrite Z.compare_refl.
  change (Pos.compare_cont Eq m m) with (Pos.compare m m).
  now rewrite Pos.compare_refl.
Qed.

Lemma f_pos_leb_trans (x y z : float) :
  f_ltb f_zero x = true -> f_ltb f_zero y = true -> f_ltb f_zero z = true ->
  f_leb x y = true -> f_leb y z = true -> f_leb x z = true.
Proof.
  intros Hx Hy Hz.
  destruct (f_pos_inv x Hx) as [-> | (m1 & e1 & ->)];
    destruct (f_pos_inv y Hy) as [-> | (m2 & e2 & ->)];
    destruct (f_pos_inv z Hz) as [-> | (m3 & e3 & ->)];
    try (cbn; congruence).
  unfold f_leb, SFleb, SFcompare.
  change (Pos.compare_cont Eq m1 m2) with (Pos.compare m1 m2).
  change (Pos.compare_cont Eq m2 m3) with (Pos.compare m2 m3).
  change (Pos.compare_cont Eq m1 m3) with (Pos.compare m1 m3).
  destruct (Z.compare_spec e1 e2); destruct (Z.compare_spec e2 e3);
    destruct (Z.compare_spec e1 e3); try congruence; try lia; subst;
    destruct (Pos.compare_spec m1 m2); destruct (Pos.compare_spec m2 m3);
    destruct (Pos.compare_spec m1 m3); try congruence; lia.
Qed.

Lemma f_pos_leb_antisym (x y : float) :
  f_ltb f_zero x = true -> f_ltb f_zero y = true ->
  f_leb x y = true -> f_leb y x = true -> x = y.
Proof.
  intros Hx Hy.
  destruct (f_pos_inv x Hx) as [-> | (m1 & e1 & ->)];
    destruct (f_pos_inv y Hy) as [-> | (m2 & e2 & ->)];
    try (cbn; congruence).
  unfold f_leb, SFleb, SFcompare.
  change (Pos.compare_cont Eq m1 m2) with (Pos.compare m1 m2).
  change (Pos.compare_cont Eq m2 m1) with (Pos.compare m2 m1).
  destruct (Z.compare_spec e1 e2); destruct (Z.compare_spec e2 e1);
    try congruence; try lia; subst;
    destruct (Pos.compare_spec m1 m2); destruct (Pos.compare_spec m2 m1);
    try congruence; lia.
Qed.

(** ** Strings *)

Lemma str_eqb_eq (a b : str) : str_eqb a b = true <-> a = b.
Proof.
  unfold str_eqb. destruct (list_eq_dec N.eq_dec a b); split; congruence.
Qed.

Lemma str_eqb_neq (a b : str) : str_eqb a b = false <-> a <> b.
Proof.
  unfold str_eqb. destruct (list_eq_dec N.eq_dec a b); split; congruence.
Qed.

Lemma str_eqb_refl (a : str) : str_eqb a a = true.
Proof. now apply str_eqb_eq. Qed.

(** ** The Direct Normalizer *)

(** C8.  [calculer_prix_au_kg_direct] compares the unit after [lower] and
    [strip]: a value [<= 0] gives [0.0]; otherwise unit ["kg"] gives the value
    unchanged, unit ["100g"] the value times ten, and any other unit
    (["N/A"] among them) [0.0]; the four examples of the specification are
    evaluated. *)
Theorem calculer_prix_au_kg_direct_contract :
  (forall (valeur : float) (unite : str),
      let normalized := strip (lower unite) in
      let res := calculer_prix_au_kg_direct valeur unite in
      (f_leb valeur f_zero = true -> res = f_zero) /\
      (f_leb valeur f_zero = false -> normalized = py "kg" -> res = valeur) /\
      (f_leb valeur f_zero = false -> normalized = py "100g" ->
       res = f_mul valeur (fl 10)) /\
      (normalized <> py "kg" -> normalized <> py "100g" -> res = f_zero)) /\
  calculer_prix_au_kg_direct (fl 20.5) (py "kg") = fl 20.5 /\
  calculer_prix_au_kg_direct (fl 2.5) (py "100g") = fl 25 /\
  calculer_prix_au_kg_direct (fl 5) (py "L") = fl 0 /\
  calculer_prix_au_kg_direct (fl 0) (py "kg") = fl 0 /\
  calculer_prix_au_kg_direct (fl 5) NA = fl 0 /\
  calculer_prix_au_kg_direct (fl 20.5) (py " KG ") = fl 20.5 /\
  calculer_prix_au_kg_direct (fl 2.5) (py "100G") = fl 25.
Proof.
  split; [ | repeat split; vm_compute; reflexivity ].
  intros valeur unite normalized res. subst res normalized.
  unfold calculer_prix_au_kg_direct.
  destruct (f_leb valeur f_zero).
  - repeat split; intros; congruence.
  - destruct (str_eqb (strip (lower unite)) (py "kg")) eqn:Hkg.
    + apply str_eqb_eq in Hkg. repeat split; intros; try congruence.
      rewrite Hkg in *. discriminate.
    + destruct (str_eqb (strip (lower unite)) (py "100g")) eqn:Hg.
      * apply str_eqb_eq in Hg. apply str_eqb_neq in Hkg.
        repeat split; intros; congruence.
      * repeat split; intros; try congruence.
        -- apply str_eqb_neq in Hkg. congruence.
        -- apply str_eqb_neq in Hg. congruence.
Qed.

(** ** The Currency Parser *)

(** [float] on a [str] raises nothing but [ValueError]. *)
Lemma float_of_str_raises (s : str) (e : exception) :
  float_of_str s = inl e -> e = ValueError.
Proof.
  unfold float_of_str, raise, ret.
  destruct (drop_underscores 0%N (c_strip (map to_ascii s))) as [t | ].
  - destruct (parse_float_literal t); congruence.
  - congruence.
Qed.

Lemma nettoyer_prix_total_returns (prix_str : str) :
  exists v : float, _nettoyer_prix_total prix_str = inr v.
Proof.
  unfold _nettoyer_prix_total.
  destruct (str_eqb prix_str [] || str_eqb prix_str NA);
    [ eexists; reflexivity | ].
  destruct (float_of_str (prix_net prix_str)) as [e | v] eqn:Hf.
  - rewrite (float_of_str_raises _ _ Hf). eexists; reflexivity.
  - eexists; reflexivity.
Qed.

(** C6.  [_nettoyer_prix_total] returns on every string (it raises nothing),
    and it returns [0.0] when the string is empty, when it is ["N/A"], and
    when [float] rejects the normalized text [prix_net]. *)
Theorem nettoyer_prix_total_total :
  forall prix_str : str,
    (exists v : float, _nettoyer_prix_total prix_str = inr v) /\
    (prix_str = [] \/ prix_str = NA \/
     (exists e, float_of_str (prix_net prix_str) = inl e) ->
     _nettoyer_prix_total prix_str = inr f_zero).
Proof.
  intros prix_str. unfold _nettoyer_prix_total.
  destruct (str_eqb prix_str [] || str_eqb prix_str NA) eqn:Hs.
  - split; [ eexists; reflexivity | reflexivity ].
  - apply orb_false_iff in Hs. destruct Hs as [H1 H2].
    apply str_eqb_neq in H1. apply str_eqb_neq in H2.
    destruct (float_of_str (prix_net prix_str)) as [e | v] eqn:Hf.
    + rewrite (float_of_str_raises _ _ Hf).
      split; [ eexists; reflexivity | reflexivity ].
    + split; [ eexists; reflexivity | ].
      intros [H | [H | [e H]]]; congruence.
Qed.

(** ** The store *)

Lemma nth_error_app_last {A} (l : list A) (x : A) :
  nth_error (l ++ [x]) (length l) = Some x.
Proof.
  rewrite nth_error_app2 by lia. now rewrite Nat.sub_diag.
Qed.

Lemma update_app_last {A} (l : list A) (x y : A) :
  update (length l) y (l ++ [x]) = l ++ [y].
Proof.
  induction l as [ | a l IH]; cbn; [ reflexivity | now rewrite IH ].
Qed.

Lemma setattr_last (l : list ProduitAmazon) (o : ProduitAmazon)
    (j : list appel) (assign : ProduitAmazon -> ProduitAmazon) :
  setattr (length l) assign {| objets := l ++ [o]; journal := j |}
  = ({| objets := l ++ [assign o]; journal := j |}, inr tt).
Proof.
  unfold setattr. cbn [objets journal].
  now rewrite nth_error_app_last, update_app_last.
Qed.

(** ** The Unit-Price Extractor returns *)

Lemma boucle_prix_blocs_returns (prix_blocs : list (list str))
    (etat : float * str * str) :
  exists res, boucle_prix_blocs prix_blocs etat = inr res.
Proof.
  revert etat. induction prix_blocs as [ | span suite IH]; intros etat.
  - eexists; reflexivity.
  - cbn [boucle_prix_blocs]. destruct etat as [[v u] t].
    destruct (Re.search re_unitaire (get_text_strip span)) as [m | ]; [ | apply IH ].
    destruct (float_of_str _) as [e | x] eqn:Hf.
    + rewrite (float_of_str_raises _ _ Hf). apply IH.
    + eexists; reflexivity.
Qed.

Lemma extraire_prix_unitaire_returns (produit : Tag) :
  exists v u t, _extraire_prix_unitaire_amazon produit = inr (v, u, t).
Proof.
  destruct (boucle_prix_blocs_returns (PRIX_UNITAIRE_TEXTE produit) (f_zero, NA, NA))
    as [[[v u] t] H].
  now exists v, u, t.
Qed.

(** ** One listing: [_traiter_produit] step by step *)

Lemma traiter_produit_run (produit : Tag) (id : str) (w : world) :
  _traiter_produit produit id w =
  let o0 := new_ProduitAmazon id (titre_de produit) (prix_total_str_de produit)
              (lien_de produit) in
  let j1 := journal w ++ [Appel_extraire_prix_unitaire_amazon] in
  match _extraire_prix_unitaire_amazon produit with
  | inl e => ({| objets := objets w ++ [o0]; journal := j1 |}, inl e)
  | inr (v, u, t) =>
    let o1 := set_prix_unitaire_texte_amazon t
                (set_prix_unitaire_unite_amazon u
                   (set_prix_unitaire_valeur_amazon v o0)) in
    let j2 := j1 ++ [Appel_calculer_prix_au_kg_direct] in
    let d := calculer_prix_au_kg_direct v u in
    if f_ltb f_zero d then
      ({| objets := objets w ++
                    [set_source_prix_kg (py "Amazon (Direct)")
                       (set_prix_unitaire_kg d o1)];
          journal := j2 |}, inr (length (objets w)))
    else
      let j3 := j2 ++ [Appel_calculer_prix_par_format] in
      match calculer_prix_par_format (prix_total_str_de produit) (titre_de produit) with
      | inl e => ({| objets := objets w ++ [o1]; journal := j3 |}, inl e)
      | inr p =>
        if f_ltb f_zero p then
          ({| objets := objets w ++
                        [set_source_prix_kg (py "Calculé (NxG)")
                           (set_prix_unitaire_kg p o1)];
              journal := j3 |}, inr (length (objets w)))
        else ({| objets := objets w ++ [o1]; journal := j3 |}, inr (length (objets w)))
      end
  end.
Proof.
  unfold _traiter_produit, mbind, alloc, call, lift, mret.
  cbn [objets journal].
  destruct (_extraire_prix_unitaire_amazon produit) as [e | [[v u] t]];
    [ reflexivity | ].
  rewrite !setattr_last. cbn [objets journal].
  destruct (f_ltb f_zero (calculer_prix_au_kg_direct v u)).
  - rewrite !setattr_last. reflexivity.
  - cbn [objets journal].
    destruct (calculer_prix_par_format _ _) as [e | p]; [ reflexivity | ].
    destruct (f_ltb f_zero p); [ | reflexivity ].
    rewrite !setattr_last. reflexivity.
Qed.

(** C1.  Resolution order of [_traiter_produit].  With [(v, u, t)] the
    extractor's output and [direct] the Direct Normalizer's value on it: when
    [direct > 0] the new listing has price [direct] and source
    ["Amazon (Direct)"], and the calls made are the extractor and the Direct
    Normalizer only: the Pack-Size Normalizer is not called.  Otherwise the
    Pack-Size Normalizer is called on the raw price text and the title: a
    value [> 0] becomes the price with source ["Calculé (NxG)"]; any other
    value leaves price [0.0] and source ["N/A"]; an exception it raises ends
    [_traiter_produit] with that exception. *)
Theorem resolution_order :
  forall (produit : Tag) (id : str) (w : world),
  exists v u t,
    _extraire_prix_unitaire_amazon produit = inr (v, u, t) /\
    let direct := calculer_prix_au_kg_direct v u in
    let packed :=
      calculer_prix_par_format (prix_total_str_de produit) (titre_de produit) in
    let w' := fst (_traiter_produit produit id w) in
    let res := snd (_traiter_produit produit id w) in
    (f_ltb f_zero direct = true ->
     exists o,
       res = inr (length (objets w)) /\ objets w' = objets w ++ [o] /\
       prix_unitaire_kg o = direct /\
       source_prix_kg o = py "Amazon (Direct)" /\
       journal w' = journal w ++ [Appel_extraire_prix_unitaire_amazon;
                                  Appel_calculer_prix_au_kg_direct]) /\
    (f_ltb f_zero direct = false ->
     journal w' = journal w ++ [Appel_extraire_prix_unitaire_amazon;
                                Appel_calculer_prix_au_kg_direct;
                                Appel_calculer_prix_par_format]) /\
    (f_ltb f_zero direct = false ->
     forall p, packed = inr p -> f_ltb f_zero p = true ->
     exists o,
       res = inr (length (objets w)) /\ objets w' = objets w ++ [o] /\
       prix_unitaire_kg o = p /\
       source_prix_kg o = py "Calculé (NxG)") /\
    (f_ltb f_zero direct = false ->
     forall p, packed = inr p -> f_ltb f_zero p = false ->
     exists o,
       res = inr (length (objets w)) /\ objets w' = objets w ++ [o] /\
       prix_unitaire_kg o = f_zero /\
       source_prix_kg o = NA) /\
    (f_ltb f_zero direct = false ->
     forall e, packed = inl e -> res = inl e).
Proof.
  intros produit id w.
  destruct (extraire_prix_unitaire_returns produit) as (v & u & t & Hex).
  exists v, u, t. split; [ exact Hex | ].
  cbv zeta. rewrite traiter_produit_run, Hex. cbv zeta.
  destruct (f_ltb f_zero (calculer_prix_au_kg_direct v u)) eqn:Hd;
    [ | destruct (calculer_prix_par_format _ _) as [e | p] eqn:Hp;
        [ | destruct (f_ltb f_zero p) eqn:Hpos ] ];
    cbn [fst snd objets journal]; rewrite <- ?app_assoc; cbn [app];
    repeat split; intros; try discriminate; try congruence;
    try (eexists; repeat split;
         first [ reflexivity
               | cbn [prix_unitaire_kg set_source_prix_kg set_prix_unitaire_kg];
                 congruence ]).
Qed.

(** ** Growth of the store *)

Lemma extends_refl (w : world) : extends w w.
Proof. exists []. now rewrite app_nil_r. Qed.

Lemma extends_trans (w1 w2 w3 : world) :
  extends w1 w2 -> extends w2 w3 -> extends w1 w3.
Proof.
  intros [l1 H1] [l2 H2]. exists (l1 ++ l2). now rewrite H2, H1, app_assoc.
Qed.

Lemma extends_deref (w w' : world) (r : ref) (o : ProduitAmazon) :
  extends w w' -> deref w r = Some o -> deref w' r = Some o.
Proof.
  unfold deref. intros [l H] Hr. rewrite H.
  rewrite nth_error_app1; [ exact Hr | ].
  apply nth_error_Some. congruence.
Qed.

Lemma extends_live (w w' : world) (r : ref) :
  extends w w' -> live w r -> live w' r.
Proof.
  intros He [o Ho]. exists o. eapply extends_deref; eauto.
Qed.

Lemma source_direct_not_NA : py "Amazon (Direct)" <> NA.
Proof. vm_compute. discriminate. Qed.

Lemma source_format_not_NA : py "Calculé (NxG)" <> NA.
Proof. vm_compute. discriminate. Qed.

(** What [_traiter_produit] leaves behind, whether it returns or raises:
    one new object, coherent, built from the block and carrying the
    identifier; older objects are untouched. *)
Lemma traiter_produit_post (produit : Tag) (id : str) (w : world) :
  exists o,
    objets (fst (_traiter_produit produit id w)) = objets w ++ [o] /\
    coherent o /\
    id_produit o = id /\
    titre o = titre_de produit /\
    prix_total_str o = prix_total_str_de produit /\
    (forall r, snd (_traiter_produit produit id w) = inr r ->
               r = length (objets w)).
Proof.
  rewrite traiter_produit_run. cbv zeta.
  destruct (_extraire_prix_unitaire_amazon produit) as [e | [[v u] t]].
  - eexists. repeat split; try reflexivity; try discriminate.
    right. split; reflexivity.
  - destruct (f_ltb f_zero (calculer_prix_au_kg_direct v u)) eqn:Hd;
      [ | destruct (calculer_prix_par_format _ _) as [e | p];
          [ | destruct (f_ltb f_zero p) eqn:Hp ] ];
      eexists; (split; [ reflexivity | ]);
      (split;
       [ first [ left; split; [ assumption
                              | first [ exact source_direct_not_NA
                                      | exact source_format_not_NA ] ]
               | right; split; reflexivity ]
       | repeat split; try reflexivity; cbn [snd]; congruence ]).
Qed.

Lemma Forall_coherent_app (l l' : list ProduitAmazon) :
  Forall coherent l -> Forall coherent l' -> Forall coherent (l ++ l').
Proof. intros. now apply Forall_app. Qed.

(** ** One page *)

Lemma boucle_produits_post (produits : list Tag) :
  forall (i row_num_base : nat) (acc : list ref) (w : world),
  exists w' (news : list (nat * ref)),
    boucle_produits produits i row_num_base acc w
    = (w', inr (acc ++ map snd news)) /\
    extends w w' /\
    (Forall coherent (objets w) -> Forall coherent (objets w')) /\
    Forall (fun kr =>
              (i <= fst kr)%nat /\
              exists o produit,
                deref w' (snd kr) = Some o /\
                nth_error produits (fst kr - i) = Some produit /\
                titre o = titre_de produit /\
                prix_total_str o = prix_total_str_de produit /\
                id_produit o
                = (py "R" ++ str_of_nat (row_num_base + fst kr + 1))%list)
           news.
Proof.
  induction produits as [ | produit suite IH]; intros i base acc w.
  - exists w, []. cbn. rewrite app_nil_r.
    repeat split; auto using extends_refl.
  - cbn [boucle_produits].
    destruct (traiter_produit_post produit
                (py "R" ++ str_of_nat (base + i + 1))%list w)
      as (o & Hobj & Hco & Hid & Hti & Hpr & Hres).
    destruct (_traiter_produit produit _ w) as [w1 [e | r]]; cbn [fst snd] in *.
    + destruct (IH (S i) base acc w1) as (w' & news & Hrun & Hext & Hinv & Hnews).
      exists w', news. rewrite Hrun. repeat split.
      * eapply extends_trans; [ | exact Hext ]. now exists [o].
      * intros Hw. apply Hinv. rewrite Hobj. apply Forall_coherent_app; auto.
      * eapply Forall_impl; [ | exact Hnews ].
        intros [k r] [Hle (o' & p' & H1 & H2 & H3)]; cbn [fst snd] in *.
        split; [ lia | ]. exists o', p'. repeat split; try tauto.
        replace (k - i)%nat with (S (k - S i)) by lia. cbn. tauto.
    + specialize (Hres r eq_refl). subst r.
      destruct (IH (S i) base (acc ++ [length (objets w)]) w1)
        as (w' & news & Hrun & Hext & Hinv & Hnews).
      exists w', ((i, length (objets w)) :: news).
      split; [ etransitivity; [ exact Hrun | ];
               cbn [map snd]; now rewrite <- app_assoc | ].
      repeat split.
      * eapply extends_trans; [ | exact Hext ]. now exists [o].
      * intros Hw. apply Hinv. rewrite Hobj. apply Forall_coherent_app; auto.
      * constructor.
        -- cbn [fst snd]. split; [ lia | ]. exists o, produit.
           repeat split; auto.
           ++ eapply extends_deref; [ exact Hext | ].
              unfold deref. rewrite Hobj. apply nth_error_app_last.
           ++ now rewrite Nat.sub_diag.
        -- eapply Forall_impl; [ | exact Hnews ].
           intros [k r] [Hle (o' & p' & H1 & H2 & H3)]; cbn [fst snd] in *.
           split; [ lia | ]. exists o', p'. repeat split; try tauto.
           replace (k - i)%nat with (S (k - S i)) by lia. cbn. tauto.
Qed.

(** ** [sorted]: permutation, order and stability *)

Section SortKeyed.
Context {A : Type}.
Implicit Types (x y : float * A) (l : list (float * A)).

Lemma insert_perm x l : Permutation (insert x l) (x :: l).
Proof.
  induction l as [ | y l IH]; cbn; [ reflexivity | ].
  destruct (f_ltb (fst y) (fst x)); [ | reflexivity ].
  rewrite IH. apply perm_swap.
Qed.

Lemma sort_keyed_perm l : Permutation (sort_keyed l) l.
Proof.
  induction l as [ | x l IH]; cbn; [ reflexivity | ].
  rewrite insert_perm. now constructor.
Qed.

Lemma insert_sorted x l :
  key_pos x -> Forall key_pos l ->
  StronglySorted key_le l -> StronglySorted key_le (insert x l).
Proof.
  intros Hx Hl Hs. induction Hs as [ | y l Hs IH Hy]; cbn.
  - repeat constructor.
  - inversion Hl as [ | ? ? Hpy Hl']; subst.
    destruct (f_ltb (fst y) (fst x)) eqn:Hlt.
    + constructor; [ now apply IH | ].
      eapply Permutation_Forall; [ symmetry; apply insert_perm | ].
      constructor; [ now apply f_ltb_leb | exact Hy ].
    + assert (Hxy : key_le x y) by (now apply f_pos_total).
      constructor; [ now constructor | ].
      constructor; [ exact Hxy | ].
      rewrite Forall_forall in *. intros z Hz.
      eapply (f_pos_leb_trans (fst x) (fst y) (fst z)); auto.
      * now apply Hl'.
      * now apply Hy.
Qed.

Lemma sort_keyed_sorted l :
  Forall key_pos l -> StronglySorted key_le (sort_keyed l).
Proof.
  induction 1 as [ | x l Hx Hl IH]; cbn; [ constructor | ].
  apply insert_sorted; auto.
  eapply Permutation_Forall; [ symmetry; apply sort_keyed_perm | exact Hl ].
Qed.

(** The elements of a given key keep their order. *)
Lemma insert_stable (k : float) x l :
  key_pos x ->
  filter (fun y => f_eqb (fst y) k) (insert x l)
  = filter (fun y => f_eqb (fst y) k) (x :: l).
Proof.
  intros Hx. induction l as [ | y l IH]; [ reflexivity | ].
  cbn [insert]. destruct (f_ltb (fst y) (fst x)) eqn:Hlt; [ | reflexivity ].
  cbn [filter] in *. rewrite IH.
  destruct (f_eqb (fst x) k) eqn:Hk; [ | reflexivity ].
  apply (f_pos_eqb_eq _ _ Hx) in Hk. subst k.
  now rewrite (f_ltb_eqb _ _ Hlt).
Qed.

Lemma sort_keyed_stable (k : float) l :
  Forall key_pos l ->
  filter (fun y => f_eqb (fst y) k) (sort_keyed l)
  = filter (fun y => f_eqb (fst y) k) l.
Proof.
  induction 1 as [ | x l Hx Hl IH]; [ reflexivity | ].
  cbn [sort_keyed fold_right]. rewrite insert_stable by exact Hx.
  cbn [filter]. fold (sort_keyed l). now rewrite IH.
Qed.
End SortKeyed.

(** A list in ascending order of positive keys is determined by the
    sub-lists of its elements of each key: two sorts that are both stable
    give the same list. *)
Lemma stable_sorted_unique {A} (l1 : list (float * A)) :
  forall l2 : list (float * A),
    Forall key_pos l1 -> Forall key_pos l2 ->
    StronglySorted key_le l1 -> StronglySorted key_le l2 ->
    (forall k, filter (fun y => f_eqb (fst y) k) l1
               = filter (fun y => f_eqb (fst y) k) l2) ->
    l1 = l2.
Proof.
  induction l1 as [ | x l1 IH]; intros l2 Hp1 Hp2 Hs1 Hs2 Hf.
  - destruct l2 as [ | y l2]; [ reflexivity | exfalso ].
    inversion Hp2 as [ | ? ? Hy _]; subst.
    specialize (Hf (fst y)). cbn in Hf.
    rewrite (f_pos_eqb_refl _ Hy) in Hf. discriminate Hf.
  - inversion Hp1 as [ | ? ? Hx Hp1']; subst.
    inversion Hs1 as [ | ? ? Hs1' Hle1]; subst.
    destruct l2 as [ | y l2].
    { specialize (Hf (fst x)). cbn in Hf.
      rewrite (f_pos_eqb_refl _ Hx) in Hf. discriminate Hf. }
    inversion Hp2 as [ | ? ? Hy Hp2']; subst.
    inversion Hs2 as [ | ? ? Hs2' Hle2]; subst.
    assert (Hin_x : In x (y :: l2)).
    { assert (H : In x (filter (fun z => f_eqb (fst z) (fst x)) (y :: l2))).
      { rewrite <- Hf. cbn [filter]. rewrite (f_pos_eqb_refl _ Hx). now left. }
      apply filter_In in H. apply H. }
    assert (Hin_y : In y (x :: l1)).
    { assert (H : In y (filter (fun z => f_eqb (fst z) (fst y)) (x :: l1))).
      { rewrite Hf. cbn [filter]. rewrite (f_pos_eqb_refl _ Hy). now left. }
      apply filter_In in H. apply H. }
    assert (Hkey : fst y = fst x).
    { apply f_pos_leb_antisym; auto.
      - destruct Hin_x as [<- | Hin]; [ now apply f_eqb_leb, f_pos_eqb_refl | ].
        rewrite Forall_forall in Hle2. now apply Hle2.
      - destruct Hin_y as [<- | Hin]; [ now apply f_eqb_leb, f_pos_eqb_refl | ].
        rewrite Forall_forall in Hle1. now apply Hle1. }
    assert (Hxy : x = y).
    { pose proof (Hf (fst x)) as H. cbn [filter] in H.
      rewrite Hkey, (f_pos_eqb_refl _ Hx) in H. now injection H. }
    subst y. f_equal. apply IH; auto.
    intros k. specialize (Hf k). cbn [filter] in Hf.
    destruct (f_eqb (fst x) k); [ now injection Hf | exact Hf ].
Qed.

(** ** The Ranking Filter reads the store and leaves it as it is *)

Lemma filtrer_frame (l : list ref) (w : world) : fst (filtrer l w) = w.
Proof.
  induction l as [ | r l IH]; [ reflexivity | ].
  cbn [filtrer]. unfold mbind, getattr.
  destruct (nth_error (objets w) r); [ | reflexivity ].
  destruct (filtrer l w) as [w' [e | g]]; cbn [fst] in *; now subst.
Qed.

Lemma with_keys_frame (l : list ref) (w : world) : fst (with_keys l w) = w.
Proof.
  induction l as [ | r l IH]; [ reflexivity | ].
  cbn [with_keys]. unfold mbind, getattr.
  destruct (nth_error (objets w) r); [ | reflexivity ].
  destruct (with_keys l w) as [w' [e | g]]; cbn [fst] in *; now subst.
Qed.

Lemma nettoyer_frame (l : list ref) (w : world) :
  fst (nettoyer_et_trier_resultats l w) = w.
Proof.
  unfold nettoyer_et_trier_resultats, sorted_by_prix, mbind.
  pose proof (filtrer_frame l w) as Hf.
  destruct (filtrer l w) as [w1 [e | g]]; cbn [fst] in *; subst; [ reflexivity | ].
  pose proof (with_keys_frame g w) as Hk.
  destruct (with_keys g w) as [w2 [e | ks]]; cbn [fst] in *; now subst.
Qed.

Lemma filtrer_run (l : list ref) (w : world) :
  (forall r, In r l -> live w r) ->
  filtrer l w = (w, inr (filter (prix_positif w) l)).
Proof.
  induction l as [ | r l IH]; intros Hl; [ reflexivity | ].
  cbn [filtrer filter]. unfold mbind at 1, getattr.
  destruct (Hl r (or_introl eq_refl)) as [o Ho].
  unfold prix_positif at 1, prix_of. unfold deref in *. rewrite Ho.
  unfold mbind. rewrite IH by (intros; apply Hl; now right).
  reflexivity.
Qed.

Lemma with_keys_run (l : list ref) (w : world) :
  (forall r, In r l -> live w r) ->
  with_keys l w = (w, inr (map (fun r => (prix_of w r, r)) l)).
Proof.
  induction l as [ | r l IH]; intros Hl; [ reflexivity | ].
  cbn [with_keys map]. unfold mbind at 1, getattr.
  destruct (Hl r (or_introl eq_refl)) as [o Ho].
  unfold prix_of at 1. unfold deref in *. rewrite Ho.
  unfold mbind. rewrite IH by (intros; apply Hl; now right).
  reflexivity.
Qed.

Lemma nettoyer_run (l : list ref) (w : world) :
  (forall r, In r l -> live w r) ->
  nettoyer_et_trier_resultats l w
  = (w, inr (map snd (sort_keyed (map (fun r => (prix_of w r, r))
                                      (filter (prix_positif w) l))))).
Proof.
  intros Hl. unfold nettoyer_et_trier_resultats, sorted_by_prix, mbind.
  rewrite filtrer_run by exact Hl.
  rewrite with_keys_run; [ reflexivity | ].
  intros r Hr. apply filter_In in Hr. now apply Hl.
Qed.

Lemma f_pos_not_eqb_zero (x : float) :
  f_ltb f_zero x = true -> f_eqb x f_zero = false.
Proof.
  intros H. destruct (f_pos_inv x H) as [-> | (m & e & ->)]; reflexivity.
Qed.

Lemma coherent_positif_non_nul (w : world) (r : ref) (o : ProduitAmazon) :
  deref w r = Some o -> coherent o -> prix_positif w r = prix_non_nul w r.
Proof.
  unfold prix_positif, prix_non_nul, prix_of. intros -> [[Hp _] | [Hz _]].
  - now rewrite Hp, (f_pos_not_eqb_zero _ Hp).
  - now rewrite Hz.
Qed.

Lemma StronglySorted_map_snd {A} (key : A -> float) (s : list (float * A)) :
  (forall e, In e s -> fst e = key (snd e)) ->
  StronglySorted key_le s ->
  StronglySorted (fun a b => f_leb (key a) (key b) = true) (map snd s).
Proof.
  intros Hk Hs. induction Hs as [ | e s Hs IH He]; cbn; constructor.
  - apply IH. intros; apply Hk; now right.
  - rewrite Forall_forall in *. intros b Hb.
    apply in_map_iff in Hb. destruct Hb as (e' & <- & He').
    rewrite <- (Hk e (or_introl eq_refl)), <- (Hk e' (or_intror He')).
    now apply He.
Qed.

Lemma filter_map_snd {A} (key : A -> float) (k : float) (s : list (float * A)) :
  (forall e, In e s -> fst e = key (snd e)) ->
  filter (fun a => f_eqb (key a) k) (map snd s)
  = map snd (filter (fun e => f_eqb (fst e) k) s).
Proof.
  induction s as [ | e s IH]; intros Hk; [ reflexivity | ].
  cbn [map filter]. rewrite <- (Hk e (or_introl eq_refl)).
  rewrite IH by (intros; apply Hk; now right).
  now destruct (f_eqb (fst e) k).
Qed.

Lemma map_snd_keyed {A} (key : A -> float) (l : list A) :
  map snd (map (fun a => (key a, a)) l) = l.
Proof. rewrite map_map. cbn. apply map_id. Qed.

Lemma keyed_fst {A} (key : A -> float) (l : list A) (e : float * A) :
  In e (map (fun a => (key a, a)) l) -> fst e = key (snd e).
Proof. intros H. apply in_map_iff in H. now destruct H as (a & <- & _). Qed.

(** The three properties of the ranking, for any list of live references. *)
Lemma nettoyer_sorted_stable (l : list ref) (w : world) :
  (forall r, In r l -> live w r) ->
  exists tries,
    nettoyer_et_trier_resultats l w = (w, inr tries) /\
    Permutation tries (filter (prix_positif w) l) /\
    StronglySorted (prix_le w) tries /\
    (forall k, filter (fun r => f_eqb (prix_of w r) k) tries
               = filter (fun r => f_eqb (prix_of w r) k)
                        (filter (prix_positif w) l)).
Proof.
  intros Hl. eexists. split; [ now apply nettoyer_run | ].
  set (g := filter (prix_positif w) l).
  set (keyed := map (fun r => (prix_of w r, r)) g).
  assert (Hpos : Forall key_pos keyed).
  { apply Forall_forall. intros e He. apply in_map_iff in He.
    destruct He as (r & <- & Hr). apply filter_In in Hr. apply Hr. }
  assert (Hmem : forall e, In e (sort_keyed keyed) -> fst e = prix_of w (snd e)).
  { intros e He. apply (keyed_fst (prix_of w) g).
    eapply Permutation_in; [ apply sort_keyed_perm | exact He ]. }
  repeat split.
  - transitivity (map snd keyed).
    + apply Permutation_map, sort_keyed_perm.
    + unfold keyed. now rewrite map_snd_keyed.
  - apply (StronglySorted_map_snd (prix_of w)); [ exact Hmem | ].
    now apply sort_keyed_sorted.
  - intros k. rewrite (filter_map_snd (prix_of w)) by exact Hmem.
    rewrite sort_keyed_stable by exact Hpos.
    rewrite <- (filter_map_snd (prix_of w)) by (apply keyed_fst).
    unfold keyed. now rewrite map_snd_keyed.
Qed.

Lemma filter_keyed {A} (key : A -> float) (k : float) (l : list A) :
  filter (fun y => f_eqb (fst y) k) (map (fun a => (key a, a)) l)
  = map (fun a => (key a, a)) (filter (fun a => f_eqb (key a) k) l).
Proof.
  induction l as [ | a l IH]; [ reflexivity | ].
  cbn [map filter fst]. rewrite IH. now destruct (f_eqb (key a) k).
Qed.

Lemma StronglySorted_keyed {A} (key : A -> float) (l : list A) :
  StronglySorted (fun a b => f_leb (key a) (key b) = true) l ->
  StronglySorted key_le (map (fun a => (key a, a)) l).
Proof.
  induction 1 as [ | a l Hs IH Ha]; cbn [map]; constructor; auto.
  apply Forall_map. exact Ha.
Qed.

(** The output of the ranking is the only list of the kept listings that is
    in ascending order of price and keeps the arrival order of the listings
    of each price: it does not depend on how [sorted] sorts. *)
Lemma ranking_filter_unique (l : list ref) (w : world) (out : list ref) :
  (forall r, In r l -> live w r) ->
  Permutation out (filter (prix_positif w) l) ->
  StronglySorted (prix_le w) out ->
  (forall k, filter (fun r => f_eqb (prix_of w r) k) out
             = filter (fun r => f_eqb (prix_of w r) k)
                      (filter (prix_positif w) l)) ->
  nettoyer_et_trier_resultats l w = (w, inr out).
Proof.
  intros Hl Hperm Hsort Hstable.
  destruct (nettoyer_sorted_stable l w Hl) as (tries & Hrun & Hp & Hs & Hst).
  rewrite Hrun. do 2 f_equal.
  set (K := map (fun r => (prix_of w r, r))).
  assert (Hpos : forall x, Permutation x (filter (prix_positif w) l) ->
                           Forall key_pos (K x)).
  { intros x Hx. apply Forall_map, Forall_forall. intros r Hr.
    eapply Permutation_in in Hr; [ | exact Hx ].
    apply filter_In in Hr. apply Hr. }
  assert (HK : K tries = K out).
  { apply stable_sorted_unique; auto.
    - now apply StronglySorted_keyed.
    - now apply StronglySorted_keyed.
    - intros k. unfold K. rewrite !filter_keyed. now rewrite Hst, Hstable. }
  rewrite <- (map_snd_keyed (prix_of w) tries), <- (map_snd_keyed (prix_of w) out).
  unfold K in HK. now rewrite HK.
Qed.

(** The output of the ranking holds references of its input only. *)
Lemma ranking_filter_frame_aux (l : list ref) (w : world) :
  (forall r, In r l -> live w r) ->
  exists tries,
    nettoyer_et_trier_resultats l w = (w, inr tries) /\
    (forall r, In r tries -> In r l).
Proof.
  intros Hl.
  destruct (nettoyer_sorted_stable l w Hl) as (tries & H1 & H2 & _).
  exists tries. split; [ exact H1 | ].
  intros r Hr. eapply proj1, filter_In, Permutation_in; eauto.
Qed.

(** C3.  On listings that are resolved (coherent), the Ranking Filter
    returns the listings whose price is not [0]: a permutation of them,
    in ascending order of price, in which the listings of any given price
    keep their arrival order.  On prices [0.0, 12.5, 0.0, 8.0, 8.0] it
    returns the fourth, the fifth and the second listing, of prices
    [8.0, 8.0, 12.5]. *)
Theorem ranking_filter_contract :
  (forall (w : world) (resultats : list ref),
      (forall r, In r resultats -> exists o, deref w r = Some o /\ coherent o) ->
      exists tries,
        nettoyer_et_trier_resultats resultats w = (w, inr tries) /\
        Permutation tries (filter (prix_non_nul w) resultats) /\
        StronglySorted (prix_le w) tries /\
        (forall k, filter (fun r => f_eqb (prix_of w r) k) tries
                   = filter (fun r => f_eqb (prix_of w r) k)
                            (filter (prix_non_nul w) resultats))) /\
  map (prix_of world_exemple) [0; 1; 2; 3; 4]%nat
  = [fl 0; fl 12.5; fl 0; fl 8; fl 8] /\
  nettoyer_et_trier_resultats [0; 1; 2; 3; 4]%nat world_exemple
  = (world_exemple, inr [3; 4; 1]%nat) /\
  map (prix_of world_exemple) [3; 4; 1]%nat = [fl 8; fl 8; fl 12.5].
Proof.
  split; [ | repeat split; vm_compute; reflexivity ].
  intros w resultats Hres.
  assert (Hlive : forall r, In r resultats -> live w r).
  { intros r Hr. destruct (Hres r Hr) as (o & Ho & _). now exists o. }
  assert (Hfil : filter (prix_positif w) resultats
                 = filter (prix_non_nul w) resultats).
  { apply filter_ext_in. intros r Hr. destruct (Hres r Hr) as (o & Ho & Hc).
    eapply coherent_positif_non_nul; eauto. }
  destruct (nettoyer_sorted_stable resultats w Hlive) as (tries & H1 & H2 & H3 & H4).
  exists tries. rewrite <- Hfil. auto.
Qed.

(** C10.  The Ranking Filter leaves the store as it found it: no listing is
    modified, created or dropped from it, whatever the list.  On live
    references its output holds references of the input, exactly those of
    the listings with a price [> 0], each as many times as the input. *)
Theorem ranking_filter_frame :
  forall (w : world) (resultats : list ref),
    fst (nettoyer_et_trier_resultats resultats w) = w /\
    ((forall r, In r resultats -> live w r) ->
     exists tries,
       snd (nettoyer_et_trier_resultats resultats w) = inr tries /\
       Permutation tries (filter (prix_positif w) resultats) /\
       (forall r, In r tries <-> In r resultats /\ prix_positif w r = true)).
Proof.
  intros w resultats. split; [ apply nettoyer_frame | ].
  intros Hlive.
  destruct (nettoyer_sorted_stable resultats w Hlive) as (tries & H1 & H2 & _).
  exists tries. rewrite H1. repeat split; auto.
  - eapply proj1, filter_In, Permutation_in; eauto.
  - eapply proj2, filter_In, Permutation_in; eauto.
  - intros [Hin Hp]. eapply Permutation_in; [ symmetry; exact H2 | ].
    now apply filter_In.
Qed.

(** ** The pages *)

Lemma extraire_donnees_page_post (produits : list Tag) (row_num_base : nat)
    (w : world) :
  exists w' (news : list (nat * ref)),
    extraire_donnees_page produits row_num_base w = (w', inr (map snd news)) /\
    extends w w' /\
    (Forall coherent (objets w) -> Forall coherent (objets w')) /\
    Forall (fun kr => collected_from w' produits row_num_base (fst kr) (snd kr))
           news.
Proof.
  destruct (boucle_produits_post produits 0 row_num_base [] w)
    as (w' & news & Hrun & Hext & Hinv & Hnews).
  exists w', news. repeat split; auto.
  eapply Forall_impl; [ | exact Hnews ].
  intros [k r] [_ (o & p & H1 & H2 & H3 & H4 & H5)]; cbn [fst snd] in *.
  exists o, p. rewrite Nat.sub_0_r in H2. rewrite <- Nat.add_assoc in H5.
  repeat split; assumption.
Qed.

Lemma collected_from_extends (w w' : world) (produits : list Tag)
    (offset k : nat) (r : ref) :
  extends w w' ->
  collected_from w produits offset k r -> collected_from w' produits offset k r.
Proof.
  intros He (o & p & H1 & H2). exists o, p. split; [ | exact H2 ].
  eapply extends_deref; eauto.
Qed.

Lemma boucle_pages_post (web : nat -> result (list Tag)) (page_nums : list nat) :
  forall (acc : list ref) (current_row : nat) (w : world),
  exists w' (pages : list (list (nat * ref))),
    boucle_pages web page_nums acc current_row w
    = (w', inr (acc ++ refs_of pages)) /\
    extends w w' /\
    (Forall coherent (objets w) -> Forall coherent (objets w')) /\
    (length pages <= length page_nums)%nat /\
    forall p page,
      nth_error pages p = Some page ->
      exists page_num produits,
        nth_error page_nums p = Some page_num /\
        web page_num = inr produits /\
        Forall (fun kr =>
                  collected_from w' produits
                    (current_row + length (refs_of (firstn p pages)))
                    (fst kr) (snd kr)) page.
Proof.
  induction page_nums as [ | page_num suite IH]; intros acc current_row w.
  - exists w, []. cbn. rewrite app_nil_r.
    repeat split; auto using extends_refl.
    intros [ | p] page H; discriminate H.
  - cbn [boucle_pages]. destruct (web page_num) as [e | produits] eqn:Hweb.
    + exists w, []. cbn. rewrite app_nil_r.
      repeat split; auto using extends_refl; try lia.
      intros [ | p] page H; discriminate H.
    + destruct (extraire_donnees_page_post produits current_row w)
        as (w1 & news & Hrun & Hext1 & Hinv1 & Hnews).
      rewrite Hrun.
      destruct (IH (acc ++ map snd news)
                   (current_row + length (map snd news))%nat w1)
        as (w' & pages & Hloop & Hext & Hinv & Hlen & Hpages).
      exists w', (news :: pages). repeat split.
      * etransitivity; [ exact Hloop | ].
        unfold refs_of. cbn [map concat]. now rewrite <- app_assoc.
      * eapply extends_trans; eauto.
      * auto.
      * cbn [length]. lia.
      * intros [ | p] page Hp; cbn [nth_error] in Hp.
        -- injection Hp as <-. exists page_num, produits.
           repeat split; auto.
           eapply Forall_impl; [ | exact Hnews ].
           intros [k r] H. cbn [firstn refs_of map concat length].
           rewrite Nat.add_0_r. eapply collected_from_extends; eauto.
        -- destruct (Hpages p page Hp) as (pn & prods & H1 & H2 & H3).
           exists pn, prods. repeat split; auto.
           eapply Forall_impl; [ | exact H3 ].
           intros [k r] H. cbn [fst snd] in *.
           unfold refs_of in *. cbn [firstn map concat].
           rewrite length_app, Nat.add_assoc. exact H.
Qed.

Lemma nth_error_seq (start len p n : nat) :
  nth_error (seq start len) p = Some n -> n = (start + p)%nat.
Proof.
  revert start p. induction len as [ | len IH]; intros start [ | p] H;
    cbn in H; try discriminate.
  - injection H as <-. lia.
  - apply IH in H. lia.
Qed.

(** What [main] returns, and the store it leaves. *)
Lemma main_post (web : nat -> result (list Tag)) (w : world) :
  exists w' (pages : list (list (nat * ref))) (tries : list ref),
    main web w = (w', inr (refs_of pages, tries)) /\
    extends w w' /\
    (Forall coherent (objets w) -> Forall coherent (objets w')) /\
    (length pages <= MAX_PAGES)%nat /\
    Forall (live w') (refs_of pages) /\
    nettoyer_et_trier_resultats (refs_of pages) w' = (w', inr tries) /\
    forall p page,
      nth_error pages p = Some page ->
      exists produits,
        web (1 + p)%nat = inr produits /\
        Forall (fun kr =>
                  collected_from w' produits
                    (length (refs_of (firstn p pages)))
                    (fst kr) (snd kr)) page.
Proof.
  destruct (boucle_pages_post web (seq 1 MAX_PAGES) [] 0%nat w)
    as (w' & pages & Hloop & Hext & Hinv & Hlen & Hpages).
  cbn [app] in Hloop. rewrite length_seq in Hlen.
  assert (Hlive : Forall (live w') (refs_of pages)).
  { apply Forall_forall. intros r Hr. unfold refs_of in Hr.
    apply in_concat in Hr. destruct Hr as (l & Hl & Hr).
    apply in_map_iff in Hl. destruct Hl as (page & <- & Hpage).
    apply in_map_iff in Hr. destruct Hr as ([k r'] & <- & Hkr).
    apply In_nth_error in Hpage. destruct Hpage as [p Hp].
    destruct (Hpages p page Hp) as (pn & prods & _ & _ & Hall).
    rewrite Forall_forall in Hall.
    destruct (Hall _ Hkr) as (o & _ & Ho & _). now exists o. }
  destruct (nettoyer_sorted_stable (refs_of pages) w') as (tries & Htri & _).
  { now apply Forall_forall. }
  exists w', pages, tries. repeat split; auto.
  - unfold main, mbind. rewrite Hloop, Htri. reflexivity.
  - intros p page Hp.
    destruct (Hpages p page Hp) as (pn & prods & H1 & H2 & H3).
    apply nth_error_seq in H1. subst pn. exists prods. split; auto.
Qed.

(** C2.  After resolution a listing is in exactly one of two states, price
    [> 0] with a source other than ["N/A"], or price [0.0] with source
    ["N/A"], and it stays so: the two states exclude each other; the
    listing [_traiter_produit] returns is in one of them; and every step of
    the run ([_traiter_produit] on a further block, a page, the Ranking
    Filter, the whole of [main]) leaves every listing of the store in one of
    them.  In particular every listing that [main] collects or ranks is in
    one of them at the end of the run. *)
Theorem listing_coherent_lifecycle :
  (forall o, ~ (resolved_state o /\ unresolved_state o)) /\
  (forall produit id w r,
      snd (_traiter_produit produit id w) = inr r ->
      exists o, deref (fst (_traiter_produit produit id w)) r = Some o /\
                coherent o) /\
  (forall produit id w,
      Forall coherent (objets w) ->
      Forall coherent (objets (fst (_traiter_produit produit id w)))) /\
  (forall produits row_num_base w,
      Forall coherent (objets w) ->
      Forall coherent (objets (fst (extraire_donnees_page produits row_num_base w)))) /\
  (forall resultats w,
      Forall coherent (objets w) ->
      Forall coherent (objets (fst (nettoyer_et_trier_resultats resultats w)))) /\
  (forall web w,
      Forall coherent (objets w) ->
      Forall coherent (objets (fst (main web w)))) /\
  (forall web,
      exists w' total tries,
        main web empty_world = (w', inr (total, tries)) /\
        forall r, In r total \/ In r tries ->
                  exists o, deref w' r = Some o /\ coherent o).
Proof.
  split; [ | split; [ | split; [ | split; [ | split; [ | split ] ] ] ] ].
  - intros o [[Hp _] [Hz _]]. rewrite Hz in Hp. discriminate Hp.
  - intros produit id w r Hr.
    destruct (traiter_produit_post produit id w) as (o & Hobj & Hco & _ & _ & _ & Hres).
    exists o. split; [ | exact Hco ].
    rewrite (Hres r Hr). unfold deref. rewrite Hobj. apply nth_error_app_last.
  - intros produit id w Hw.
    destruct (traiter_produit_post produit id w) as (o & Hobj & Hco & _).
    rewrite Hobj. apply Forall_coherent_app; auto.
  - intros produits base w Hw.
    destruct (extraire_donnees_page_post produits base w) as (w' & news & Hrun & _ & Hinv & _).
    rewrite Hrun. now apply Hinv.
  - intros resultats w Hw. now rewrite nettoyer_frame.
  - intros web w Hw.
    destruct (main_post web w) as (w' & pages & tries & Hrun & _ & Hinv & _).
    rewrite Hrun. now apply Hinv.
  - intros web.
    destruct (main_post web empty_world)
      as (w' & pages & tries & Hrun & _ & Hinv & _ & Hlive & Htri & _).
    exists w', (refs_of pages), tries. split; [ exact Hrun | ].
    assert (Hall : Forall coherent (objets w')) by (apply Hinv; constructor).
    assert (Hin : forall r, In r (refs_of pages) ->
                            exists o, deref w' r = Some o /\ coherent o).
    { intros r Hr. rewrite Forall_forall in Hlive.
      destruct (Hlive r Hr) as [o Ho]. exists o. split; [ exact Ho | ].
      rewrite Forall_forall in Hall. apply Hall.
      eapply nth_error_In. exact Ho. }
    intros r [Hr | Hr]; [ now apply Hin | ].
    apply Hin.
    destruct (ranking_filter_frame_aux (refs_of pages) w') as (t' & Ht' & Hsub).
    { now apply Forall_forall. }
    rewrite Htri in Ht'. injection Ht' as <-. now apply Hsub.
Qed.

(** C9.  Identifiers in a run of [main].  The collected listings come page
    by page ([pages], one entry per page that loaded, each listing with the
    position [k], counted from 0, of its block in the page).  A listing of
    page [1 + p] built from block [k] carries, in the store [main] leaves,
    the identifier ["R"] followed by the number of listings collected from
    the earlier pages plus [k + 1].  The store [main] leaves is the one
    after the later pages and the ranking, so the identifier given at
    extraction is the one the listing still has; the ranked listings are
    among the collected ones.  On [web_exemple] the three listings are
    ["R1"], ["R2"], ["R3"], ranked ["R3"], ["R2"]. *)
Theorem identifiers_by_page :
  (forall (web : nat -> result (list Tag)) (w : world),
      exists w' (pages : list (list (nat * ref))) (tries : list ref),
        main web w = (w', inr (refs_of pages, tries)) /\
        (length pages <= MAX_PAGES)%nat /\
        (forall p page,
            nth_error pages p = Some page ->
            exists produits,
              web (1 + p)%nat = inr produits /\
              Forall (fun kr =>
                        collected_from w' produits
                          (length (refs_of (firstn p pages)))
                          (fst kr) (snd kr)) page) /\
        (forall r, In r tries -> In r (refs_of pages))) /\
  (let '(w', res) := main web_exemple empty_world in
   res = inr ([0; 1; 2]%nat, [2; 1]%nat) /\
   ids_of w' [0; 1; 2]%nat = [Some (py "R1"); Some (py "R2"); Some (py "R3")]).
Proof.
  split; [ | vm_compute; split; reflexivity ].
  intros web w.
  destruct (main_post web w)
    as (w' & pages & tries & Hrun & _ & _ & Hlen & Hlive & Htri & Hpages).
  exists w', pages, tries. repeat split; auto.
  intros r Hr.
  destruct (ranking_filter_frame_aux (refs_of pages) w') as (t' & Ht' & Hsub).
  { now apply Forall_forall. }
  rewrite Htri in Ht'. injection Ht' as <-. now apply Hsub.
Qed.

(** ** End to end *)

(** The three listings of [web_exemple]: the one with neither annotation
    nor pack size is dropped, the one with a declared price comes first at
    20.50 from ["Amazon (Direct)"], the one with pack size [10x50g] at 15,00
    comes second at 30.00 from ["Calculé (NxG)"]. *)
Example end_to_end :
  let '(w', res) := main web_exemple empty_world in
  res = inr ([0; 1; 2]%nat, [2; 1]%nat) /\
  map (prix_of w') [2; 1]%nat = [fl 20.5; fl 30] /\
  map (fun r => option_map source_prix_kg (deref w' r)) [2; 1]%nat
  = [Some (py "Amazon (Direct)"); Some (py "Calculé (NxG)")] /\
  journal w'
  = [Appel_extraire_prix_unitaire_amazon; Appel_calculer_prix_au_kg_direct;
     Appel_calculer_prix_par_format;
     Appel_extraire_prix_unitaire_amazon; Appel_calculer_prix_au_kg_direct;
     Appel_calculer_prix_par_format;
     Appel_extraire_prix_unitaire_amazon; Appel_calculer_prix_au_kg_direct].
Proof. vm_compute. repeat split. Qed.

(** ** The Pack-Size Normalizer *)

(** [int] on a [str] raises nothing but [ValueError]. *)
Lemma int_of_str_raises (s : str) (e : exception) :
  int_of_str s = inl e -> e = ValueError.
Proof.
  unfold int_of_str, raise, ret.
  repeat match goal with
         | |- context [match ?x with _ => _ end] => destruct x
         end; congruence.
Qed.

(** What [calculer_prix_par_format] does, by cases: the parsed total price
    [<= 0] gives [0.0]; no match in the title gives [0.0]; with a match, a
    group [int] rejects gives [0.0]; with unit count [n1] and grams [n2],
    a total mass [n1 * n2 / 1000.0] that is not [> 0] gives [0.0], and one
    that is gives total price divided by it; a product [n1 * n2] too large
    for a float raises [OverflowError]. *)
Lemma calculer_prix_par_format_cases (prix_total_str titre : str) :
  exists prix_total,
    _nettoyer_prix_total prix_total_str = inr prix_total /\
    let res := calculer_prix_par_format prix_total_str titre in
    (f_leb prix_total f_zero = true -> res = inr f_zero) /\
    (Re.search re_format titre = None -> res = inr f_zero) /\
    (f_leb prix_total f_zero = false ->
     forall m, Re.search re_format titre = Some m ->
       ((exists e, int_of_str (Re.group m 1) = inl e) -> res = inr f_zero) /\
       (forall n1, int_of_str (Re.group m 1) = inr n1 ->
          ((exists e, int_of_str (Re.group m 2) = inl e) -> res = inr f_zero) /\
          (forall n2, int_of_str (Re.group m 2) = inr n2 ->
             (float_of_int (n1 * n2) = inl OverflowError ->
              res = inl OverflowError) /\
             (forall masse, float_of_int (n1 * n2) = inr masse ->
                let poids_total_kg := SFdiv prec emax masse (fl 1000) in
                (f_ltb f_zero poids_total_kg = false -> res = inr f_zero) /\
                (f_ltb f_zero poids_total_kg = true ->
                 res = inr (SFdiv prec emax prix_total poids_total_kg)))))).
Proof.
  destruct (nettoyer_prix_total_returns prix_total_str) as [prix_total Hp].
  exists prix_total. split; [ exact Hp | ]. cbv zeta.
  unfold calculer_prix_par_format. rewrite Hp. cbn [rbind].
  destruct (f_leb prix_total f_zero) eqn:Hle.
  { repeat split; intros; try reflexivity; discriminate. }
  split; [ discriminate | ].
  destruct (Re.search re_format titre) as [m | ];
    [ | split; [ reflexivity | discriminate ] ].
  split; [ discriminate | ].
  intros _ m' Hm. injection Hm as <-.
  destruct (int_of_str (Re.group m 1)) as [e1 | n1] eqn:H1.
  { rewrite (int_of_str_raises _ _ H1).
    split; [ reflexivity | discriminate ]. }
  split; [ intros [e He]; discriminate He | ].
  intros n1' Hn. injection Hn as <-. cbn [rbind].
  destruct (int_of_str (Re.group m 2)) as [e2 | n2] eqn:H2.
  { rewrite (int_of_str_raises _ _ H2).
    split; [ reflexivity | discriminate ]. }
  split; [ intros [e He]; discriminate He | ].
  intros n2' Hn. injection Hn as <-. cbn [rbind].
  destruct (float_of_int (n1 * n2)) as [e | masse] eqn:Hm.
  { split; [ | discriminate ]. intros He. injection He as ->. reflexivity. }
  split; [ discriminate | ].
  intros masse' Hn. injection Hn as <-.
  change (fl 1000) with (S754_finite false 8796093022208000 (-43)).
  unfold f_truediv, ret, raise. cbn [rbind].
  remember (SFdiv prec emax masse (S754_finite false 8796093022208000 (-43)))
    as kg eqn:Hkg.
  destruct (f_ltb f_zero kg) eqn:Hpos.
  - split; [ discriminate | ]. intros _.
    destruct (f_pos_inv kg Hpos) as [-> | (mk & ek & ->)]; reflexivity.
  - split; [ reflexivity | discriminate ].
Qed.

(** The overflow of the Pack-Size Normalizer, and the cases of its contract
    on the examples of the specification. *)
Example calculer_prix_par_format_exemples :
  calculer_prix_par_format (py "19,99 €") (py "Protein Bar 12x64g Pack")
  = inr (SFdiv prec emax (fl 19.99) (fl 0.768)) /\
  calculer_prix_par_format (py "19,99 €") (py "Protein Bar 12x64g Pack")
  = inr (fl 26.028645833333332) /\
  calculer_prix_par_format (py "19,99 €") (py "10 X 40 G") = inr (fl 49.974999999999994) /\
  calculer_prix_par_format (py "19,99 €") (py "Protein Bar") = inr (fl 0) /\
  calculer_prix_par_format (py "19,99 €") (py "Protein Bar 0x64g") = inr (fl 0) /\
  calculer_prix_par_format (py "gratuit") (py "Protein Bar 12x64g") = inr (fl 0) /\
  calculer_prix_par_format (py "-5 €") (py "Protein Bar 12x64g") = inr (fl 0).
Proof. repeat split; vm_compute; reflexivity. Qed.

(** C4.  [calculer_prix_par_format] lets an exception through: on the total
    price ["19,99 €"] and a title whose pack pattern is [10^309 x 1 g], the
    product of the two integers is too large for the float division and
    [OverflowError], which the handler does not list, reaches the caller;
    [_traiter_produit] ends with it and the page loop drops the listing. *)
Theorem calculer_prix_par_format_overflow :
  calculer_prix_par_format (py "19,99 €") titre_debordement = inl OverflowError /\
  snd (_traiter_produit bloc_debordement (py "R1") empty_world) = inl OverflowError /\
  snd (extraire_donnees_page [bloc_debordement] 0 empty_world) = inr [].
Proof. repeat split; vm_compute; reflexivity. Qed.

(** ** Reading a decimal numeral *)

Lemma digit_cases (c : codepoint) :
  is_ascii_digit c = true ->
  In c [48; 49; 50; 51; 52; 53; 54; 55; 56; 57]%N.
Proof.
  unfold is_ascii_digit. intros H. apply andb_true_iff in H.
  destruct H as [H1 H2]. apply N.leb_le in H1. apply N.leb_le in H2.
  cbn. lia.
Qed.

(** A property of the ten digits, checked on each. *)
Ltac by_digit c H :=
  let Hc := fresh in
  pose proof (digit_cases c H) as Hc; cbn in Hc;
  repeat (destruct Hc as [<- | Hc]; [ vm_compute; try reflexivity; try discriminate | ]);
  try contradiction.

Lemma digit_not_space (c : codepoint) :
  is_ascii_digit c = true -> is_space c = false.
Proof. intros H. by_digit c H. Qed.

Lemma digit_not_c_space (c : codepoint) :
  is_ascii_digit c = true -> is_c_space c = false.
Proof. intros H. by_digit c H. Qed.

Lemma digit_to_ascii (c : codepoint) :
  is_ascii_digit c = true -> to_ascii c = c.
Proof. intros H. by_digit c H. Qed.

Lemma digit_not_underscore (c : codepoint) :
  is_ascii_digit c = true -> (c =? 95)%N = false.
Proof. intros H. by_digit c H. Qed.

Lemma digit_not_sign (c : codepoint) :
  is_ascii_digit c = true -> (c =? 45)%N = false /\ (c =? 43)%N = false.
Proof. intros H. by_digit c H; split; reflexivity. Qed.

Lemma scan_digits_app (d rest : str) :
  all_digits d ->
  match rest with [] => True | c :: _ => is_ascii_digit c = false end ->
  scan_digits (d ++ rest) = (d, rest).
Proof.
  intros Hd Hrest. induction Hd as [ | c d Hc Hd IH]; cbn.
  - destruct rest as [ | c r]; [ reflexivity | ]. cbn. now rewrite Hrest.
  - now rewrite Hc, IH.
Qed.

Lemma Z_of_digits_acc (d : str) (acc : Z) :
  fold_left (fun a c => 10 * a + (Z.of_N c - 48)) d acc
  = acc * 10 ^ Z.of_nat (length d) + Z_of_digits d.
Proof.
  unfold Z_of_digits. revert acc.
  induction d as [ | c d IH]; intros acc.
  - cbn. lia.
  - cbn [fold_left length]. rewrite IH, (IH (10 * 0 + (Z.of_N c - 48))).
    rewrite Nat2Z.inj_succ, Z.pow_succ_r by lia. ring.
Qed.

Lemma Z_of_digits_app (a c : str) :
  Z_of_digits (a ++ c)
  = Z_of_digits a * 10 ^ Z.of_nat (length c) + Z_of_digits c.
Proof.
  unfold Z_of_digits at 1. rewrite fold_left_app.
  rewrite Z_of_digits_acc. reflexivity.
Qed.

(** A numeral [a.c] reads as the integer [ac] scaled by [10 ^ -|c|]. *)
Lemma parse_decimal_fixed (a c : str) :
  all_digits a -> all_digits c -> a <> [] ->
  parse_decimal (a ++ chr "." :: c)
  = Some (Z_of_digits (a ++ c), - Z.of_nat (length c)).
Proof.
  intros Ha Hc Hne. unfold parse_decimal.
  rewrite (scan_digits_app a (chr "." :: c) Ha) by reflexivity.
  change ((chr "." =? 46)%N) with true. cbv iota.
  rewrite <- (app_nil_r c) at 1.
  rewrite (scan_digits_app c [] Hc) by exact I.
  destruct a as [ | x a]; [ congruence | ]. reflexivity.
Qed.

Lemma drop_underscores_none (s : str) :
  forall prev, (prev =? 95)%N = false ->
  Forall (fun c => (c =? 95)%N = false) s ->
  drop_underscores prev s = Some s.
Proof.
  induction s as [ | c s IH]; intros prev Hp Hs; cbn.
  - now rewrite Hp.
  - inversion Hs as [ | ? ? Hc Hs']; subst.
    rewrite Hc, Hp. cbn. now rewrite IH.
Qed.

Lemma lstrip_head (c : codepoint) (s : str) :
  is_space c = false -> lstrip (c :: s) = c :: s.
Proof. intros H. cbn. now rewrite H. Qed.

Lemma strip_ends (c1 c2 : codepoint) (s : str) :
  is_space c1 = false -> is_space c2 = false ->
  strip (c1 :: s ++ [c2]) = c1 :: s ++ [c2].
Proof.
  intros H1 H2. unfold strip, rstrip. rewrite lstrip_head by exact H1.
  change (c1 :: s ++ [c2]) with ((c1 :: s) ++ [c2]).
  rewrite rev_app_distr. cbn [rev app]. rewrite lstrip_head by exact H2.
  change (c2 :: rev s ++ [c1]) with ([c2] ++ rev (c1 :: s)).
  rewrite rev_app_distr, rev_involutive. reflexivity.
Qed.

Lemma c_strip_ends (c1 c2 : codepoint) (s : str) :
  is_c_space c1 = false -> is_c_space c2 = false ->
  c_strip (c1 :: s ++ [c2]) = c1 :: s ++ [c2].
Proof.
  intros H1 H2. unfold c_strip. cbn [c_lstrip]. rewrite H1.
  change (c1 :: s ++ [c2]) with ((c1 :: s) ++ [c2]).
  rewrite rev_app_distr. cbn [rev app c_lstrip]. rewrite H2.
  change (c2 :: rev s ++ [c1]) with ([c2] ++ rev (c1 :: s)).
  rewrite rev_app_distr, rev_involutive. reflexivity.
Qed.

(** ** Normalisation of a price text *)

Local Abbreviation norm s :=
  (replace (chr ",") (py ".")
     (replace (chr " ") [] (replace 160%N [] (replace (chr "€") [] s)))).

Lemma replace_app (old : codepoint) (new a b : str) :
  replace old new (a ++ b) = replace old new a ++ replace old new b.
Proof.
  induction a as [ | c a IH]; [ reflexivity | ].
  cbn. rewrite IH. destruct (c =? old)%N; [ now rewrite app_assoc | reflexivity ].
Qed.

Lemma norm_app (a b : str) : norm (a ++ b) = norm a ++ norm b.
Proof. now rewrite !replace_app. Qed.

Lemma norm_cons (c : codepoint) (s : str) : norm (c :: s) = norm [c] ++ norm s.
Proof. change (c :: s) with ([c] ++ s). apply norm_app. Qed.

Lemma norm_digit (c : codepoint) : is_ascii_digit c = true -> norm [c] = [c].
Proof. intros H. by_digit c H. Qed.

Lemma norm_digits (s : str) : all_digits s -> norm s = s.
Proof.
  induction 1 as [ | c s Hc Hs IH]; [ reflexivity | ].
  rewrite norm_cons, IH, norm_digit by exact Hc. reflexivity.
Qed.

Lemma norm_amount (a : str) :
  Forall (fun c => is_ascii_digit c = true \/ c = 32%N \/ c = 160%N) a ->
  norm a = digits_only a.
Proof.
  induction 1 as [ | c s Hc Hs IH]; [ reflexivity | ].
  rewrite norm_cons, IH. unfold digits_only. cbn [filter].
  destruct Hc as [Hc | [-> | ->]].
  - rewrite norm_digit, Hc by exact Hc. reflexivity.
  - reflexivity.
  - reflexivity.
Qed.

Lemma norm_tail (t : str) : locale_tail t -> norm t = [].
Proof.
  induction 1 as [ | c s Hc Hs IH]; [ reflexivity | ].
  rewrite norm_cons, IH. destruct Hc as [-> | [-> | ->]]; reflexivity.
Qed.

Lemma digits_only_all_digits (a : str) : all_digits (digits_only a).
Proof.
  apply Forall_forall. intros c Hc. apply filter_In in Hc. apply Hc.
Qed.

(** The text of a price in the locale's format, normalised. *)
Lemma norm_locale (amount cents tail : str) :
  locale_amount amount -> all_digits cents -> locale_tail tail ->
  norm (amount ++ chr "," :: cents ++ tail)
  = digits_only amount ++ chr "." :: cents.
Proof.
  intros [_ Ha] Hc Ht.
  rewrite norm_app, norm_cons, norm_app.
  rewrite (norm_amount _ Ha), (norm_digits _ Hc), (norm_tail _ Ht).
  now rewrite app_nil_r.
Qed.

(** Such a text starts with a digit and ends with a digit or the point. *)
Lemma fixed_text_ends (a c : str) :
  all_digits a -> all_digits c -> a <> [] ->
  exists c1 s c2,
    a ++ chr "." :: c = c1 :: s ++ [c2] /\
    is_ascii_digit c1 = true /\
    (is_ascii_digit c2 = true \/ c2 = chr ".").
Proof.
  intros Ha Hc Hne. destruct a as [ | c1 a]; [ congruence | ].
  inversion Ha as [ | ? ? H1 Ha']; subst.
  destruct (exists_last (l := chr "." :: c)) as (s & c2 & Hs); [ discriminate | ].
  exists c1, (a ++ s), c2. repeat split; auto.
  - cbn [app]. rewrite Hs. now rewrite app_assoc.
  - assert (Hin : In c2 (chr "." :: c)).
    { rewrite Hs. apply in_or_app. right. now left. }
    destruct Hin as [<- | Hin]; [ now right | left ].
    unfold all_digits in Hc. rewrite Forall_forall in Hc. now apply Hc.
Qed.

Lemma fixed_char_facts (c : codepoint) :
  is_ascii_digit c = true \/ c = chr "." ->
  is_space c = false /\ is_c_space c = false /\ to_ascii c = c /\
  (c =? 95)%N = false.
Proof.
  intros [H | ->]; [ | repeat split ].
  repeat split; auto using digit_not_space, digit_not_c_space, digit_to_ascii,
    digit_not_underscore.
Qed.

(** [float] on a numeral [a.c]. *)
Lemma float_of_str_fixed (a c : str) :
  all_digits a -> all_digits c -> a <> [] ->
  float_of_str (a ++ chr "." :: c)
  = inr (float_of_decimal false (Z_of_digits (a ++ c)) (- Z.of_nat (length c))).
Proof.
  intros Ha Hc Hne.
  assert (Hall : Forall (fun x => is_ascii_digit x = true \/ x = chr ".")
                        (a ++ chr "." :: c)).
  { apply Forall_app. split.
    - eapply Forall_impl; [ | exact Ha ]. now left.
    - constructor; [ now right | ].
      eapply Forall_impl; [ | exact Hc ]. now left. }
  unfold float_of_str.
  assert (Hmap : map to_ascii (a ++ chr "." :: c) = a ++ chr "." :: c).
  { rewrite <- (map_id (a ++ chr "." :: c)) at 2. apply map_ext_in.
    intros x Hx. rewrite Forall_forall in Hall.
    apply (fixed_char_facts x (Hall x Hx)). }
  rewrite Hmap.
  destruct (fixed_text_ends a c Ha Hc Hne) as (c1 & s & c2 & Heq & H1 & H2).
  rewrite Heq at 1.
  rewrite c_strip_ends;
    [ | apply digit_not_c_space, H1 | apply (fixed_char_facts c2 H2) ].
  rewrite <- Heq.
  rewrite drop_underscores_none; [ | reflexivity | ].
  2:{ eapply Forall_impl; [ | exact Hall ]. intros x Hx.
      apply (fixed_char_facts x Hx). }
  unfold parse_float_literal.
  assert (Hsign : parse_sign (a ++ chr "." :: c) = (false, a ++ chr "." :: c)).
  { rewrite Heq. cbn [parse_sign].
    destruct (digit_not_sign c1 H1) as [-> ->]. reflexivity. }
  rewrite Hsign, (parse_decimal_fixed a c Ha Hc Hne). reflexivity.
Qed.

(** [_nettoyer_prix_total] on a price in the locale's format. *)
Lemma nettoyer_prix_total_locale (amount cents tail : str) :
  locale_amount amount -> all_digits cents -> locale_tail tail ->
  _nettoyer_prix_total (amount ++ chr "," :: cents ++ tail)
  = inr (float_of_decimal false
           (Z_of_digits (digits_only amount) * 10 ^ Z.of_nat (length cents)
            + Z_of_digits cents)
           (- Z.of_nat (length cents))).
Proof.
  intros Ha Hc Ht.
  pose proof Ha as [(d & r & -> & Hd) Hall].
  assert (Hne : digits_only (d :: r) <> []).
  { unfold digits_only. cbn [filter]. rewrite Hd. discriminate. }
  unfold _nettoyer_prix_total.
  assert (H1 : str_eqb ((d :: r) ++ chr "," :: cents ++ tail) [] = false).
  { apply str_eqb_neq. discriminate. }
  assert (H2 : str_eqb ((d :: r) ++ chr "," :: cents ++ tail) NA = false).
  { apply str_eqb_neq. intros H. injection H as H _. subst d. discriminate Hd. }
  rewrite H1, H2. cbn [orb].
  unfold prix_net. rewrite (norm_locale _ _ _ Ha Hc Ht).
  pose proof (digits_only_all_digits (d :: r)) as Hda.
  destruct (fixed_text_ends _ _ Hda Hc Hne) as (c1 & s & c2 & Heq & Hc1 & Hc2).
  rewrite Heq.
  rewrite strip_ends;
    [ | apply digit_not_space, Hc1 | apply (fixed_char_facts c2 Hc2) ].
  rewrite <- Heq, (float_of_str_fixed _ _ Hda Hc Hne), Z_of_digits_app.
  reflexivity.
Qed.

(** ** Sign of a parsed float *)

Lemma iter_pos_invariant {A} (P : A -> Prop) (f : A -> A) :
  (forall y, P y -> P (f y)) ->
  forall (p : positive) (x : A), P x -> P (iter_pos f p x).
Proof.
  intros Hf. induction p as [p IH | p IH | ]; intros x Hx; cbn; auto.
Qed.

Lemma shr_1_nonneg (mrs : shr_record) :
  0 <= shr_m mrs -> 0 <= shr_m (shr_1 mrs).
Proof.
  destruct mrs as [m r s]. cbn.
  destruct m as [ | [p | p | ] | [p | p | ]]; cbn; lia.
Qed.

Lemma shr_nonneg (mrs : shr_record) (e n : Z) :
  0 <= shr_m mrs -> 0 <= shr_m (fst (shr mrs e n)).
Proof.
  intros H. unfold shr. destruct n as [ | p | p]; cbn [fst]; auto.
  apply (iter_pos_invariant (fun x => 0 <= shr_m x)); auto using shr_1_nonneg.
Qed.

Lemma shr_fexp_nonneg (m e : Z) (l : location) :
  0 <= m -> 0 <= shr_m (fst (shr_fexp prec emax m e l)).
Proof.
  intros H. unfold shr_fexp. apply shr_nonneg.
  destruct l as [ | [ | | ]]; exact H.
Qed.

Lemma round_nearest_even_nonneg (m : Z) (l : location) :
  0 <= m -> 0 <= round_nearest_even m l.
Proof.
  intros H. destruct l as [ | [ | | ]]; cbn; try lia.
  destruct (Z.even m); lia.
Qed.

Lemma binary_round_aux_sign (sx : bool) (mx ex : Z) (lx : location) :
  0 <= mx -> has_sign sx (binary_round_aux prec emax sx mx ex lx).
Proof.
  intros H. unfold binary_round_aux.
  pose proof (shr_fexp_nonneg mx ex lx H) as H1.
  destruct (shr_fexp prec emax mx ex lx) as [mrs' e']. cbn [fst] in H1.
  pose proof (shr_fexp_nonneg
                (round_nearest_even (shr_m mrs') (loc_of_shr_record mrs'))
                e' loc_Exact
                (round_nearest_even_nonneg _ _ H1)) as H2.
  destruct (shr_fexp prec emax _ e' loc_Exact) as [mrs'' e'']. cbn [fst] in H2.
  destruct (shr_m mrs'') as [ | p | p].
  - reflexivity.
  - destruct (e'' <=? emax - prec); reflexivity.
  - lia.
Qed.

Lemma float_of_ratio_sign (sign : bool) (num den : positive) :
  has_sign sign (float_of_ratio sign num den).
Proof.
  unfold float_of_ratio, SFdiv_core_binary.
  set (s := _ - _ - _).
  set (m' := match s with Z0 => _ | Zpos _ => _ | Zneg _ => _ end).
  assert (Hm : 0 <= m').
  { subst m'. destruct s; try lia. apply Z.shiftl_nonneg. lia. }
  pose proof (Z_div_mod m' (Zpos den) eq_refl) as Hdiv.
  destruct (Z.div_eucl m' (Zpos den)) as [q r].
  apply binary_round_aux_sign. nia.
Qed.

Lemma float_of_decimal_sign (sign : bool) (m e : Z) :
  has_sign sign (float_of_decimal sign m e).
Proof.
  unfold float_of_decimal. destruct m as [ | p | p]; try reflexivity.
  destruct (0 <=? e); apply float_of_ratio_sign.
Qed.


Lemma parse_float_literal_sign (t : str) (v : float) :
  parse_float_literal t = Some v ->
  v = S754_nan \/ has_sign (fst (parse_sign t)) v.
Proof.
  unfold parse_float_literal. destruct (parse_sign t) as [sign r]. cbn [fst].
  destruct (parse_decimal r) as [[m e] | ].
  - intros H. injection H as <-. right. apply float_of_decimal_sign.
  - unfold parse_inf_or_nan.
    destruct (str_eqb (lower r) (py "inf") || str_eqb (lower r) (py "infinity")).
    + intros H. injection H as <-. now right.
    + destruct (str_eqb (lower r) (py "nan")); [ | discriminate ].
      intros H. injection H as <-. now left.
Qed.

(** Where a minus sign can come from. *)
Lemma parse_sign_no_minus (t : str) :
  ~ In 45%N t -> fst (parse_sign t) = false.
Proof.
  destruct t as [ | c t]; [ reflexivity | ]. intros H. cbn.
  destruct (N.eqb_spec c 45) as [-> | _]; [ exfalso; apply H; now left | ].
  now destruct (c =? 43)%N.
Qed.


Lemma in_c_lstrip (x : codepoint) (s : str) : In x (c_lstrip s) -> In x s.
Proof.
  induction s as [ | c s IH]; [ auto | ]. cbn.
  destruct (is_c_space c); [ right; auto | auto ].
Qed.

Lemma in_c_strip (x : codepoint) (s : str) : In x (c_strip s) -> In x s.
Proof.
  unfold c_strip. intros H.
  apply in_rev, in_c_lstrip, in_rev, in_c_lstrip in H. exact H.
Qed.

Lemma in_lstrip (x : codepoint) (s : str) : In x (lstrip s) -> In x s.
Proof.
  induction s as [ | c s IH]; [ auto | ]. cbn.
  destruct (is_space c); [ right; auto | auto ].
Qed.

Lemma in_strip (x : codepoint) (s : str) : In x (strip s) -> In x s.
Proof.
  unfold strip, rstrip. intros H.
  apply in_rev, in_lstrip, in_rev, in_lstrip in H. exact H.
Qed.

Lemma in_drop_underscores (x : codepoint) (s : str) :
  forall prev t, drop_underscores prev s = Some t -> In x t -> In x s.
Proof.
  induction s as [ | c s IH]; intros prev t; cbn.
  - destruct (prev =? 95)%N; [ discriminate | ].
    intros H. injection H as <-. auto.
  - destruct (c =? 95)%N.
    + destruct (is_ascii_digit prev); [ | discriminate ].
      intros H Hx. right. eauto.
    + destruct ((prev =? 95)%N && negb (is_ascii_digit c)); [ discriminate | ].
      destruct (drop_underscores c s) as [t' | ] eqn:Ht; [ | discriminate ].
      cbn. intros H. injection H as <-. intros [-> | Hx]; [ now left | ].
      right. eauto.
Qed.

Lemma in_replace (x old : codepoint) (new s : str) :
  In x (replace old new s) -> In x s \/ In x new.
Proof.
  induction s as [ | c s IH]; [ auto | ]. cbn.
  destruct (c =? old)%N.
  - intros H. apply in_app_or in H. destruct H as [H | H]; [ now right | ].
    destruct (IH H); auto.
  - intros [-> | H]; [ left; now left | ]. destruct (IH H); auto.
Qed.






(** ** The matcher finds matches of the pattern *)

Lemma star_loop_sound (r : Re.regex)
    (k : str -> Re.captures -> option Re.captures) (res : Re.captures) :
  (forall s cs k', Re.exec r s cs k' = Some res ->
                   exists s1 c1, matches r s cs s1 c1 /\ k' s1 c1 = Some res) ->
  forall fuel s cs,
    Re.star_loop (Re.exec r) k fuel s cs = Some res ->
    exists s1 c1, matches (Re.Star r) s cs s1 c1 /\ k s1 c1 = Some res.
Proof.
  intros IHr. induction fuel as [ | fuel IH]; intros s cs; cbn [Re.star_loop].
  - intros H. exists s, cs. split; [ constructor | exact H ].
  - destruct (Re.exec r s cs _) as [res' | ] eqn:He.
    + intros H. injection H as ->.
      apply IHr in He. destruct He as (s1 & c1 & Hm & Hk).
      destruct (length s1 <? length s)%nat; [ | discriminate ].
      apply IH in Hk. destruct Hk as (s2 & c2 & Hm2 & Hk2).
      exists s2, c2. split; [ econstructor; eauto | exact Hk2 ].
    + intros H. exists s, cs. split; [ constructor | exact H ].
Qed.

Lemma exec_sound (r : Re.regex) :
  forall s cs k res,
    Re.exec r s cs k = Some res ->
    exists s1 c1, matches r s cs s1 c1 /\ k s1 c1 = Some res.
Proof.
  induction r as [ | p | r1 IH1 r2 IH2 | r1 IH1 r2 IH2 | r IH | n r IH];
    intros s cs k res; cbn [Re.exec].
  - intros H. exists s, cs. split; [ constructor | exact H ].
  - destruct s as [ | c s]; [ discriminate | ].
    destruct (p c) eqn:Hp; [ | discriminate ].
    intros H. exists s, cs. split; [ now constructor | exact H ].
  - intros H. apply IH1 in H. destruct H as (s1 & c1 & Hm1 & H).
    apply IH2 in H. destruct H as (s2 & c2 & Hm2 & H).
    exists s2, c2. split; [ econstructor; eauto | exact H ].
  - destruct (Re.exec r1 s cs k) as [res' | ] eqn:He.
    + intros H. injection H as ->. apply IH1 in He.
      destruct He as (s1 & c1 & Hm & Hk).
      exists s1, c1. split; [ now apply M_AltL | exact Hk ].
    + intros H. apply IH2 in H. destruct H as (s1 & c1 & Hm & Hk).
      exists s1, c1. split; [ now apply M_AltR | exact Hk ].
  - apply star_loop_sound. intros s' cs' k'. apply IH.
  - intros H. apply IH in H. destruct H as (s1 & c1 & Hm & Hk).
    eexists _, _. split; [ constructor; exact Hm | exact Hk ].
Qed.

(** A match found by [re.search] starts somewhere in the text. *)
Lemma search_sound (r : Re.regex) (s : str) (m : Re.captures) :
  Re.search r s = Some m ->
  exists pre s0 s1, s = pre ++ s0 /\ matches r s0 [] s1 m.
Proof.
  induction s as [ | c s IH]; cbn [Re.search].
  - destruct (Re.match_here r []) as [m' | ] eqn:Hm; [ | discriminate ].
    intros H. injection H as ->. unfold Re.match_here in Hm.
    apply exec_sound in Hm. destruct Hm as (s1 & c1 & Hm & Hk).
    injection Hk as ->. now exists [], [], s1.
  - destruct (Re.match_here r (c :: s)) as [m' | ] eqn:Hm.
    + intros H. injection H as ->. unfold Re.match_here in Hm.
      apply exec_sound in Hm. destruct Hm as (s1 & c1 & Hm & Hk).
      injection Hk as ->. now exists [], (c :: s), s1.
    + intros H. apply IH in H. destruct H as (pre & s0 & s1 & -> & Hm').
      now exists (c :: pre), s0, s1.
Qed.

Lemma matches_suffix r s cs s1 c1 :
  matches r s cs s1 c1 -> exists pre, s = pre ++ s1.
Proof.
  induction 1;
    repeat match goal with H : exists _, _ |- _ => destruct H as [? ->] end.
  - now exists [].
  - now exists [c].
  - eexists. now rewrite app_assoc.
  - now eexists.
  - now eexists.
  - now exists [].
  - eexists. now rewrite app_assoc.
  - now eexists.
Qed.

Lemma consumed_app (pre s1 : str) : Re.consumed (pre ++ s1) s1 = pre.
Proof.
  unfold Re.consumed. rewrite length_app.
  replace (length pre + length s1 - length s1)%nat with (length pre) by lia.
  rewrite firstn_app, Nat.sub_diag, firstn_all. cbn. apply app_nil_r.
Qed.

Lemma matches_no_group r s cs s1 c1 :
  matches r s cs s1 c1 -> no_group r = true -> c1 = cs.
Proof.
  induction 1; cbn [no_group]; intros Hg;
    try apply andb_true_iff in Hg; try reflexivity; try discriminate.
  - destruct Hg. rewrite IHmatches2, IHmatches1; auto.
  - destruct Hg. auto.
  - destruct Hg. auto.
  - rewrite IHmatches2, IHmatches1; auto.
Qed.

(** A run of characters of a class. *)
Lemma matches_star_cls (p : codepoint -> bool) r s cs s1 c1 :
  matches r s cs s1 c1 -> r = Re.Star (Re.Cls p) ->
  exists ws, s = ws ++ s1 /\ Forall (fun c => p c = true) ws.
Proof.
  induction 1; intros Hr; try discriminate.
  - now exists [].
  - injection Hr as ->. specialize (IHmatches2 eq_refl).
    destruct IHmatches2 as (ws & -> & Hws).
    inversion H; subst.
    exists (c :: ws). split; [ reflexivity | now constructor ].
Qed.

(** ** The groups of the extractor's pattern *)

Ltac inv H := inversion H; subst; clear H.

Lemma cls_eqb_char (c : codepoint) (s : str) cs s1 c1 :
  matches (Re.Cls (N.eqb c)) s cs s1 c1 -> s = c :: s1 /\ c1 = cs.
Proof.
  intros H. inv H. match goal with H : (_ =? _)%N = true |- _ =>
    apply N.eqb_eq in H; subst end. now split.
Qed.

(** The unit token: ["kg"], or ["100"], whitespace, ["g"]. *)
Lemma matches_unit_token s cs s1 c1 :
  matches
    (Re.Alt (Re.Cat (Re.Chr (chr "k")) (Re.Chr (chr "g")))
            (Re.Cat (Re.Chr (chr "1"))
            (Re.Cat (Re.Chr (chr "0"))
            (Re.Cat (Re.Chr (chr "0"))
            (Re.Cat (Re.Star (Re.Cls is_space))
                    (Re.Chr (chr "g")))))))
    s cs s1 c1 ->
  c1 = cs /\
  exists g2, s = g2 ++ s1 /\
    (g2 = py "kg" \/
     exists ws, Forall (fun c => is_space c = true) ws /\
                g2 = py "100" ++ ws ++ py "g").
Proof.
  unfold Re.Chr. intros H. inv H.
  - match goal with H : matches (Re.Cat _ _) _ _ _ _ |- _ => inv H end.
    repeat match goal with H : matches (Re.Cls (N.eqb _)) _ _ _ _ |- _ =>
      apply cls_eqb_char in H; destruct H as [? ?] end.
    subst. split; [ reflexivity | ]. exists (py "kg"). split; [ reflexivity | now left ].
  - repeat match goal with H : matches (Re.Cat _ _) _ _ _ _ |- _ => inv H end.
    match goal with H : matches (Re.Star _) _ _ _ _ |- _ =>
      pose proof (matches_no_group _ _ _ _ _ H eq_refl) as Hc;
      apply (matches_star_cls is_space) in H; [ | reflexivity ];
      destruct H as (ws & Hs & Hws) end.
    repeat match goal with H : matches (Re.Cls (N.eqb _)) _ _ _ _ |- _ =>
      apply cls_eqb_char in H; destruct H as [? ?] end.
    subst. split; [ reflexivity | ].
    exists (py "100" ++ ws ++ py "g"). split.
    + cbn. now rewrite <- app_assoc.
    + right. now exists ws.
Qed.

Lemma search_unitaire_groups (texte : str) (m : Re.captures) :
  Re.search re_unitaire texte = Some m ->
  exists pre g1 mid g2 post,
    texte = pre ++ g1 ++ mid ++ g2 ++ post /\
    Re.group m 1 = g1 /\ Re.group m 2 = g2 /\
    (g2 = py "kg" \/
     exists ws, Forall (fun c => is_space c = true) ws /\
                g2 = py "100" ++ ws ++ py "g").
Proof.
  intros H. apply search_sound in H. destruct H as (pre & s0 & s1 & -> & Hm).
  unfold re_unitaire in Hm.
  inv Hm.
  match goal with H : matches (Re.Grp 1 _) _ _ _ _ |- _ => inv H end.
  match goal with H : matches (Re.Plus _) _ _ _ _ |- _ =>
    pose proof (matches_no_group _ _ _ _ _ H eq_refl) as Hc1;
    apply matches_suffix in H; destruct H as [g1 ->] end.
  subst. rewrite consumed_app in *.
  match goal with H : matches (Re.Cat _ _) _ _ _ _ |- _ => inv H end.
  match goal with H : matches (Re.Chr _) _ _ _ _ |- _ =>
    pose proof (matches_no_group _ _ _ _ _ H eq_refl) as Hc2;
    apply matches_suffix in H; destruct H as [m1 ->] end.
  subst.
  match goal with H : matches (Re.Cat _ _) _ _ _ _ |- _ => inv H end.
  match goal with H : matches (Re.Star _) _ _ _ _ |- _ =>
    pose proof (matches_no_group _ _ _ _ _ H eq_refl) as Hc3;
    apply matches_suffix in H; destruct H as [m2 ->] end.
  subst.
  match goal with H : matches (Re.Cat _ _) _ _ _ _ |- _ => inv H end.
  match goal with H : matches (Re.Opt _) _ _ _ _ |- _ =>
    pose proof (matches_no_group _ _ _ _ _ H eq_refl) as Hc4;
    apply matches_suffix in H; destruct H as [m3 ->] end.
  subst.
  match goal with H : matches (Re.Cat _ _) _ _ _ _ |- _ => inv H end.
  match goal with H : matches (Re.Star _) _ _ _ _ |- _ =>
    pose proof (matches_no_group _ _ _ _ _ H eq_refl) as Hc5;
    apply matches_suffix in H; destruct H as [m4 ->] end.
  subst.
  match goal with H : matches (Re.Grp 2 _) _ _ _ _ |- _ => inv H end.
  match goal with H : matches (Re.Alt _ _) _ _ _ _ |- _ =>
    apply matches_unit_token in H; destruct H as (-> & g2 & -> & Hg2) end.
  rewrite consumed_app.
  exists pre, g1, (m1 ++ m2 ++ m3 ++ m4), g2, s1.
  repeat split; auto.
  now rewrite <- !app_assoc.
Qed.

(** ** The Unit-Price Extractor *)

Lemma boucle_prix_blocs_no_match (prix_blocs : list (list str))
    (etat : float * str * str) :
  Forall span_no_match prix_blocs ->
  boucle_prix_blocs prix_blocs etat = inr etat.
Proof.
  induction 1 as [ | span suite Hs Hsuite IH]; [ reflexivity | ].
  cbn [boucle_prix_blocs]. destruct etat as [[v u] t].
  unfold span_no_match in Hs. rewrite Hs. exact IH.
Qed.

Lemma boucle_prix_blocs_first (avant : list (list str)) (span : list str)
    (apres : list (list str)) (v : float) (u : str) :
  Forall span_fails avant -> span_succeeds span v u ->
  forall etat,
    boucle_prix_blocs (avant ++ span :: apres) etat
    = inr (v, u, get_text_strip span).
Proof.
  intros Havant (m & Hm & Hv & ->).
  induction Havant as [ | s suite Hs Hsuite IH]; intros [[v0 u0] t0].
  - cbn [app boucle_prix_blocs]. rewrite Hm. cbv zeta. rewrite Hv. reflexivity.
  - cbn [app boucle_prix_blocs].
    destruct Hs as [Hs | (m' & e & Hs & He)].
    + unfold span_no_match in Hs. rewrite Hs. apply IH.
    + rewrite Hs. cbv zeta. rewrite He, (float_of_str_raises _ _ He).
      cbn [rbind try_except existsb exception_eqb orb]. apply IH.
Qed.

(** The unit returned is the one the loop started with, or the unit token
    matched in the text returned. *)
Lemma boucle_prix_blocs_unit (prix_blocs : list (list str)) :
  forall v0 u0 t0 v u t,
    boucle_prix_blocs prix_blocs (v0, u0, t0) = inr (v, u, t) ->
    u = u0 \/
    exists m, Re.search re_unitaire t = Some m /\ u = unite_str_de m.
Proof.
  induction prix_blocs as [ | span suite IH]; intros v0 u0 t0 v u t.
  - cbn. intros H. injection H as <- <- <-. now left.
  - cbn [boucle_prix_blocs].
    destruct (Re.search re_unitaire (get_text_strip span)) as [m | ] eqn:Hm;
      [ | apply IH ].
    cbv zeta. destruct (float_of_str (valeur_str_de m)) as [e | x] eqn:Hf.
    + rewrite (float_of_str_raises _ _ Hf).
      cbn [rbind try_except existsb exception_eqb orb]. apply IH.
    + cbn. intros H. injection H as <- <- <-. right. now exists m.
Qed.

Lemma replace_all_old (old : codepoint) (ws : str) :
  Forall (fun c => c = old) ws -> replace old [] ws = [].
Proof.
  induction 1 as [ | c ws -> Hws IH]; [ reflexivity | ].
  cbn. now rewrite N.eqb_refl, IH.
Qed.

Lemma unite_str_plain (texte : str) (m : Re.captures) :
  Re.search re_unitaire texte = Some m -> plain_spaces texte ->
  unite_str_de m = py "kg" \/ unite_str_de m = py "100g".
Proof.
  intros Hm Hplain.
  destruct (search_unitaire_groups texte m Hm)
    as (pre & g1 & mid & g2 & post & Ht & _ & Hg2 & Hlang).
  unfold unite_str_de. rewrite Hg2.
  destruct Hlang as [-> | (ws & Hws & ->)]; [ now left | right ].
  assert (Hall : Forall (fun c => c = chr " ") ws).
  { rewrite Forall_forall in *. intros c Hc. apply Hplain; [ | now apply Hws ].
    rewrite Ht, !in_app_iff. tauto. }
  rewrite !replace_app, (replace_all_old _ _ Hall). reflexivity.
Qed.

Lemma replace_nil_Forall (P : codepoint -> Prop) (old : codepoint) (ws : str) :
  Forall P ws -> Forall (fun c => P c /\ c <> old) (replace old [] ws).
Proof.
  induction 1 as [ | c ws Hc Hws IH]; [ constructor | ].
  cbn [replace app]. destruct (N.eqb_spec c old) as [Heq | Hne]; [ exact IH | ].
  constructor; [ now split | exact IH ].
Qed.

(** The unit made of a match: ["kg"], or ["100"] and ["g"] with, between
    them, the whitespace of the unit token that is no plain space. *)
Lemma unite_str_forme (texte : str) (m : Re.captures) :
  Re.search re_unitaire texte = Some m ->
  unite_str_de m = py "kg" \/
  exists ws,
    Forall (fun c => is_space c = true /\ c <> 32%N) ws /\
    unite_str_de m = py "100" ++ ws ++ py "g" /\
    (plain_spaces (Re.group m 2) -> ws = []).
Proof.
  intros Hm.
  destruct (search_unitaire_groups texte m Hm)
    as (pre & g1 & mid & g2 & post & Ht & _ & Hg2 & Hlang).
  unfold unite_str_de. rewrite Hg2.
  destruct Hlang as [-> | (ws & Hws & ->)]; [ now left | right ].
  exists (replace (chr " ") [] ws). split; [ | split ].
  - apply (replace_nil_Forall (fun c => is_space c = true)), Hws.
  - rewrite !replace_app.
    change (replace (chr " ") [] (py "100")) with (py "100").
    change (replace (chr " ") [] (py "g")) with (py "g").
    change (py "100" ++ replace (chr " ") [] ws ++ py "g")
      with (49%N :: (py "00" ++ replace (chr " ") [] ws) ++ [103%N]).
    apply strip_ends; reflexivity.
  - intros Hplain. apply replace_all_old.
    rewrite Forall_forall in *. intros c Hc. apply Hplain; [ | now apply Hws ].
    rewrite !in_app_iff. tauto.
Qed.

(** When every span fails the loop keeps the value and the unit it started
    with; the text is the one it started with or the text of a span that
    matched. *)
Lemma boucle_prix_blocs_fails (prix_blocs : list (list str)) :
  Forall span_fails prix_blocs ->
  forall v0 u0 t0,
  exists t,
    boucle_prix_blocs prix_blocs (v0, u0, t0) = inr (v0, u0, t) /\
    (t = t0 \/
     exists span m,
       In span prix_blocs /\ t = get_text_strip span /\
       Re.search re_unitaire t = Some m).
Proof.
  induction 1 as [ | span suite Hs Hsuite IH]; intros v0 u0 t0.
  - exists t0. split; [ reflexivity | now left ].
  - cbn [boucle_prix_blocs].
    destruct Hs as [Hs | (m & e & Hs & He)].
    + unfold span_no_match in Hs. rewrite Hs.
      destruct (IH v0 u0 t0) as (t & Hrun & [-> | (sp & m & Hin & Ht & Hm)]).
      * exists t0. split; [ exact Hrun | now left ].
      * exists t. split; [ exact Hrun | right ]. exists sp, m.
        split; [ now right | now split ].
    + rewrite Hs. cbv zeta. rewrite He, (float_of_str_raises _ _ He).
      cbn [rbind try_except existsb exception_eqb orb].
      destruct (IH v0 u0 (get_text_strip span))
        as (t & Hrun & [-> | (sp & m' & Hin & Ht & Hm)]).
      * exists (get_text_strip span). split; [ exact Hrun | right ].
        exists span, m. split; [ now left | now split ].
      * exists t. split; [ exact Hrun | right ]. exists sp, m'.
        split; [ now right | now split ].
Qed.

(** C5, as amended.  The extractor takes the spans in order.  When no span's
    text matches the pattern the output is [(0.0, "N/A", "N/A")].  When a
    span matches and its amount converts, every span before it having
    failed, the output is that span's value, unit and text, whatever spans
    follow it: they are not inspected.  When the unit token matched in the
    text returned has no whitespace other than plain spaces, the unit
    returned is ["kg"], ["100g"] or ["N/A"].  When every span fails, by not
    matching or by an amount that does not convert, the value is [0.0] and
    the unit ["N/A"]; the text is then ["N/A"] or the text of a span that
    matched.  In all cases the unit is ["N/A"], ["kg"], or ["100"] and
    ["g"] with nothing between them but the whitespace of the unit token
    that is no plain space.  The pattern is matched with regard to case:
    see the examples. *)
Theorem extraire_prix_unitaire_contract :
  (forall produit : Tag,
      Forall span_no_match (PRIX_UNITAIRE_TEXTE produit) ->
      _extraire_prix_unitaire_amazon produit = inr (f_zero, NA, NA)) /\
  (forall (produit : Tag) avant span apres v u,
      PRIX_UNITAIRE_TEXTE produit = avant ++ span :: apres ->
      Forall span_fails avant -> span_succeeds span v u ->
      _extraire_prix_unitaire_amazon produit = inr (v, u, get_text_strip span)) /\
  (forall (produit : Tag) v u t,
      _extraire_prix_unitaire_amazon produit = inr (v, u, t) ->
      (forall m, Re.search re_unitaire t = Some m ->
                 plain_spaces (Re.group m 2)) ->
      u = py "kg" \/ u = py "100g" \/ u = NA) /\
  (forall produit : Tag,
      Forall span_fails (PRIX_UNITAIRE_TEXTE produit) ->
      exists t,
        _extraire_prix_unitaire_amazon produit = inr (f_zero, NA, t) /\
        (t = NA \/
         exists span m,
           In span (PRIX_UNITAIRE_TEXTE produit) /\
           t = get_text_strip span /\
           Re.search re_unitaire t = Some m)) /\
  (forall (produit : Tag) v u t,
      _extraire_prix_unitaire_amazon produit = inr (v, u, t) ->
      u = NA \/ u = py "kg" \/
      exists ws,
        Forall (fun c => is_space c = true /\ c <> 32%N) ws /\
        u = py "100" ++ ws ++ py "g") /\
  _extraire_prix_unitaire_amazon
    (bloc_spans [[py "Promo"]; [py " (20,50€/kg) "]; [py "9,99€/kg"]])
  = inr (fl 20.5, py "kg", py "(20,50€/kg)") /\
  _extraire_prix_unitaire_amazon (bloc_spans [[py "2,50 € / 100 g"]])
  = inr (fl 2.5, py "100g", py "2,50 € / 100 g") /\
  _extraire_prix_unitaire_amazon
    (bloc_spans [[py "(33,32" ++ 160%N :: py "€/kg)"]])
  = inr (fl 33.32, py "kg", py "(33,32" ++ 160%N :: py "€/kg)") /\
  _extraire_prix_unitaire_amazon (bloc_spans [[py "20,50€/Kg"]; [py "1,20 €/100g"]])
  = inr (fl 1.2, py "100g", py "1,20 €/100g") /\
  _extraire_prix_unitaire_amazon (bloc_spans []) = inr (f_zero, NA, NA).
Proof.
  split; [ | split; [ | split; [ | split; [ | split;
    [ | repeat split; vm_compute; reflexivity ] ] ] ] ].
  - intros produit H. now apply boucle_prix_blocs_no_match.
  - intros produit avant span apres v u Heq Havant Hspan.
    unfold _extraire_prix_unitaire_amazon. rewrite Heq.
    now apply boucle_prix_blocs_first.
  - intros produit v u t H Hplain.
    apply boucle_prix_blocs_unit in H. destruct H as [-> | (m & Hm & ->)].
    + now right; right.
    + destruct (unite_str_forme t m Hm) as [-> | (ws & _ & Hu & Hnil)];
        [ now left | ].
      right. left. rewrite Hu, (Hnil (Hplain m Hm)). reflexivity.
  - intros produit H. unfold _extraire_prix_unitaire_amazon.
    destruct (boucle_prix_blocs_fails _ H f_zero NA NA) as (t & Hrun & Ht).
    exists t. split; [ exact Hrun | exact Ht ].
  - intros produit v u t H.
    apply boucle_prix_blocs_unit in H. destruct H as [-> | (m & Hm & ->)].
    + now left.
    + right. destruct (unite_str_forme t m Hm) as [-> | (ws & Hws & Hu & _)];
        [ now left | right ].
      exists ws. now split.
Qed.

(** C5, as stated, fails.  A unit token in capitals matches the pattern read
    without regard to case, and the extractor does not match it.  A
    non-breaking space between ["100"] and ["g"] gives a unit that is none
    of ["kg"], ["100g"], ["N/A"].  A span that matches with an amount that
    does not convert leaves its text in the output though no span
    succeeded. *)
Lemma extraire_prix_unitaire_counterexample :
  option_map (fun m => Re.group m 2)
    (Re.search re_unitaire_ignorecase (py "20,50€/KG")) = Some (py "KG") /\
  _extraire_prix_unitaire_amazon (bloc_spans [[py "20,50€/KG"]])
  = inr (f_zero, NA, NA) /\
  _extraire_prix_unitaire_amazon
    (bloc_spans [[py "2,50€/100" ++ 160%N :: py "g"]])
  = inr (fl 2.5, py "100" ++ 160%N :: py "g", py "2,50€/100" ++ 160%N :: py "g") /\
  str_eqb (py "100" ++ 160%N :: py "g") (py "kg") = false /\
  str_eqb (py "100" ++ 160%N :: py "g") (py "100g") = false /\
  str_eqb (py "100" ++ 160%N :: py "g") NA = false /\
  _extraire_prix_unitaire_amazon (bloc_spans [[py "1.2.3€/kg"]])
  = inr (f_zero, NA, py "1.2.3€/kg").
Proof. repeat split; vm_compute; reflexivity. Qed.

(** ** The properties at concrete inputs *)

(** [resolution_order] on the block with a declared price per kilogram. *)
Lemma resolution_order_witness :
  exists o,
    snd (_traiter_produit bloc_A (py "R1") empty_world) = inr 0%nat /\
    objets (fst (_traiter_produit bloc_A (py "R1") empty_world)) = [o] /\
    prix_unitaire_kg o = fl 20.5 /\
    source_prix_kg o = py "Amazon (Direct)" /\
    journal (fst (_traiter_produit bloc_A (py "R1") empty_world))
    = [Appel_extraire_prix_unitaire_amazon; Appel_calculer_prix_au_kg_direct].
Proof.
  destruct (resolution_order bloc_A (py "R1") empty_world)
    as (v & u & t & Hex & H & _).
  assert (Hex' : _extraire_prix_unitaire_amazon bloc_A
                 = inr (fl 20.5, py "kg", py "(20,50€/kg)"))
    by (vm_compute; reflexivity).
  rewrite Hex' in Hex. injection Hex as <- <- <-.
  destruct H as (o & H1 & H2 & H3 & H4 & H5); [ vm_compute; reflexivity | ].
  exists o. repeat split; auto.
Defined.

(** [listing_coherent_lifecycle] on the run over [web_exemple]. *)
Lemma listing_coherent_lifecycle_witness :
  Forall coherent (objets (fst (main web_exemple empty_world))).
Proof.
  destruct listing_coherent_lifecycle as (_ & _ & _ & _ & _ & H & _).
  apply H. constructor.
Defined.

Lemma coherent_exemple (r : ref) :
  In r [0; 1; 2; 3; 4]%nat ->
  exists o, deref world_exemple r = Some o /\ coherent o.
Proof.
  intros Hr. cbn in Hr.
  destruct Hr as [<- | [<- | [<- | [<- | [<- | []]]]]];
    (eexists; split; [ reflexivity | ]);
    first [ right; split; vm_compute; reflexivity
          | left; split; [ vm_compute; reflexivity | vm_compute; discriminate ] ].
Defined.

(** [ranking_filter_contract] on the five listings of [world_exemple]. *)
Lemma ranking_filter_contract_witness :
  exists tries,
    nettoyer_et_trier_resultats [0; 1; 2; 3; 4]%nat world_exemple
    = (world_exemple, inr tries) /\
    Permutation tries (filter (prix_non_nul world_exemple) [0; 1; 2; 3; 4]%nat) /\
    StronglySorted (prix_le world_exemple) tries.
Proof.
  destruct (proj1 ranking_filter_contract world_exemple [0; 1; 2; 3; 4]%nat
              coherent_exemple) as (tries & H1 & H2 & H3 & _).
  exists tries. auto.
Defined.

(** [ranking_filter_frame] on the five listings of [world_exemple]. *)
Lemma ranking_filter_frame_witness :
  exists tries,
    snd (nettoyer_et_trier_resultats [0; 1; 2; 3; 4]%nat world_exemple)
    = inr tries /\
    Permutation tries (filter (prix_positif world_exemple) [0; 1; 2; 3; 4]%nat).
Proof.
  destruct (proj2 (ranking_filter_frame world_exemple [0; 1; 2; 3; 4]%nat))
    as (tries & H1 & H2 & _).
  - intros r Hr. destruct (coherent_exemple r Hr) as (o & Ho & _). now exists o.
  - exists tries. auto.
Defined.

(** [extraire_prix_unitaire_contract]: the second of three spans wins. *)
Lemma extraire_prix_unitaire_contract_witness :
  _extraire_prix_unitaire_amazon
    (bloc_spans [[py "Promo"]; [py " (20,50€/kg) "]; [py "9,99€/kg"]])
  = inr (fl 20.5, py "kg", get_text_strip [py " (20,50€/kg) "]).
Proof.
  destruct extraire_prix_unitaire_contract as (_ & H & _).
  apply (H _ [[py "Promo"]] [py " (20,50€/kg) "] [[py "9,99€/kg"]]).
  - reflexivity.
  - constructor; [ | constructor ]. left. vm_compute. reflexivity.
  - eexists. split; [ vm_compute; reflexivity | ].
    split; vm_compute; reflexivity.
Defined.

(** [nettoyer_prix_total_total] on a text that is no number. *)
Lemma nettoyer_prix_total_total_witness :
  _nettoyer_prix_total (py "gratuit") = inr f_zero.
Proof.
  apply (proj2 (nettoyer_prix_total_total (py "gratuit"))).
  right. right. exists ValueError. vm_compute. reflexivity.
Defined.


(** [calculer_prix_au_kg_direct_contract] on a unit to be normalized. *)
Lemma calculer_prix_au_kg_direct_contract_witness :
  calculer_prix_au_kg_direct (fl 2.5) (py " 100G ") = f_mul (fl 2.5) (fl 10).
Proof.
  destruct (proj1 calculer_prix_au_kg_direct_contract (fl 2.5) (py " 100G "))
    as (_ & _ & H & _).
  apply H; vm_compute; reflexivity.
Defined.

(** [identifiers_by_page] on the run over [web_exemple]. *)
Lemma identifiers_by_page_witness :
  exists w' (pages : list (list (nat * ref))) (tries : list ref),
    main web_exemple empty_world = (w', inr (refs_of pages, tries)) /\
    (length pages <= MAX_PAGES)%nat /\
    (forall p page,
        nth_error pages p = Some page ->
        exists produits,
          web_exemple (1 + p)%nat = inr produits /\
          Forall (fun kr =>
                    collected_from w' produits
                      (length (refs_of (firstn p pages)))
                      (fst kr) (snd kr)) page) /\
    (forall r, In r tries -> In r (refs_of pages)).
Proof.
  destruct identifiers_by_page as [H _].
  exact (H web_exemple empty_world).
Defined.

(** A listing skipped on its page is not counted: with a first block that
    makes the Pack-Size Normalizer overflow, the second block of the first
    page and the only block of the second page both get ["R2"]. *)
Example identifiants_apres_echec :
  let web := fun page_num : nat =>
               match page_num with
               | 1%nat => inr [bloc_debordement; bloc_B]
               | 2%nat => inr [bloc_A]
               | _ => inl TimeoutError
               end in
  let '(w', res) := main web empty_world in
  res = inr ([1; 2]%nat, [2; 1]%nat) /\
  ids_of w' [1; 2]%nat = [Some (py "R2"); Some (py "R2")].
Proof. vm_compute. split; reflexivity. Qed.

(* ====================================================================== *)
(** * Further properties of the code *)
(* ====================================================================== *)

(** ** Separators in a price text *)

Lemma norm_separateur (c : codepoint) : est_separateur c = true -> norm [c] = [].
Proof.
  unfold est_separateur. intros H.
  apply orb_true_iff in H. destruct H as [H | H];
    [ apply orb_true_iff in H; destruct H as [H | H] | ];
    apply N.eqb_eq in H; subst c; reflexivity.
Qed.

Lemma norm_sans_separateurs (s : str) : norm (sans_separateurs s) = norm s.
Proof.
  induction s as [ | c s IH]; [ reflexivity | ].
  unfold sans_separateurs in *. cbn [filter].
  rewrite (norm_cons c s).
  destruct (est_separateur c) eqn:Hc; cbn [negb].
  - rewrite (norm_separateur c Hc). exact IH.
  - rewrite norm_cons, IH. reflexivity.
Qed.

Lemma prix_net_sans_separateurs (s : str) :
  prix_net (sans_separateurs s) = prix_net s.
Proof. unfold prix_net. now rewrite norm_sans_separateurs. Qed.

(** X1.  [_nettoyer_prix_total] does not see the euro signs, the spaces and
    the non-breaking spaces of its argument, wherever they stand: a price
    text and the text without them give the same result. *)
Theorem nettoyer_prix_total_separateurs :
  forall prix_str : str,
    _nettoyer_prix_total prix_str
    = _nettoyer_prix_total (sans_separateurs prix_str).
Proof.
  intros s. unfold _nettoyer_prix_total.
  rewrite prix_net_sans_separateurs.
  destruct (str_eqb s [] || str_eqb s NA) eqn:Hs.
  - apply orb_true_iff in Hs. destruct Hs as [Hs | Hs];
      apply str_eqb_eq in Hs; subst s; reflexivity.
  - destruct (str_eqb (sans_separateurs s) [] || str_eqb (sans_separateurs s) NA)
      eqn:Hf; [ | reflexivity ].
    rewrite <- prix_net_sans_separateurs.
    apply orb_true_iff in Hf. destruct Hf as [Hf | Hf];
      apply str_eqb_eq in Hf; rewrite Hf; reflexivity.
Qed.

(** ** Range of the Pack-Size Normalizer *)

Lemma SFdiv_finite_sign (sx sy : bool) (mx my : positive) (ex ey : Z) :
  has_sign (xorb sx sy)
    (SFdiv prec emax (S754_finite sx mx ex) (S754_finite sy my ey)).
Proof.
  cbn [SFdiv]. unfold SFdiv_core_binary.
  set (s := _ - _ - _).
  set (m' := match s with Z0 => _ | Zpos _ => _ | Zneg _ => _ end).
  assert (Hm : 0 <= m').
  { subst m'. destruct s; try lia. apply Z.shiftl_nonneg. lia. }
  pose proof (Z_div_mod m' (Zpos my) eq_refl) as Hdiv.
  destruct (Z.div_eucl m' (Zpos my)) as [q r].
  apply binary_round_aux_sign. nia.
Qed.

Lemma f_not_leb_zero (x : float) :
  f_leb x f_zero = false -> x = S754_nan \/ f_ltb f_zero x = true.
Proof.
  destruct x as [s | [ | ] | | [ | ] m e]; cbn; auto; discriminate.
Qed.

(** A quotient of floats that are not [<= 0] is NaN or carries the sign
    [+]. *)
Lemma f_div_sign (x y : float) :
  f_leb x f_zero = false -> f_ltb f_zero y = true ->
  SFdiv prec emax x y = S754_nan \/ has_sign false (SFdiv prec emax x y).
Proof.
  intros Hx Hy.
  destruct (f_pos_inv y Hy) as [-> | (my & ey & ->)];
    (destruct (f_not_leb_zero x Hx) as [-> | Hp];
     [ now left
     | destruct (f_pos_inv x Hp) as [-> | (mx & ex & ->)] ]).
  - now left.
  - right. reflexivity.
  - right. reflexivity.
  - right. apply (SFdiv_finite_sign false false).
Qed.

Lemma float_of_int_raises (n : Z) (e : exception) :
  float_of_int n = inl e -> e = OverflowError.
Proof.
  unfold float_of_int, raise, ret.
  destruct (binary_normalize prec emax n 0 false); congruence.
Qed.

(** What [calculer_prix_par_format] can end with: [OverflowError], raised
    by the conversion of the product of the two integers of the title, or a
    float that is NaN or carries the sign [+]. *)
Lemma calculer_prix_par_format_inv (prix_total_str titre : str) :
  match calculer_prix_par_format prix_total_str titre with
  | inl e =>
    e = OverflowError /\
    exists m n1 n2,
      Re.search re_format titre = Some m /\
      int_of_str (Re.group m 1) = inr n1 /\
      int_of_str (Re.group m 2) = inr n2 /\
      float_of_int (n1 * n2) = inl OverflowError
  | inr v => v = S754_nan \/ has_sign false v
  end.
Proof.
  destruct (nettoyer_prix_total_returns prix_total_str) as [x Hx].
  unfold calculer_prix_par_format. rewrite Hx. cbn [rbind].
  destruct (f_leb x f_zero) eqn:Hle; [ right; reflexivity | ].
  destruct (Re.search re_format titre) as [m | ]; [ | right; reflexivity ].
  destruct (int_of_str (Re.group m 1)) as [e1 | n1] eqn:H1.
  { rewrite (int_of_str_raises _ _ H1). right; reflexivity. }
  cbn [rbind].
  destruct (int_of_str (Re.group m 2)) as [e2 | n2] eqn:H2.
  { rewrite (int_of_str_raises _ _ H2). right; reflexivity. }
  cbn [rbind].
  destruct (float_of_int (n1 * n2)) as [e | masse] eqn:Hm.
  { pose proof (float_of_int_raises _ _ Hm) as ->.
    split; [ reflexivity | ]. now exists m, n1, n2. }
  change (fl 1000) with (S754_finite false 8796093022208000 (-43)).
  unfold f_truediv, ret, raise. cbn [rbind].
  remember (SFdiv prec emax masse (S754_finite false 8796093022208000 (-43)))
    as kg eqn:Hkg.
  destruct (f_ltb f_zero kg) eqn:Hpos.
  - pose proof (f_div_sign x kg Hle Hpos) as Hs.
    destruct (f_pos_inv kg Hpos) as [-> | (mk & ek & ->)]; exact Hs.
  - right; reflexivity.
Qed.

(** X2.  [calculer_prix_par_format] raises nothing but [OverflowError], and
    only when the product of the two integers read in the title is too
    large for a float; a value it returns is never negative: it is [+0.0],
    a positive float, [+inf], or NaN. *)
Theorem calculer_prix_par_format_range :
  forall prix_total_str titre : str,
    (forall e, calculer_prix_par_format prix_total_str titre = inl e ->
       e = OverflowError /\
       exists m n1 n2,
         Re.search re_format titre = Some m /\
         int_of_str (Re.group m 1) = inr n1 /\
         int_of_str (Re.group m 2) = inr n2 /\
         float_of_int (n1 * n2) = inl OverflowError) /\
    (forall v, calculer_prix_par_format prix_total_str titre = inr v ->
       v = S754_nan \/ has_sign false v).
Proof.
  intros p t. pose proof (calculer_prix_par_format_inv p t) as H.
  destruct (calculer_prix_par_format p t) as [e | v].
  - split; [ | discriminate ]. intros e' He. injection He as <-. exact H.
  - split; [ discriminate | ]. intros v' Hv. injection Hv as <-. exact H.
Qed.

Lemma traiter_produit_calcul_raises (produit : Tag) (id : str) (w : world)
    (e : exception) :
  snd (_traiter_produit produit id w) = inl e ->
  e = OverflowError /\
  calculer_prix_par_format (prix_total_str_de produit) (titre_de produit)
  = inl OverflowError /\
  exists v u t,
    _extraire_prix_unitaire_amazon produit = inr (v, u, t) /\
    f_ltb f_zero (calculer_prix_au_kg_direct v u) = false.
Proof.
  rewrite traiter_produit_run. cbv zeta.
  destruct (extraire_prix_unitaire_returns produit) as (v & u & t & Hex).
  rewrite Hex.
  destruct (f_ltb f_zero (calculer_prix_au_kg_direct v u)) eqn:Hd;
    [ discriminate | ].
  pose proof (calculer_prix_par_format_inv (prix_total_str_de produit)
                (titre_de produit)) as Hinv.
  destruct (calculer_prix_par_format _ _) as [e' | p].
  - cbn [snd]. intros H. injection H as <-. destruct Hinv as [-> _].
    repeat split. now exists v, u, t.
  - destruct (f_ltb f_zero p); discriminate.
Qed.

(** X3.  What [_traiter_produit] ends with, its [print] included.  It
    raises either [OverflowError], before it prints anything, on a block
    whose declared price per kilogram is not [> 0] and on which the
    Pack-Size Normalizer raises it; or the exception of its [print], when
    the console does not take the text printed for the listing just built.
    It returns that listing otherwise, the text being printed. *)
Theorem traiter_produit_raises :
  forall (ext : exterieur) (produit : Tag) (id : str) (w : world)
         (h : list evenement) (w' : world) (h' : list evenement)
         (res : result ref),
    _traiter_produit_print ext produit id w h = (w', h', res) ->
    w' = fst (_traiter_produit produit id w) /\
    (forall e, res = inl e ->
       h' = h /\
       ((e = OverflowError /\
         calculer_prix_par_format (prix_total_str_de produit) (titre_de produit)
         = inl OverflowError /\
         exists v u t,
           _extraire_prix_unitaire_amazon produit = inr (v, u, t) /\
           f_ltb f_zero (calculer_prix_au_kg_direct v u) = false) \/
        (exists r o,
           snd (_traiter_produit produit id w) = inr r /\
           deref w' r = Some o /\
           ext h (Ev_print (message_produit o)) = Some e))) /\
    (forall r, res = inr r ->
       snd (_traiter_produit produit id w) = inr r /\
       exists o,
         deref w' r = Some o /\
         ext h (Ev_print (message_produit o)) = None /\
         h' = h ++ [Ev_print (message_produit o)]).
Proof.
  intros ext produit id w h w' h' res. unfold _traiter_produit_print.
  pose proof (traiter_produit_calcul_raises produit id w) as Hcalc.
  destruct (traiter_produit_post produit id w)
    as (o & Hobj & _ & _ & _ & _ & Hret).
  destruct (_traiter_produit produit id w) as [w1 [e1 | r1]]; cbn [fst snd] in *.
  - intros H. injection H as <- <- <-.
    split; [ reflexivity | ]. split; [ | discriminate ].
    intros e He. injection He as <-. split; [ reflexivity | left ].
    now apply Hcalc.
  - specialize (Hret r1 eq_refl). subst r1.
    assert (Ho : deref w1 (length (objets w)) = Some o).
    { unfold deref. rewrite Hobj. apply nth_error_app_last. }
    rewrite Ho. unfold faire.
    destruct (ext h (Ev_print (message_produit o))) as [e | ] eqn:Hext;
      intros H; injection H as <- <- <-;
      (split; [ reflexivity | ]); split; try discriminate.
    + intros e' He. injection He as <-. split; [ reflexivity | right ].
      now exists (length (objets w)), o.
    + intros r Hr. injection Hr as <-. split; [ reflexivity | ].
      now exists o.
Qed.

Lemma traiter_produit_raises_witness :
  exists r o,
    snd (_traiter_produit bloc_surrogate (py "R1") empty_world) = inr r /\
    deref (fst (_traiter_produit bloc_surrogate (py "R1") empty_world)) r
    = Some o /\
    console_utf8 [] (Ev_print (message_produit o)) = Some ValueError.
Proof.
  destruct (traiter_produit_raises console_utf8 bloc_surrogate (py "R1")
              empty_world []
              (fst (_traiter_produit bloc_surrogate (py "R1") empty_world))
              [] (inl ValueError))
    as (_ & H & _); [ vm_compute; reflexivity | ].
  destruct (H ValueError eq_refl) as (_ & [(He & _) | Hp]);
    [ discriminate He | exact Hp ].
Defined.

Example traiter_produit_print_exemples :
  message_produit (listing_exemple 2 (fl 12.5) (py "Amazon (Direct)"))
  = py "[R2] - ✅ Trouvé (~12.50€/kg (Amazon (Direct))): Barre..." /\
  message_produit (listing_exemple 1 (fl 0) NA)
  = py "[R1] - ❌ Non trouvé (N/A): Barre..." /\
  snd (_traiter_produit_print tout_accepter bloc_surrogate (py "R1")
         empty_world []) = inr 0%nat /\
  snd (_traiter_produit_print console_utf8 bloc_surrogate (py "R1")
         empty_world []) = inl ValueError /\
  snd (_traiter_produit_print console_utf8 bloc_debordement (py "R1")
         empty_world []) = inl OverflowError /\
  snd (_traiter_produit_print console_utf8 bloc_A (py "R1") empty_world [])
  = inr 0%nat.
Proof. repeat split; vm_compute; reflexivity. Qed.

(** ** Sign of the declared price *)

Lemma decimal_in_lt (blocks : list N) (c d : N) :
  decimal_in blocks c = Some d -> (d < 10)%N.
Proof.
  induction blocks as [ | b r IH]; cbn; [ discriminate | ].
  destruct ((b <=? c) && (c <? b + 10))%N eqn:Hb; [ | exact IH ].
  apply andb_true_iff in Hb. destruct Hb as [H1 H2].
  apply N.leb_le in H1. apply N.ltb_lt in H2.
  intros H. injection H as <-. lia.
Qed.

(** The characters of an amount never read as the letter n. *)
Lemma classe_montant_to_ascii (c : codepoint) :
  classe_montant c = true ->
  to_ascii c <> 45%N /\ to_ascii c <> 110%N /\ to_ascii c <> 78%N.
Proof.
  intros Hc. unfold to_ascii.
  destruct (c <? 127)%N eqn:Hlt.
  - repeat split; intros ->; discriminate Hc.
  - destruct (is_space c); [ repeat split; discriminate | ].
    destruct (to_decimal c) as [d | ] eqn:Hd; [ | repeat split; discriminate ].
    apply decimal_in_lt in Hd. repeat split; lia.
Qed.

Lemma parse_sign_suffix (t : str) (c : codepoint) :
  In c (snd (parse_sign t)) -> In c t.
Proof.
  destruct t as [ | c0 t]; [ auto | ]. cbn.
  destruct (c0 =? 45)%N; [ cbn; auto | ].
  destruct (c0 =? 43)%N; cbn; auto.
Qed.

Lemma lower_char_n (c : codepoint) :
  lower_char c = 110%N -> c = 110%N \/ c = 78%N.
Proof.
  unfold lower_char.
  destruct ((65 <=? c) && (c <=? 90))%N; [ lia | ].
  destruct (c =? 8490)%N; [ discriminate | auto ].
Qed.

(** [float] gives NaN on a text that spells it only. *)
Lemma parse_float_literal_nan (t : str) :
  parse_float_literal t = Some S754_nan ->
  exists c, In c t /\ (c = 110%N \/ c = 78%N).
Proof.
  unfold parse_float_literal.
  pose proof (parse_sign_suffix t) as Hsuf.
  destruct (parse_sign t) as [sign r]. cbn [snd] in Hsuf.
  destruct (parse_decimal r) as [[m e] | ].
  - intros H. injection H as H.
    pose proof (float_of_decimal_sign sign m e) as Hs.
    rewrite H in Hs. contradiction.
  - unfold parse_inf_or_nan.
    destruct (str_eqb (lower r) (py "inf") || str_eqb (lower r) (py "infinity"));
      [ discriminate | ].
    destruct (str_eqb (lower r) (py "nan")) eqn:Hn; [ | discriminate ].
    intros _. apply str_eqb_eq in Hn.
    destruct r as [ | c1 r]; [ discriminate Hn | ].
    injection Hn as H1 _. exists c1. split.
    + apply Hsuf. now left.
    + now apply lower_char_n.
Qed.

Lemma float_of_str_montant (s : str) (v : float) :
  Forall (fun c => classe_montant c = true) s ->
  float_of_str s = inr v -> has_sign false v.
Proof.
  intros Hs. rewrite Forall_forall in Hs.
  unfold float_of_str, raise, ret.
  destruct (drop_underscores 0%N (c_strip (map to_ascii s))) as [t | ] eqn:Ht;
    [ | discriminate ].
  assert (Hin : forall x, In x t -> x <> 45%N /\ x <> 110%N /\ x <> 78%N).
  { intros x Hx. apply (in_drop_underscores _ _ _ _ Ht), in_c_strip in Hx.
    apply in_map_iff in Hx. destruct Hx as (c & <- & Hc).
    now apply classe_montant_to_ascii, Hs. }
  destruct (parse_float_literal t) as [v' | ] eqn:Hv; [ | discriminate ].
  intros H. injection H as <-.
  destruct (parse_float_literal_sign t v' Hv) as [-> | Hsign].
  - apply parse_float_literal_nan in Hv. destruct Hv as (c & Hc & Hn).
    destruct (Hin c Hc) as (_ & H1 & H2). destruct Hn; contradiction.
  - rewrite parse_sign_no_minus in Hsign; [ exact Hsign | ].
    intros H45. now destruct (Hin _ H45) as [H _].
Qed.

Lemma matches_plus_cls (p : codepoint -> bool) s cs s1 c1 :
  matches (Re.Plus (Re.Cls p)) s cs s1 c1 ->
  exists ws, s = ws ++ s1 /\ Forall (fun c => p c = true) ws.
Proof.
  unfold Re.Plus. intros H. inv H.
  match goal with H : matches (Re.Cls _) _ _ _ _ |- _ => inv H end.
  match goal with H : matches (Re.Star _) _ _ _ _ |- _ =>
    apply (matches_star_cls p) in H; [ | reflexivity ];
    destruct H as (ws & -> & Hws) end.
  exists (c :: ws). split; [ reflexivity | now constructor ].
Qed.

(** The first group of the extractor's pattern holds characters of its
    class only. *)
Lemma search_unitaire_group1 (texte : str) (m : Re.captures) :
  Re.search re_unitaire texte = Some m ->
  Forall (fun c => classe_montant c = true) (Re.group m 1).
Proof.
  intros H. apply search_sound in H. destruct H as (pre & s0 & s1 & -> & Hm).
  unfold re_unitaire in Hm.
  inv Hm.
  match goal with H : matches (Re.Grp 1 _) _ _ _ _ |- _ => inv H end.
  match goal with H : matches (Re.Plus _) _ _ _ _ |- _ =>
    pose proof (matches_no_group _ _ _ _ _ H eq_refl) as Hc1;
    apply matches_plus_cls in H; destruct H as (g1 & -> & Hg1) end.
  subst. rewrite consumed_app in *.
  repeat match goal with H : matches (Re.Cat _ _) _ _ _ _ |- _ => inv H end.
  repeat match goal with
         | H : matches (Re.Chr _) _ _ _ _ |- _ =>
           apply matches_no_group in H; [ subst | reflexivity ]
         | H : matches (Re.Star _) _ _ _ _ |- _ =>
           apply matches_no_group in H; [ subst | reflexivity ]
         | H : matches (Re.Opt _) _ _ _ _ |- _ =>
           apply matches_no_group in H; [ subst | reflexivity ]
         end.
  match goal with H : matches (Re.Grp 2 _) _ _ _ _ |- _ => inv H end.
  match goal with H : matches (Re.Alt _ _) _ _ _ _ |- _ =>
    apply matches_unit_token in H; destruct H as (-> & _) end.
  exact Hg1.
Qed.


Lemma valeur_str_classe (texte : str) (m : Re.captures) :
  Re.search re_unitaire texte = Some m ->
  Forall (fun c => classe_montant c = true) (valeur_str_de m).
Proof.
  intros Hm. apply search_unitaire_group1 in Hm.
  rewrite Forall_forall in Hm. apply Forall_forall. intros c Hc.
  unfold valeur_str_de in Hc. apply in_strip, in_replace in Hc.
  destruct Hc as [Hc | []].
  apply in_replace in Hc. destruct Hc as [Hc | [<- | []]];
    [ now apply Hm | reflexivity ].
Qed.

Lemma boucle_prix_blocs_sign (prix_blocs : list (list str)) :
  forall v0 u0 t0 v u t,
    has_sign false v0 ->
    boucle_prix_blocs prix_blocs (v0, u0, t0) = inr (v, u, t) ->
    has_sign false v.
Proof.
  induction prix_blocs as [ | span suite IH]; intros v0 u0 t0 v u t H0.
  - cbn. intros H. injection H as <- <- <-. exact H0.
  - cbn [boucle_prix_blocs].
    destruct (Re.search re_unitaire (get_text_strip span)) as [m | ] eqn:Hm;
      [ | now apply IH ].
    cbv zeta. destruct (float_of_str (valeur_str_de m)) as [e | x] eqn:Hf.
    + rewrite (float_of_str_raises _ _ Hf).
      cbn [rbind try_except existsb exception_eqb orb]. now apply IH.
    + cbn. intros H. injection H as <- <- <-.
      eapply float_of_str_montant; [ | exact Hf ].
      eapply valeur_str_classe; eauto.
Qed.

Lemma f_mul_sign (x y : float) :
  f_ltb f_zero x = true -> f_ltb f_zero y = true ->
  has_sign false (f_mul x y).
Proof.
  intros Hx Hy.
  destruct (f_pos_inv x Hx) as [-> | (mx & ex & ->)];
    destruct (f_pos_inv y Hy) as [-> | (my & ey & ->)]; try reflexivity.
  unfold f_mul. cbn [SFmul xorb]. apply binary_round_aux_sign. lia.
Qed.

Lemma has_sign_pos (x : float) :
  has_sign false x -> f_leb x f_zero = false -> f_ltb f_zero x = true.
Proof.
  destruct x as [s | s | | s m e]; cbn; intros H; subst; auto; try contradiction.
Qed.

Lemma calculer_prix_au_kg_direct_sign (valeur : float) (unite : str) :
  has_sign false valeur ->
  has_sign false (calculer_prix_au_kg_direct valeur unite).
Proof.
  intros Hv. unfold calculer_prix_au_kg_direct.
  destruct (f_leb valeur f_zero) eqn:Hle; [ reflexivity | ].
  destruct (str_eqb _ (py "kg")); [ exact Hv | ].
  destruct (str_eqb _ (py "100g")); [ | reflexivity ].
  apply f_mul_sign; [ now apply has_sign_pos | reflexivity ].
Qed.

(** X4.  The price [_extraire_prix_unitaire_amazon] returns is never
    negative and never NaN ([0.0], a positive float or [+inf]): the pattern
    lets no sign and no letter into the amount.  So is the price per
    kilogram the Direct Normalizer makes of it. *)
Theorem extraire_prix_unitaire_sign :
  forall produit : Tag,
    exists v u t,
      _extraire_prix_unitaire_amazon produit = inr (v, u, t) /\
      has_sign false v /\
      has_sign false (calculer_prix_au_kg_direct v u).
Proof.
  intros produit.
  destruct (extraire_prix_unitaire_returns produit) as (v & u & t & Hex).
  exists v, u, t. split; [ exact Hex | ].
  assert (Hv : has_sign false v).
  { unfold _extraire_prix_unitaire_amazon in Hex.
    eapply boucle_prix_blocs_sign; [ | exact Hex ]. reflexivity. }
  split; [ exact Hv | now apply calculer_prix_au_kg_direct_sign ].
Qed.

(** ** What the run collects *)

Lemma traiter_produit_fidele (produit : Tag) (id : str) (w : world) (r : ref) :
  snd (_traiter_produit produit id w) = inr r ->
  exists o,
    objets (fst (_traiter_produit produit id w)) = objets w ++ [o] /\
    r = length (objets w) /\
    id_produit o = id /\ fidele produit o /\ rederivable o.
Proof.
  rewrite traiter_produit_run. cbv zeta.
  destruct (_extraire_prix_unitaire_amazon produit) as [e | [[v u] t]] eqn:Hex;
    [ discriminate | ].
  destruct (f_ltb f_zero (calculer_prix_au_kg_direct v u)) eqn:Hd;
    [ | destruct (calculer_prix_par_format _ _) as [e | p] eqn:Hp;
        [ discriminate | destruct (f_ltb f_zero p) eqn:Hpos ] ];
    cbn [fst snd objets]; intros H; injection H as <-;
    eexists; (split; [ reflexivity | ]); (split; [ reflexivity | ]);
    (split; [ reflexivity | ]);
    (split; [ repeat split; exact Hex | ]);
    unfold rederivable; cbv zeta;
    cbn [prix_unitaire_valeur_amazon prix_unitaire_unite_amazon prix_unitaire_kg
         source_prix_kg prix_total_str titre set_source_prix_kg
         set_prix_unitaire_kg set_prix_unitaire_texte_amazon
         set_prix_unitaire_unite_amazon set_prix_unitaire_valeur_amazon
         new_ProduitAmazon];
    rewrite Hd.
  - split; reflexivity.
  - exists p. split; [ exact Hp | ]. rewrite Hpos. split; reflexivity.
  - exists p. split; [ exact Hp | ]. rewrite Hpos. split; reflexivity.
Qed.

Lemma boucle_produits_collecte (produits : list Tag) :
  forall (i base : nat) (acc : list ref) (w : world),
  exists w' (news : list (nat * ref)),
    boucle_produits produits i base acc w = (w', inr (acc ++ map snd news)) /\
    extends w w' /\
    Forall (fun kr =>
              (i <= fst kr)%nat /\
              exists o produit,
                deref w' (snd kr) = Some o /\
                nth_error produits (fst kr - i) = Some produit /\
                id_produit o
                = (py "R" ++ str_of_nat (base + fst kr + 1))%list /\
                fidele produit o /\ rederivable o)
           news /\
    (Forall aboutit produits -> map fst news = seq i (length produits)).
Proof.
  induction produits as [ | produit suite IH]; intros i base acc w.
  - exists w, []. cbn. rewrite app_nil_r.
    repeat split; auto using extends_refl.
  - cbn [boucle_produits].
    set (id := (py "R" ++ str_of_nat (base + i + 1))%list).
    destruct (traiter_produit_post produit id w) as (o & Hobj & _).
    pose proof (traiter_produit_fidele produit id w) as Hfid.
    assert (Hab : aboutit produit ->
                  exists r, snd (_traiter_produit produit id w) = inr r).
    { intros H. apply H. }
    destruct (_traiter_produit produit id w) as [w1 [e | r]]; cbn [fst snd] in *.
    + destruct (IH (S i) base acc w1) as (w' & news & Hrun & Hext & Hnews & Hall).
      exists w', news. rewrite Hrun. repeat split.
      * eapply extends_trans; [ | exact Hext ]. now exists [o].
      * eapply Forall_impl; [ | exact Hnews ].
        intros [k r] [Hle (o' & p' & H1 & H2 & H3)]; cbn [fst snd] in *.
        split; [ lia | ]. exists o', p'.
        split; [ exact H1 | split; [ | exact H3 ] ].
        replace (k - i)%nat with (S (k - S i)) by lia. exact H2.
      * intros Hf. inversion Hf as [ | ? ? Hp Hs]; subst.
        destruct (Hab Hp) as [r Hr]. discriminate Hr.
    + destruct (Hfid r eq_refl) as (o1 & Hobj1 & -> & Hid & Hfi & Hre).
      destruct (IH (S i) base (acc ++ [length (objets w)]) w1)
        as (w' & news & Hrun & Hext & Hnews & Hall).
      exists w', ((i, length (objets w)) :: news).
      split; [ etransitivity; [ exact Hrun | ];
               cbn [map snd]; now rewrite <- app_assoc | ].
      repeat split.
      * eapply extends_trans; [ | exact Hext ]. now exists [o].
      * constructor.
        -- cbn [fst snd]. split; [ lia | ]. exists o1, produit.
           split; [ | split; [ | split; [ exact Hid | now split ] ] ].
           ++ eapply extends_deref; [ exact Hext | ].
              unfold deref. rewrite Hobj1. apply nth_error_app_last.
           ++ now rewrite Nat.sub_diag.
        -- eapply Forall_impl; [ | exact Hnews ].
           intros [k r] [Hle (o' & p' & H1 & H2 & H3)]; cbn [fst snd] in *.
           split; [ lia | ]. exists o', p'.
           split; [ exact H1 | split; [ | exact H3 ] ].
           replace (k - i)%nat with (S (k - S i)) by lia. exact H2.
      * intros Hf. inversion Hf as [ | ? ? Hp Hs]; subst.
        cbn [map fst length seq]. now rewrite (Hall Hs).
Qed.

Lemma extraire_donnees_page_collecte (produits : list Tag) (row_num_base : nat)
    (w : world) :
  exists w' (news : list (nat * ref)),
    extraire_donnees_page produits row_num_base w = (w', inr (map snd news)) /\
    extends w w' /\
    Forall (collecte_fidele w' produits row_num_base) news /\
    (Forall aboutit produits -> map fst news = seq 0 (length produits)).
Proof.
  destruct (boucle_produits_collecte produits 0 row_num_base [] w)
    as (w' & news & Hrun & Hext & Hnews & Hall).
  exists w', news. repeat split; auto.
  eapply Forall_impl; [ | exact Hnews ].
  intros [k r] [_ (o & p & H1 & H2 & H3)]; cbn [fst snd] in *.
  exists o, p. rewrite Nat.sub_0_r in H2. cbn [fst snd]. tauto.
Qed.

Lemma collecte_fidele_extends (w w' : world) (produits : list Tag)
    (offset : nat) (kr : nat * ref) :
  extends w w' ->
  collecte_fidele w produits offset kr -> collecte_fidele w' produits offset kr.
Proof.
  intros He (o & p & H1 & H2). exists o, p. split; [ | exact H2 ].
  eapply extends_deref; eauto.
Qed.

Lemma boucle_pages_collecte (web : nat -> result (list Tag))
    (page_nums : list nat) :
  forall (acc : list ref) (current_row : nat) (w : world),
  exists w' (pages : list (list (nat * ref))),
    boucle_pages web page_nums acc current_row w
    = (w', inr (acc ++ refs_of pages)) /\
    extends w w' /\
    forall p page,
      nth_error pages p = Some page ->
      exists page_num produits,
        nth_error page_nums p = Some page_num /\
        web page_num = inr produits /\
        Forall (collecte_fidele w' produits
                  (current_row + length (refs_of (firstn p pages)))) page /\
        (Forall aboutit produits -> map fst page = seq 0 (length produits)).
Proof.
  induction page_nums as [ | page_num suite IH]; intros acc current_row w.
  - exists w, []. cbn. rewrite app_nil_r.
    repeat split; auto using extends_refl.
    intros [ | p] page H; discriminate H.
  - cbn [boucle_pages]. destruct (web page_num) as [e | produits] eqn:Hweb.
    + exists w, []. cbn. rewrite app_nil_r.
      repeat split; auto using extends_refl.
      intros [ | p] page H; discriminate H.
    + destruct (extraire_donnees_page_collecte produits current_row w)
        as (w1 & news & Hrun & Hext1 & Hnews & Hall1).
      rewrite Hrun.
      destruct (IH (acc ++ map snd news)
                   (current_row + length (map snd news))%nat w1)
        as (w' & pages & Hloop & Hext & Hpages).
      exists w', (news :: pages). repeat split.
      * etransitivity; [ exact Hloop | ].
        unfold refs_of. cbn [map concat]. now rewrite <- app_assoc.
      * eapply extends_trans; eauto.
      * intros [ | p] page Hp; cbn [nth_error] in Hp.
        -- injection Hp as <-. exists page_num, produits.
           repeat split; auto.
           eapply Forall_impl; [ | exact Hnews ].
           intros kr H. cbn [firstn refs_of map concat length].
           rewrite Nat.add_0_r. eapply collecte_fidele_extends; eauto.
        -- destruct (Hpages p page Hp) as (pn & prods & H1 & H2 & H3 & H4).
           exists pn, prods. repeat split; auto.
           eapply Forall_impl; [ | exact H3 ].
           intros kr H.
           unfold refs_of in *. cbn [firstn map concat].
           rewrite length_app, Nat.add_assoc. exact H.
Qed.

Lemma main_collecte (web : nat -> result (list Tag)) (w : world) :
  exists w' (pages : list (list (nat * ref))) (tries : list ref),
    main web w = (w', inr (refs_of pages, tries)) /\
    extends w w' /\
    Forall (live w') (refs_of pages) /\
    nettoyer_et_trier_resultats (refs_of pages) w' = (w', inr tries) /\
    forall p page,
      nth_error pages p = Some page ->
      exists produits,
        (S p <= MAX_PAGES)%nat /\
        web (S p) = inr produits /\
        Forall (collecte_fidele w' produits (length (refs_of (firstn p pages))))
               page /\
        (Forall aboutit produits -> map fst page = seq 0 (length produits)).
Proof.
  destruct (boucle_pages_collecte web (seq 1 MAX_PAGES) [] 0%nat w)
    as (w' & pages & Hloop & Hext & Hpages).
  cbn [app] in Hloop.
  assert (Hlive : Forall (live w') (refs_of pages)).
  { apply Forall_forall. intros r Hr. unfold refs_of in Hr.
    apply in_concat in Hr. destruct Hr as (l & Hl & Hr).
    apply in_map_iff in Hl. destruct Hl as (page & <- & Hpage).
    apply in_map_iff in Hr. destruct Hr as ([k r'] & <- & Hkr).
    apply In_nth_error in Hpage. destruct Hpage as [p Hp].
    destruct (Hpages p page Hp) as (pn & prods & _ & _ & Hall & _).
    rewrite Forall_forall in Hall.
    destruct (Hall _ Hkr) as (o & _ & Ho & _). now exists o. }
  destruct (nettoyer_sorted_stable (refs_of pages) w') as (tries & Htri & _).
  { now apply Forall_forall. }
  exists w', pages, tries. repeat split; auto.
  - unfold main, mbind. rewrite Hloop, Htri. reflexivity.
  - intros p page Hp.
    destruct (Hpages p page Hp) as (pn & prods & H1 & H2 & H3 & H4).
    pose proof (nth_error_seq _ _ _ _ H1) as ->.
    assert (Hlt : (p < length (seq 1 MAX_PAGES))%nat).
    { apply nth_error_Some. congruence. }
    rewrite length_seq in Hlt.
    exists prods. repeat split; auto.
Qed.

(** X5.  Every listing [main] collects was built from a product block of one
    of the pages 1 to [MAX_PAGES]: it carries the block's title, link and
    price text and the annotation the extractor reads in the block, and its
    price and source are the ones its own fields give: the Direct
    Normalizer's price on the stored annotation with source
    ["Amazon (Direct)"] when that price is [> 0]; else the Pack-Size
    Normalizer's price on the stored price text and title, with source
    ["Calculé (NxG)"] when it is [> 0], and [0.0] with ["N/A"] when it is
    not.  The ranked listings are among the collected ones. *)
Theorem main_listings_rederivable :
  forall (web : nat -> result (list Tag)) (w : world),
  exists w' total tries,
    main web w = (w', inr (total, tries)) /\
    (forall r, In r tries -> In r total) /\
    forall r, In r total ->
      exists o page_num produits produit,
        deref w' r = Some o /\
        (1 <= page_num <= MAX_PAGES)%nat /\
        web page_num = inr produits /\ In produit produits /\
        fidele produit o /\ rederivable o.
Proof.
  intros web w.
  destruct (main_collecte web w)
    as (w' & pages & tries & Hmain & _ & Hlive & Htri & Hpages).
  exists w', (refs_of pages), tries. split; [ exact Hmain | ]. split.
  - destruct (ranking_filter_frame_aux (refs_of pages) w') as (t' & Ht & Hin).
    { now apply Forall_forall. }
    rewrite Htri in Ht. injection Ht as <-. exact Hin.
  - intros r Hr. unfold refs_of in Hr.
    apply in_concat in Hr. destruct Hr as (l & Hl & Hr).
    apply in_map_iff in Hl. destruct Hl as (page & <- & Hpage).
    apply in_map_iff in Hr. destruct Hr as ([k r'] & <- & Hkr).
    apply In_nth_error in Hpage. destruct Hpage as [p Hp].
    destruct (Hpages p page Hp) as (prods & Hle & Hweb & Hall & _).
    rewrite Forall_forall in Hall.
    destruct (Hall _ Hkr) as (o & produit & Ho & Hn & _ & Hfi & Hre).
    exists o, (S p), prods, produit. cbn [fst snd] in *.
    split; [ exact Ho | ]. split; [ lia | ]. split; [ exact Hweb | ].
    split; [ eapply nth_error_In; eauto | ]. now split.
Qed.

(** ** Identifiers when no block is skipped *)










(** ** The pages [main] reads *)

Lemma boucle_pages_meme (web web' : nat -> result (list Tag)) (n : nat) :
  forall (s : nat) (acc : list ref) (row : nat) (w : world),
    (forall p, (s <= p < s + n)%nat ->
               (forall q, (s <= q < p)%nat -> exists l, web q = inr l) ->
               meme_page (web p) (web' p)) ->
    boucle_pages web (seq s n) acc row w = boucle_pages web' (seq s n) acc row w.
Proof.
  induction n as [ | n IH]; intros s acc row w H; [ reflexivity | ].
  cbn [seq boucle_pages].
  assert (H0 : meme_page (web s) (web' s)).
  { apply H; [ lia | ]. intros q Hq. lia. }
  unfold meme_page in H0.
  destruct (web s) as [e | produits] eqn:Hs, (web' s) as [e' | produits'];
    try contradiction; [ reflexivity | ].
  subst produits'.
  destruct (extraire_donnees_page produits row w) as [w1 [e | res]];
    [ reflexivity | ].
  apply IH. intros p Hp Hq. apply H; [ lia | ].
  intros q Hq'. destruct (Nat.eq_dec q s) as [-> | Hne].
  - now exists produits.
  - apply Hq. lia.
Qed.

(** X7.  [main] reads the pages 1, 2, ... in order, at most [MAX_PAGES] of
    them, and nothing after the first page that fails: two webs that give
    the same product blocks on these pages, and fail on the same page with
    whatever exception, give the same run. *)
Theorem main_pages_consultees :
  forall (web web' : nat -> result (list Tag)) (w : world),
    (forall p, (1 <= p <= MAX_PAGES)%nat ->
               (forall q, (1 <= q < p)%nat -> exists l, web q = inr l) ->
               meme_page (web p) (web' p)) ->
    main web w = main web' w.
Proof.
  intros web web' w H. unfold main, mbind.
  rewrite (boucle_pages_meme web web' MAX_PAGES 1 [] 0 w); [ reflexivity | ].
  intros p Hp Hq. apply H; [ lia | exact Hq ].
Qed.

Lemma main_pages_consultees_witness :
  main web_exemple empty_world = main web_exemple_bis empty_world.
Proof.
  apply main_pages_consultees.
  intros [ | [ | [ | [ | p]]]] Hp Hq; unfold MAX_PAGES in Hp; cbn;
    try lia; try reflexivity.
Defined.

(** ** Ranking a ranked list *)

(** X8.  Ranking is idempotent: on the list [nettoyer_et_trier_resultats]
    returns, it returns that list again. *)
Theorem nettoyer_et_trier_idempotent :
  forall (l : list ref) (w : world),
    (forall r, In r l -> live w r) ->
    exists tries,
      nettoyer_et_trier_resultats l w = (w, inr tries) /\
      nettoyer_et_trier_resultats tries w = (w, inr tries).
Proof.
  intros l w Hl.
  destruct (nettoyer_sorted_stable l w Hl) as (tries & Hrun & Hperm & Hsort & Hst).
  exists tries. split; [ exact Hrun | ].
  assert (Hpos : filter (prix_positif w) tries = tries).
  { apply forallb_filter_id. apply forallb_forall. intros r Hr.
    eapply Permutation_in in Hr; [ | exact Hperm ].
    apply filter_In in Hr. apply Hr. }
  apply ranking_filter_unique.
  - intros r Hr. apply Hl.
    eapply Permutation_in in Hr; [ | exact Hperm ].
    apply filter_In in Hr. apply Hr.
  - now rewrite Hpos.
  - exact Hsort.
  - intros k. now rewrite Hpos.
Qed.

Lemma nettoyer_et_trier_idempotent_witness :
  exists tries,
    nettoyer_et_trier_resultats [0; 1; 2; 3; 4]%nat world_exemple
    = (world_exemple, inr tries) /\
    nettoyer_et_trier_resultats tries world_exemple
    = (world_exemple, inr tries).
Proof.
  apply nettoyer_et_trier_idempotent.
  intros r [<- | [<- | [<- | [<- | [<- | []]]]]]; eexists; reflexivity.
Defined.

(** ** Writing a CSV text and reading it back *)

Lemma csv_run_app (st : csv_state) (a b : str) :
  csv_run st (a ++ b) = csv_run (csv_run st a) b.
Proof. unfold csv_run. apply fold_left_app. Qed.

Lemma csv_special_false (c : codepoint) :
  csv_special c = false ->
  (c =? 34)%N = false /\ (c =? chr ";")%N = false /\
  (c =? 13)%N = false /\ (c =? 10)%N = false.
Proof.
  unfold csv_special. intros H.
  repeat (apply orb_false_iff in H; destruct H as [H ?]). auto.
Qed.

(** A field without special character, read where a field can start or
    inside an unquoted field. *)
Lemma csv_run_plain (f : str) :
  forall (R : list (list str)) (F : list str) (acc : str) (m : csv_mode),
    existsb csv_special f = false ->
    m = AtStart \/ m = InUnquoted ->
    f <> [] ->
    csv_run {| cs_records := R; cs_fields := F; cs_field := acc; cs_mode := m |} f
    = {| cs_records := R; cs_fields := F; cs_field := rev f ++ acc;
         cs_mode := InUnquoted |}.
Proof.
  induction f as [ | c f IH]; intros R F acc m Hs Hm Hne; [ congruence | ].
  cbn [existsb] in Hs. apply orb_false_iff in Hs. destruct Hs as [Hc Hs].
  destruct (csv_special_false c Hc) as (H1 & H2 & H3 & H4).
  assert (Hstep : csv_step {| cs_records := R; cs_fields := F; cs_field := acc;
                              cs_mode := m |} c
                  = {| cs_records := R; cs_fields := F; cs_field := c :: acc;
                       cs_mode := InUnquoted |}).
  { destruct Hm as [-> | ->]; unfold csv_step, csv_step_start; cbn [cs_mode];
      rewrite ?H1, H2, H3, H4; reflexivity. }
  unfold csv_run in *. cbn [fold_left]. rewrite Hstep.
  destruct f as [ | c' f'].
  - reflexivity.
  - rewrite IH; [ | exact Hs | now right | discriminate ].
    cbn [rev]. now rewrite <- !app_assoc.
Qed.

Lemma csv_run_cons (st : csv_state) (c : codepoint) (l : str) :
  csv_run st (c :: l) = csv_run (csv_step st c) l.
Proof. reflexivity. Qed.

Lemma csv_step_quoted (R : list (list str)) (F : list str) (acc : str)
    (c : codepoint) :
  (c =? 34)%N = false ->
  csv_step {| cs_records := R; cs_fields := F; cs_field := acc;
              cs_mode := InQuoted |} c
  = {| cs_records := R; cs_fields := F; cs_field := c :: acc;
       cs_mode := InQuoted |}.
Proof. intros H. unfold csv_step. cbn [cs_mode]. now rewrite H. Qed.

Lemma csv_step_quote_quote (R : list (list str)) (F : list str) (acc : str) :
  csv_step (csv_step {| cs_records := R; cs_fields := F; cs_field := acc;
                        cs_mode := InQuoted |} 34%N) 34%N
  = {| cs_records := R; cs_fields := F; cs_field := 34%N :: acc;
       cs_mode := InQuoted |}.
Proof. reflexivity. Qed.

(** The inside of a quoted field. *)
Lemma csv_run_quoted (f : str) :
  forall (R : list (list str)) (F : list str) (acc : str),
    csv_run {| cs_records := R; cs_fields := F; cs_field := acc;
               cs_mode := InQuoted |}
            (replace 34%N [34%N; 34%N] f)
    = {| cs_records := R; cs_fields := F; cs_field := rev f ++ acc;
         cs_mode := InQuoted |}.
Proof.
  induction f as [ | c f IH]; intros R F acc; [ reflexivity | ].
  cbn [replace]. destruct (c =? 34)%N eqn:Hc.
  - apply N.eqb_eq in Hc. subst c. cbn [app].
    rewrite !csv_run_cons, csv_step_quote_quote, IH.
    cbn [rev]. now rewrite <- app_assoc.
  - rewrite csv_run_cons, csv_step_quoted by exact Hc. rewrite IH.
    cbn [rev]. now rewrite <- app_assoc.
Qed.

(** A written field, read where a field can start. *)
Lemma csv_run_field (f : str) (R : list (list str)) (F : list str) :
  csv_run {| cs_records := R; cs_fields := F; cs_field := [];
             cs_mode := AtStart |} (csv_field f)
  = {| cs_records := R; cs_fields := F; cs_field := rev f;
       cs_mode := mode_apres f |}.
Proof.
  unfold csv_field, mode_apres. destruct (existsb csv_special f) eqn:Hs.
  - change (34%N :: replace 34%N [34%N; 34%N] f ++ [34%N])
      with ([34%N] ++ replace 34%N [34%N; 34%N] f ++ [34%N]).
    rewrite !csv_run_app.
    change (csv_run {| cs_records := R; cs_fields := F; cs_field := [];
                       cs_mode := AtStart |} [34%N])
      with {| cs_records := R; cs_fields := F; cs_field := [];
              cs_mode := InQuoted |}.
    rewrite csv_run_quoted, app_nil_r. reflexivity.
  - destruct f as [ | c f]; [ reflexivity | ].
    rewrite csv_run_plain; [ | exact Hs | now left | discriminate ].
    now rewrite app_nil_r.
Qed.

(** The delimiter after a written field closes it. *)
Lemma csv_step_delimiter (f : str) (R : list (list str)) (F : list str) :
  csv_step {| cs_records := R; cs_fields := F; cs_field := rev f;
              cs_mode := mode_apres f |} (chr ";")
  = {| cs_records := R; cs_fields := f :: F; cs_field := [];
       cs_mode := AtStart |}.
Proof.
  unfold mode_apres.
  destruct (existsb csv_special f); [ | destruct f as [ | c f] ];
    unfold csv_step, csv_step_start, csv_end_field;
    cbn [cs_mode cs_records cs_fields cs_field];
    change ((chr ";" =? 34)%N) with false;
    change ((chr ";" =? chr ";")%N) with true; cbv iota;
    now rewrite ?rev_involutive.
Qed.

(** The end of line after the last written field closes the record. *)
Lemma csv_run_eol (f : str) (R : list (list str)) (F : list str) :
  F <> [] \/ f <> [] \/ existsb csv_special f = true ->
  csv_run {| cs_records := R; cs_fields := F; cs_field := rev f;
             cs_mode := mode_apres f |} [13%N; 10%N]
  = {| cs_records := (rev F ++ [f]) :: R; cs_fields := []; cs_field := [];
       cs_mode := AtStart |}.
Proof.
  intros H. unfold mode_apres in *.
  destruct (existsb csv_special f) eqn:Hs; [ | destruct f as [ | c f] ].
  - unfold csv_run. cbn [fold_left]. unfold csv_step at 2. cbn [cs_mode].
    change ((13 =? 34)%N) with false. change ((13 =? chr ";")%N) with false.
    change ((13 =? 13)%N) with true. cbv iota.
    unfold csv_end_record. cbn [cs_records cs_fields cs_field].
    rewrite rev_involutive. reflexivity.
  - destruct F as [ | f0 F];
      [ destruct H as [H | [H | H]]; congruence | ].
    reflexivity.
  - unfold csv_run. cbn [fold_left]. unfold csv_step at 2. cbn [cs_mode].
    remember (c :: f) as g.
    change ((13 =? chr ";")%N) with false.
    change ((13 =? 13)%N) with true. cbv iota.
    unfold csv_end_record. cbn [cs_records cs_fields cs_field].
    rewrite rev_involutive. reflexivity.
Qed.

Lemma csv_run_join (r : list str) :
  forall (f : str) (R : list (list str)) (F : list str),
    F <> [] \/ r <> [] \/ f <> [] ->
    csv_run {| cs_records := R; cs_fields := F; cs_field := [];
               cs_mode := AtStart |}
            (csv_join (map csv_field (f :: r)) ++ [13%N; 10%N])
    = {| cs_records := (rev F ++ f :: r) :: R; cs_fields := [];
         cs_field := []; cs_mode := AtStart |}.
Proof.
  induction r as [ | f2 r IH]; intros f R F H.
  - cbn [map csv_join]. rewrite csv_run_app, csv_run_field.
    apply csv_run_eol. destruct H as [H | [H | H]]; [ now left | congruence | ].
    right. now left.
  - change (csv_join (map csv_field (f :: f2 :: r)))
      with (csv_field f ++ chr ";" :: csv_join (map csv_field (f2 :: r))).
    rewrite <- app_assoc, csv_run_app, csv_run_field.
    change ((chr ";" :: csv_join (map csv_field (f2 :: r))) ++ [13%N; 10%N])
      with ([chr ";"] ++ (csv_join (map csv_field (f2 :: r)) ++ [13%N; 10%N])).
    rewrite csv_run_app.
    change (csv_run ?st [chr ";"]) with (csv_step st (chr ";")).
    rewrite csv_step_delimiter, IH by (left; discriminate).
    cbn [rev]. now rewrite <- app_assoc.
Qed.

Lemma csv_run_row (row : list str) (R : list (list str)) :
  csv_run {| cs_records := R; cs_fields := []; cs_field := [];
             cs_mode := AtStart |} (csv_row row)
  = {| cs_records := row :: R; cs_fields := []; cs_field := [];
       cs_mode := AtStart |}.
Proof.
  destruct row as [ | f r]; [ reflexivity | ].
  destruct f as [ | c f].
  - destruct r as [ | f2 r]; [ reflexivity | ].
    unfold csv_row. rewrite csv_run_join; [ reflexivity | ].
    right. left. discriminate.
  - unfold csv_row. rewrite csv_run_join; [ reflexivity | ].
    right. right. discriminate.
Qed.

Lemma csv_run_rows (rows : list (list str)) :
  forall R : list (list str),
    csv_run {| cs_records := R; cs_fields := []; cs_field := [];
               cs_mode := AtStart |} (concat (map csv_row rows))
    = {| cs_records := rev rows ++ R; cs_fields := []; cs_field := [];
         cs_mode := AtStart |}.
Proof.
  induction rows as [ | row rows IH]; intros R; [ reflexivity | ].
  cbn [map concat]. rewrite csv_run_app, csv_run_row, IH.
  cbn [rev]. now rewrite <- app_assoc.
Qed.

(** Rows written one after the other read back as they were. *)
Lemma csv_read_rows (rows : list (list str)) :
  csv_read (concat (map csv_row rows)) = rows.
Proof.
  unfold csv_read, csv_init. rewrite csv_run_rows.
  cbn [cs_mode cs_fields cs_field cs_records].
  now rewrite app_nil_r, rev_involutive.
Qed.

(** ** The rows of the report *)

Lemma dict_set_prix_unitaire (a b c d e f g v : str) :
  dict_set COL_PRIX_UNITAIRE v
    [ (COL_ID, a); (COL_TITRE, b); (COL_PRIX_UNITAIRE, c); (COL_PRIX_TOTAL, d);
      (COL_SOURCE, e); (COL_TEXTE_AMAZON, f); (COL_UNITE_AMAZON, g) ]
  = [ (COL_ID, a); (COL_TITRE, b); (COL_PRIX_UNITAIRE, v); (COL_PRIX_TOTAL, d);
      (COL_SOURCE, e); (COL_TEXTE_AMAZON, f); (COL_UNITE_AMAZON, g) ].
Proof. reflexivity. Qed.

Lemma dict_set_prix_total (a b c d e f g v : str) :
  dict_set COL_PRIX_TOTAL v
    [ (COL_ID, a); (COL_TITRE, b); (COL_PRIX_UNITAIRE, c); (COL_PRIX_TOTAL, d);
      (COL_SOURCE, e); (COL_TEXTE_AMAZON, f); (COL_UNITE_AMAZON, g) ]
  = [ (COL_ID, a); (COL_TITRE, b); (COL_PRIX_UNITAIRE, c); (COL_PRIX_TOTAL, v);
      (COL_SOURCE, e); (COL_TEXTE_AMAZON, f); (COL_UNITE_AMAZON, g) ].
Proof. reflexivity. Qed.

Lemma dict_to_list_en_tete (a b c d e f g : str) :
  dict_to_list en_tete
    [ (COL_ID, a); (COL_TITRE, b); (COL_PRIX_UNITAIRE, c); (COL_PRIX_TOTAL, d);
      (COL_SOURCE, e); (COL_TEXTE_AMAZON, f); (COL_UNITE_AMAZON, g) ]
  = inr [a; b; c; d; e; f; g].
Proof. reflexivity. Qed.

(** [_preparer_ligne_csv] on a listing of the store. *)
Lemma preparer_ligne_run (r : ref) (w : world) (o : ProduitAmazon) :
  deref w r = Some o ->
  _preparer_ligne_csv r w = (w, inr (ligne_de o)).
Proof.
  unfold deref. intros Ho.
  destruct (nettoyer_prix_total_returns (prix_total_str o)) as [x Hx].
  unfold _preparer_ligne_csv, ligne_de, mbind, getattr, lift, mret, prix_fr.
  repeat (rewrite Ho; cbv beta iota). rewrite Hx.
  destruct (f_ltb f_zero (prix_unitaire_kg o)), (f_ltb f_zero x);
    rewrite ?dict_set_prix_unitaire, dict_set_prix_total; reflexivity.
Qed.

Lemma live_objects (l : list ref) (w : world) :
  (forall r, In r l -> live w r) ->
  exists os, Forall2 (fun r o => deref w r = Some o) l os.
Proof.
  induction l as [ | r l IH]; intros H.
  - exists []. constructor.
  - destruct (H r (or_introl eq_refl)) as [o Ho].
    destruct IH as [os Hos]; [ intros; apply H; now right | ].
    exists (o :: os). now constructor.
Qed.

Lemma preparer_lignes_run (l : list ref) (w : world) (os : list ProduitAmazon) :
  Forall2 (fun r o => deref w r = Some o) l os ->
  preparer_lignes l w = (w, inr (map ligne_de os)).
Proof.
  induction 1 as [ | r o l os Ho Hos IH]; [ reflexivity | ].
  cbn [preparer_lignes map]. unfold mbind.
  rewrite (preparer_ligne_run r w o Ho), IH. reflexivity.
Qed.

Lemma dict_to_list_ligne (o : ProduitAmazon) :
  dict_to_list en_tete (ligne_de o) = inr (map snd (ligne_de o)).
Proof. unfold ligne_de. apply dict_to_list_en_tete. Qed.

Lemma encodable_app (a b : str) :
  encodable (a ++ b) = encodable a && encodable b.
Proof. apply forallb_app. Qed.

Lemma encodable_replace_quote (f : str) :
  encodable (replace 34%N [34%N; 34%N] f) = encodable f.
Proof.
  induction f as [ | c f IH]; [ reflexivity | ].
  cbn [replace]. destruct (N.eqb_spec c 34) as [-> | Hne].
  - rewrite encodable_app, IH. reflexivity.
  - unfold encodable in *. cbn [forallb]. now rewrite IH.
Qed.

Lemma encodable_csv_field (f : str) : encodable (csv_field f) = encodable f.
Proof.
  unfold csv_field. destruct (existsb csv_special f); [ | reflexivity ].
  change (34%N :: replace 34%N [34%N; 34%N] f ++ [34%N])
    with ([34%N] ++ replace 34%N [34%N; 34%N] f ++ [34%N]).
  rewrite !encodable_app, encodable_replace_quote.
  change (encodable [34%N]) with true. cbn [andb]. apply andb_true_r.
Qed.

Lemma encodable_csv_join (fields : list str) :
  encodable (csv_join (map csv_field fields)) = forallb encodable fields.
Proof.
  induction fields as [ | f r IH]; [ reflexivity | ].
  destruct r as [ | f2 r].
  - cbn [map csv_join forallb]. rewrite encodable_csv_field.
    now rewrite andb_true_r.
  - change (csv_join (map csv_field (f :: f2 :: r)))
      with (csv_field f ++ [chr ";"] ++ csv_join (map csv_field (f2 :: r))).
    rewrite !encodable_app, encodable_csv_field, IH. reflexivity.
Qed.

(** A written row can be encoded exactly when its cells can. *)
Lemma encodable_csv_row (row : list str) :
  encodable (csv_row row) = forallb encodable row.
Proof.
  assert (H : forall fields,
             encodable (csv_join (map csv_field fields) ++ [13%N; 10%N])
             = forallb encodable fields).
  { intros fields. rewrite encodable_app, encodable_csv_join.
    apply andb_true_r. }
  unfold csv_row. destruct row as [ | [ | c f] [ | f2 r]];
    solve [ reflexivity | apply H ].
Qed.

Lemma rows_encodables_csv (rows : list (list str)) :
  forallb encodable (map csv_row rows) = rows_encodables rows.
Proof.
  unfold rows_encodables.
  induction rows as [ | row rows IH]; [ reflexivity | ].
  cbn [map forallb]. now rewrite encodable_csv_row, IH.
Qed.

Lemma ecrire_textes_returns (ext : exterieur) (nom : str) (textes : list str) :
  forall (h h' : list evenement) (u : unit),
    ecrire_textes ext nom textes h = (h', inr u) ->
    h' = h ++ map (Ev_write nom) textes /\
    forallb encodable textes = true.
Proof.
  induction textes as [ | t r IH]; intros h h' u; cbn [ecrire_textes].
  - intros H. injection H as <- _. now rewrite app_nil_r.
  - unfold file_write, faire.
    destruct (encodable t) eqn:Ht; [ | discriminate ].
    destruct (ext h (Ev_write nom t)); [ discriminate | ].
    intros H. apply IH in H. destruct H as [-> Hr].
    cbn [map forallb]. rewrite Ht, Hr.
    split; [ now rewrite <- app_assoc | reflexivity ].
Qed.

Lemma ecrire_textes_accueillant (ext : exterieur) (nom : str)
    (textes : list str) :
  accueillant ext -> forallb encodable textes = true ->
  forall h,
    ecrire_textes ext nom textes h
    = (h ++ map (Ev_write nom) textes, inr tt).
Proof.
  intros Hext. induction textes as [ | t r IH]; intros Hall h.
  - cbn. now rewrite app_nil_r.
  - cbn [forallb] in Hall. apply andb_true_iff in Hall. destruct Hall as [Ht Hr].
    cbn [ecrire_textes]. unfold file_write, faire. rewrite Ht, Hext.
    rewrite (IH Hr). cbn [map]. now rewrite <- app_assoc.
Qed.

Lemma ecrire_textes_surrogate (ext : exterieur) (nom : str)
    (textes : list str) :
  forallb encodable textes = false ->
  forall h, exists h' e, ecrire_textes ext nom textes h = (h', inl e).
Proof.
  induction textes as [ | t r IH]; intros Hall h; [ discriminate Hall | ].
  cbn [forallb] in Hall. cbn [ecrire_textes]. unfold file_write, faire.
  destruct (encodable t); [ | now eexists _, _ ].
  destruct (ext h (Ev_write nom t)); [ now eexists _, _ | ].
  apply IH. exact Hall.
Qed.

Lemma writerows_lignes (ext : exterieur) (nom : str) (os : list ProduitAmazon) :
  forall h,
    writerows ext nom en_tete (map ligne_de os) h
    = ecrire_textes ext nom
        (map csv_row (map (fun o => map snd (ligne_de o)) os)) h.
Proof.
  induction os as [ | o os IH]; intros h; [ reflexivity | ].
  cbn [writerows map ecrire_textes]. rewrite dict_to_list_ligne.
  destruct (file_write ext nom (csv_row (map snd (ligne_de o))) h)
    as [h' [e | u]]; [ reflexivity | apply IH ].
Qed.

Lemma bloc_csv (ext : exterieur) (nom : str) (os : list ProduitAmazon)
    (h : list evenement) :
  match file_write ext nom (csv_row en_tete) h with
  | (h2, inl e) => (h2, inl e)
  | (h2, inr _) => writerows ext nom en_tete (map ligne_de os) h2
  end
  = ecrire_textes ext nom
      (map csv_row (en_tete :: map (fun o => map snd (ligne_de o)) os)) h.
Proof.
  cbn [map ecrire_textes].
  destruct (file_write ext nom (csv_row en_tete) h) as [h2 [e | u]];
    [ reflexivity | apply writerows_lignes ].
Qed.

(** [ecrire_csv] on listings of the store. *)
Lemma ecrire_csv_run (ext : exterieur) (l : list ref) (nom : str) (w : world)
    (h : list evenement) (os : list ProduitAmazon) :
  l <> [] ->
  Forall2 (fun r o => deref w r = Some o) l os ->
  ecrire_csv ext l nom w h
  = match ext h (Ev_open nom) with
    | Some e => (w, h, inl e)
    | None =>
      let '(h2, bloc) :=
        ecrire_textes ext nom
          (map csv_row (en_tete :: map (fun o => map snd (ligne_de o)) os))
          (h ++ [Ev_open nom]) in
      match ext h2 (Ev_close nom) with
      | Some e => (w, h2, inl e)
      | None => (w, h2 ++ [Ev_close nom], bloc)
      end
    end.
Proof.
  intros Hne Hos. pose proof (preparer_lignes_run l w os Hos) as Hrun.
  destruct l as [ | r l]; [ congruence | ].
  unfold ecrire_csv. rewrite Hrun.
  inversion Hos as [ | ? o ? os' Ho Hos' ]; subst.
  cbn [map hd].
  change (dict_keys (ligne_de o)) with en_tete.
  change (ligne_de o :: map ligne_de os') with (map ligne_de (o :: os')).
  unfold faire at 1.
  destruct (ext h (Ev_open nom)) as [e | ]; [ reflexivity | ].
  rewrite bloc_csv.
  destruct (ecrire_textes ext nom _ (h ++ [Ev_open nom])) as [h2 bloc].
  unfold faire. destruct (ext h2 (Ev_close nom)); reflexivity.
Qed.

Lemma lignes_preparees (l : list ref) (w : world) (os : list ProduitAmazon) :
  Forall2 (fun r o => deref w r = Some o) l os ->
  Forall2 (fun r ligne =>
             _preparer_ligne_csv r w = (w, inr ligne) /\
             dict_keys ligne = en_tete)
          l (map ligne_de os).
Proof.
  induction 1 as [ | r o l os Ho Hos IH]; cbn [map]; constructor.
  - split; [ now apply preparer_ligne_run | reflexivity ].
  - exact IH.
Qed.

(** X9.  [ecrire_csv] on a non-empty list of listings, by what the outside
    does with the file.  The listings are left as they are.  When the file
    does not open, the exception of [open] leaves the function and nothing
    is written.  When a cell holds a surrogate, which UTF-8 cannot encode,
    the function raises.  When the function returns, it has opened the
    file, written the header and then, for each listing in order, the
    seven cells [_preparer_ligne_csv] prepares for it, and closed the file;
    read with the same delimiter, the text written gives these rows back,
    whatever other characters the cells hold (delimiters, quotes, line
    ends).  It does return when the outside takes every operation and no
    cell holds a surrogate. *)
Theorem ecrire_csv_relecture :
  forall (ext : exterieur) (produits_tries : list ref) (nom_fichier : str)
         (w : world) (h : list evenement)
         (w' : world) (h' : list evenement) (res : result unit),
    produits_tries <> [] ->
    (forall r, In r produits_tries -> live w r) ->
    ecrire_csv ext produits_tries nom_fichier w h = (w', h', res) ->
    exists lignes,
      Forall2 (fun r ligne =>
                 _preparer_ligne_csv r w = (w, inr ligne) /\
                 dict_keys ligne = en_tete)
              produits_tries lignes /\
      w' = w /\
      (forall e, ext h (Ev_open nom_fichier) = Some e ->
                 res = inl e /\ h' = h) /\
      (rows_encodables (map (map snd) lignes) = false ->
       exists e, res = inl e) /\
      (res = inr tt ->
       h' = h ++ fichier_ecrit nom_fichier (en_tete :: map (map snd) lignes) /\
       rows_encodables (map (map snd) lignes) = true /\
       csv_read (concat (map csv_row (en_tete :: map (map snd) lignes)))
       = en_tete :: map (map snd) lignes) /\
      (accueillant ext ->
       rows_encodables (map (map snd) lignes) = true ->
       res = inr tt).
Proof.
  intros ext l nom w h w' h' res Hne Hlive.
  destruct (live_objects l w Hlive) as [os Hos].
  rewrite (ecrire_csv_run ext l nom w h os Hne Hos).
  set (rows := map (fun o => map snd (ligne_de o)) os).
  assert (Hrows : map (map snd) (map ligne_de os) = rows).
  { unfold rows. now rewrite map_map. }
  assert (Henc : forallb encodable (map csv_row (en_tete :: rows))
                 = rows_encodables rows).
  { rewrite rows_encodables_csv. unfold rows_encodables. cbn [forallb].
    change (forallb encodable en_tete) with true. reflexivity. }
  intros Hrun. exists (map ligne_de os). rewrite Hrows.
  split; [ now apply lignes_preparees | ].
  destruct (ext h (Ev_open nom)) as [e0 | ] eqn:Hopen.
  { injection Hrun as <- <- <-. split; [ reflexivity | ].
    split; [ intros e He; injection He as <-; now split | ].
    split; [ intros _; now exists e0 | ].
    split; [ discriminate | ].
    intros Hacc. now rewrite Hacc in Hopen. }
  pose proof (ecrire_textes_returns ext nom (map csv_row (en_tete :: rows))
                (h ++ [Ev_open nom])) as Hret.
  pose proof (fun H => ecrire_textes_accueillant ext nom
                         (map csv_row (en_tete :: rows)) H) as Hacc.
  pose proof (ecrire_textes_surrogate ext nom (map csv_row (en_tete :: rows)))
    as Hsur.
  rewrite Henc in Hret, Hacc, Hsur.
  destruct (ecrire_textes ext nom (map csv_row (en_tete :: rows))
              (h ++ [Ev_open nom])) as [h2 bloc] eqn:Hbloc.
  assert (Hw : w' = w).
  { destruct (ext h2 (Ev_close nom)); now injection Hrun as <- _ _. }
  split; [ exact Hw | ]. split; [ discriminate | ].
  split; [ | split ].
  - intros Hno. destruct (Hsur Hno (h ++ [Ev_open nom])) as (h3 & e & He).
    rewrite Hbloc in He. injection He as _ ->.
    destruct (ext h2 (Ev_close nom)) as [e' | ]; injection Hrun as _ _ <-;
      eexists; reflexivity.
  - intros ->.
    destruct (ext h2 (Ev_close nom)) as [e' | ]; injection Hrun as _ <- Hb;
      [ discriminate Hb | ].
    subst bloc. destruct (Hret h2 tt eq_refl) as [-> Hall].
    split; [ | split; [ exact Hall | apply csv_read_rows ] ].
    unfold fichier_ecrit. rewrite <- !app_assoc. cbn [app].
    now rewrite map_map.
  - intros Hext Hall. specialize (Hacc Hext Hall (h ++ [Ev_open nom])).
    rewrite Hbloc in Hacc. injection Hacc as -> ->.
    rewrite Hext in Hrun. now injection Hrun as _ _ <-.
Qed.

Lemma ecrire_csv_relecture_witness :
  exists lignes,
    Forall2 (fun r ligne =>
               _preparer_ligne_csv r world_exemple
               = (world_exemple, inr ligne) /\
               dict_keys ligne = en_tete)
            [3; 4; 1]%nat lignes /\
    csv_read (concat (map csv_row (en_tete :: map (map snd) lignes)))
    = en_tete :: map (map snd) lignes.
Proof.
  destruct (ecrire_csv_relecture tout_accepter [3; 4; 1]%nat NOM_FICHIER_CSV
              world_exemple []
              (fst (fst (ecrire_csv tout_accepter [3; 4; 1]%nat
                           NOM_FICHIER_CSV world_exemple [])))
              (snd (fst (ecrire_csv tout_accepter [3; 4; 1]%nat
                           NOM_FICHIER_CSV world_exemple [])))
              (inr tt))
    as (lignes & Hl & _ & _ & _ & Hret & _).
  - discriminate.
  - intros r [<- | [<- | [<- | []]]]; eexists; reflexivity.
  - vm_compute. reflexivity.
  - exists lignes. split; [ exact Hl | ]. now apply Hret.
Defined.

(** ** Prices in the report *)

Lemma digits_of_uint_all_digits (d : Decimal.uint) :
  all_digits (digits_of_uint d).
Proof.
  unfold all_digits. induction d; cbn [digits_of_uint]; constructor;
    solve [ reflexivity | assumption ].
Qed.

Lemma Z_of_digits_uint_acc (d : Decimal.uint) :
  forall acc : positive,
    fold_left (fun a c => 10 * a + (Z.of_N c - 48)) (digits_of_uint d) (Zpos acc)
    = Zpos (Pos.of_uint_acc d acc).
Proof.
  induction d as [ | d IH | d IH | d IH | d IH | d IH | d IH
                   | d IH | d IH | d IH | d IH]; intros acc;
    cbn [digits_of_uint fold_left Pos.of_uint_acc];
    [ reflexivity | rewrite <- IH; f_equal; lia .. ].
Qed.

Lemma Z_of_digits_uint (d : Decimal.uint) :
  Z_of_digits (digits_of_uint d) = Z.of_N (Pos.of_uint d).
Proof.
  unfold Z_of_digits.
  induction d as [ | d IH | d IH | d IH | d IH | d IH | d IH
                   | d IH | d IH | d IH | d IH];
    cbn [digits_of_uint fold_left Pos.of_uint];
    [ reflexivity | exact IH | apply Z_of_digits_uint_acc .. ].
Qed.

Lemma Z_of_digits_str_of_N (n : N) : Z_of_digits (str_of_N n) = Z.of_N n.
Proof.
  unfold str_of_N. rewrite Z_of_digits_uint.
  change (Pos.of_uint (N.to_uint n)) with (N.of_uint (N.to_uint n)).
  now rewrite DecimalN.Unsigned.of_to.
Qed.

Lemma str_of_N_nonempty (n : N) : str_of_N n <> [].
Proof.
  unfold str_of_N. intros H.
  assert (Hnil : N.to_uint n = Decimal.Nil).
  { destruct (N.to_uint n); cbn in H; try discriminate H. reflexivity. }
  pose proof (DecimalN.Unsigned.of_to n) as Hn. rewrite Hnil in Hn.
  cbn in Hn. subst n. discriminate Hnil.
Qed.

Lemma str_of_N_all_digits (n : N) : all_digits (str_of_N n).
Proof. apply digits_of_uint_all_digits. Qed.

Lemma replace_point_digits (new s : str) :
  all_digits s -> replace (chr ".") new s = s.
Proof.
  induction 1 as [ | c s Hc Hs IH]; [ reflexivity | ].
  cbn [replace]. rewrite IH.
  assert (Hp : (c =? chr ".")%N = false) by (by_digit c Hc; reflexivity).
  now rewrite Hp.
Qed.

Lemma digit_of_Z (k : Z) :
  0 <= k < 10 -> is_ascii_digit (48 + Z.to_N k)%N = true.
Proof.
  intros H. unfold is_ascii_digit. apply andb_true_iff. split.
  - apply N.leb_le. lia.
  - apply N.leb_le. lia.
Qed.

Lemma div_half_even_bound (n d : Z) :
  0 <= n -> 0 < d ->
  0 <= div_half_even n d /\
  Z.abs (2 * n - 2 * d * div_half_even n d) <= d.
Proof.
  intros Hn Hd. unfold div_half_even.
  pose proof (Z.div_mod n d ltac:(lia)) as Hdm.
  pose proof (Z.mod_pos_bound n d Hd) as Hm.
  pose proof (Z.div_pos n d Hn Hd) as Hq.
  destruct (Z.compare_spec (2 * (n mod d)) d) as [He | Hlt | Hgt];
    [ destruct (Z.even (n / d)) | | ]; split; nia.
Qed.

Lemma centiemes_nonneg (m : positive) (e : Z) : 0 <= centiemes m e.
Proof.
  unfold centiemes. destruct (0 <=? e) eqn:He.
  - apply Z.leb_le in He. pose proof (Z.pow_nonneg 2 e). nia.
  - apply div_half_even_bound; [ lia | ]. apply Z.pow_pos_nonneg; lia.
Qed.

(** The text of a number of hundredths, with the comma. *)
Lemma fixed_2_fr (c : Z) :
  0 <= c ->
  replace (chr ".") (py ",") (fixed_2 c)
  = str_of_N (Z.to_N (c / 100))
    ++ chr "," :: [ (48 + Z.to_N ((c mod 100) / 10))%N;
                    (48 + Z.to_N ((c mod 100) mod 10))%N ] /\
  is_ascii_digit (48 + Z.to_N ((c mod 100) / 10))%N = true /\
  is_ascii_digit (48 + Z.to_N ((c mod 100) mod 10))%N = true.
Proof.
  intros Hc.
  pose proof (Z.mod_pos_bound c 100 ltac:(lia)) as Hm.
  assert (H1 : is_ascii_digit (48 + Z.to_N ((c mod 100) / 10))%N = true).
  { apply digit_of_Z. split; [ apply Z.div_pos; lia | ].
    apply Z.div_lt_upper_bound; lia. }
  assert (H2 : is_ascii_digit (48 + Z.to_N ((c mod 100) mod 10))%N = true).
  { apply digit_of_Z. apply Z.mod_pos_bound. lia. }
  split; [ | now split ].
  unfold fixed_2. rewrite replace_app.
  rewrite (replace_point_digits _ _ (str_of_N_all_digits _)).
  f_equal.
  remember [ (48 + Z.to_N ((c mod 100) / 10))%N;
             (48 + Z.to_N ((c mod 100) mod 10))%N ] as l eqn:Hl.
  change (replace (chr ".") (py ",") (chr "." :: l))
    with (py "," ++ replace (chr ".") (py ",") l).
  rewrite replace_point_digits; [ reflexivity | ].
  subst l. repeat constructor; assumption.
Qed.

Lemma prix_fr_finite (m : positive) (e : Z) :
  prix_fr (S754_finite false m e)
  = str_of_N (Z.to_N (centiemes m e / 100))
    ++ chr "," :: [ (48 + Z.to_N ((centiemes m e mod 100) / 10))%N;
                    (48 + Z.to_N ((centiemes m e mod 100) mod 10))%N ].
Proof.
  unfold prix_fr, format_2f. cbn [app].
  apply fixed_2_fr, centiemes_nonneg.
Qed.

Lemma prix_fr_decimale (m : positive) (e : Z) :
  cellule_decimale (prix_fr (S754_finite false m e)).
Proof.
  rewrite prix_fr_finite.
  destruct (fixed_2_fr (centiemes m e) (centiemes_nonneg m e)) as (_ & H1 & H2).
  eexists _, _, _. split; [ reflexivity | ].
  repeat split; auto using str_of_N_nonempty, str_of_N_all_digits.
Qed.

Lemma Z_of_two_digits (a b : Z) :
  0 <= a -> 0 <= b ->
  Z_of_digits [ (48 + Z.to_N a)%N; (48 + Z.to_N b)%N ] = 10 * a + b.
Proof.
  intros Ha Hb. unfold Z_of_digits. cbn [fold_left].
  rewrite !N2Z.inj_add, !Z2N.id by assumption.
  change (Z.of_N 48) with 48. lia.
Qed.

(** The report's text of a positive finite price, read by the Currency
    Parser. *)
Lemma nettoyer_prix_fr (m : positive) (e : Z) :
  _nettoyer_prix_total (prix_fr (S754_finite false m e))
  = inr (float_of_decimal false (centiemes m e) (-2)).
Proof.
  rewrite prix_fr_finite.
  pose proof (centiemes_nonneg m e) as Hc. set (c := centiemes m e) in *.
  destruct (fixed_2_fr c Hc) as (_ & H1 & H2).
  pose proof (Z.mod_pos_bound c 100 ltac:(lia)) as Hm.
  set (amount := str_of_N (Z.to_N (c / 100))).
  set (d1 := (48 + Z.to_N ((c mod 100) / 10))%N) in *.
  set (d2 := (48 + Z.to_N ((c mod 100) mod 10))%N) in *.
  assert (Ham : locale_amount amount).
  { split.
    - pose proof (str_of_N_all_digits (Z.to_N (c / 100))) as Hall.
      pose proof (str_of_N_nonempty (Z.to_N (c / 100))) as Hne.
      fold amount in Hall, Hne. destruct amount as [ | d r]; [ congruence | ].
      exists d, r. split; [ reflexivity | ]. now inversion Hall.
    - eapply Forall_impl; [ | apply str_of_N_all_digits ]. intros x Hx. now left. }
  assert (Hce : all_digits [d1; d2]) by (repeat constructor; assumption).
  pose proof (nettoyer_prix_total_locale amount [d1; d2] [] Ham Hce
                ltac:(constructor)) as Hrun.
  rewrite app_nil_r in Hrun. rewrite Hrun. do 2 f_equal.
  assert (Hdo : digits_only amount = amount).
  { unfold digits_only. apply forallb_filter_id, forallb_forall.
    pose proof (str_of_N_all_digits (Z.to_N (c / 100))) as Hall.
    unfold all_digits in Hall. rewrite Forall_forall in Hall. exact Hall. }
  rewrite Hdo. unfold amount. rewrite Z_of_digits_str_of_N.
  unfold d1, d2. rewrite Z_of_two_digits.
  - rewrite Z2N.id by (apply Z.div_pos; lia).
    cbn [length]. change (10 ^ Z.of_nat 2) with 100.
    pose proof (Z.div_mod c 100 ltac:(lia)).
    pose proof (Z.div_mod (c mod 100) 10 ltac:(lia)).
    lia.
  - apply Z.div_pos; lia.
  - apply Z.mod_pos_bound. lia.
Qed.

(** X10.  The report's text of a positive finite price [x] is a decimal
    numeral with a comma and two decimals; the numeral is [c / 100] for [c]
    the whole number of hundredths nearest to [x] (the exact value of [x]
    when its exponent is not negative, within half a hundredth of it
    otherwise), and [_nettoyer_prix_total] reads the text back as the float
    nearest to [c / 100]. *)
Theorem prix_fr_relecture :
  forall (m : positive) (e : Z),
    let x := S754_finite false m e in
    let c := centiemes m e in
    cellule_decimale (prix_fr x) /\
    _nettoyer_prix_total (prix_fr x) = inr (float_of_decimal false c (-2)) /\
    0 <= c /\
    (0 <= e -> c = 100 * (Zpos m * 2 ^ e)) /\
    (e < 0 -> Z.abs (2 * (100 * Zpos m) - 2 * 2 ^ (- e) * c) <= 2 ^ (- e)).
Proof.
  intros m e. cbv zeta.
  split; [ apply prix_fr_decimale | ].
  split; [ apply nettoyer_prix_fr | ].
  split; [ apply centiemes_nonneg | ].
  unfold centiemes. split.
  - intros He. apply Z.leb_le in He. rewrite He. lia.
  - intros He. assert (H : (0 <=? e) = false) by (apply Z.leb_gt; lia).
    rewrite H. replace (100 * Zpos m) with (Zpos m * 100) by lia.
    apply div_half_even_bound; [ lia | ]. apply Z.pow_pos_nonneg; lia.
Qed.

Example prix_fr_exemples :
  prix_fr (fl 26.028645833333332) = py "26,03" /\
  prix_fr (fl 19.99) = py "19,99" /\
  prix_fr (fl 0.125) = py "0,12" /\
  prix_fr (fl 0.375) = py "0,38" /\
  prix_fr (fl 1234.5) = py "1234,50" /\
  prix_fr (fl 0.001) = py "0,00" /\
  prix_fr (S754_infinity false) = py "inf" /\
  _nettoyer_prix_total (prix_fr (fl 26.028645833333332)) = inr (fl 26.03).
Proof. repeat split; vm_compute; reflexivity. Qed.

Lemma prix_fr_positif (x : float) :
  f_ltb f_zero x = true ->
  prix_fr x = py "inf" \/ cellule_decimale (prix_fr x).
Proof.
  intros H. destruct (f_pos_inv x H) as [-> | (m & e & ->)].
  - left. reflexivity.
  - right. apply prix_fr_decimale.
Qed.

(** X11.  For a listing of the store [_preparer_ligne_csv] raises nothing,
    changes nothing and returns a row with the seven columns of the header,
    in order.  Identifier, title, source, annotation text and unit are the
    listing's fields as they are.  The price per kilogram is empty when the
    price is not [> 0]; otherwise it is ["inf"] or a decimal numeral with a
    comma and two decimals.  The total price is the raw price text when the
    Currency Parser makes no value [> 0] of it, else ["inf"] or such a
    numeral. *)
Theorem preparer_ligne_cellules :
  forall (r : ref) (w : world) (o : ProduitAmazon),
    deref w r = Some o ->
    exists ligne,
      _preparer_ligne_csv r w = (w, inr ligne) /\
      dict_keys ligne = en_tete /\
      dict_get COL_ID ligne = id_produit o /\
      dict_get COL_TITRE ligne = titre o /\
      dict_get COL_SOURCE ligne = source_prix_kg o /\
      dict_get COL_TEXTE_AMAZON ligne = prix_unitaire_texte_amazon o /\
      dict_get COL_UNITE_AMAZON ligne = prix_unitaire_unite_amazon o /\
      (f_ltb f_zero (prix_unitaire_kg o) = false ->
       dict_get COL_PRIX_UNITAIRE ligne = []) /\
      (f_ltb f_zero (prix_unitaire_kg o) = true ->
       dict_get COL_PRIX_UNITAIRE ligne = py "inf" \/
       cellule_decimale (dict_get COL_PRIX_UNITAIRE ligne)) /\
      (forall x, _nettoyer_prix_total (prix_total_str o) = inr x ->
                 f_ltb f_zero x = false ->
                 dict_get COL_PRIX_TOTAL ligne = prix_total_str o) /\
      (forall x, _nettoyer_prix_total (prix_total_str o) = inr x ->
                 f_ltb f_zero x = true ->
                 dict_get COL_PRIX_TOTAL ligne = py "inf" \/
                 cellule_decimale (dict_get COL_PRIX_TOTAL ligne)).
Proof.
  intros r w o Ho. exists (ligne_de o).
  split; [ now apply preparer_ligne_run | ].
  do 6 (split; [ reflexivity | ]).
  change (dict_get COL_PRIX_UNITAIRE (ligne_de o))
    with (if f_ltb f_zero (prix_unitaire_kg o)
          then prix_fr (prix_unitaire_kg o) else []).
  change (dict_get COL_PRIX_TOTAL (ligne_de o))
    with (match _nettoyer_prix_total (prix_total_str o) with
          | inr x => if f_ltb f_zero x then prix_fr x else prix_total_str o
          | inl _ => prix_total_str o
          end).
  repeat split.
  - intros H. now rewrite H.
  - intros H. rewrite H. now apply prix_fr_positif.
  - intros x Hx H. now rewrite Hx, H.
  - intros x Hx H. rewrite Hx, H. now apply prix_fr_positif.
Qed.

Lemma preparer_ligne_cellules_witness :
  exists ligne,
    _preparer_ligne_csv 1%nat world_exemple = (world_exemple, inr ligne) /\
    dict_keys ligne = en_tete /\
    dict_get COL_ID ligne = py "R2" /\
    dict_get COL_TITRE ligne = py "Barre" /\
    dict_get COL_SOURCE ligne = py "Amazon (Direct)" /\
    dict_get COL_TEXTE_AMAZON ligne = NA /\
    dict_get COL_UNITE_AMAZON ligne = NA /\
    (f_ltb f_zero (fl 12.5) = false ->
     dict_get COL_PRIX_UNITAIRE ligne = []) /\
    (f_ltb f_zero (fl 12.5) = true ->
     dict_get COL_PRIX_UNITAIRE ligne = py "inf" \/
     cellule_decimale (dict_get COL_PRIX_UNITAIRE ligne)) /\
    (forall x, _nettoyer_prix_total (py "9,99 €") = inr x ->
               f_ltb f_zero x = false ->
               dict_get COL_PRIX_TOTAL ligne = py "9,99 €") /\
    (forall x, _nettoyer_prix_total (py "9,99 €") = inr x ->
               f_ltb f_zero x = true ->
               dict_get COL_PRIX_TOTAL ligne = py "inf" \/
               cellule_decimale (dict_get COL_PRIX_TOTAL ligne)).
Proof.
  exact (preparer_ligne_cellules 1%nat world_exemple
           (listing_exemple 2 (fl 12.5) (py "Amazon (Direct)")) eq_refl).
Defined.

(** ** The rows of the ranked listings *)

Lemma rederivable_classe (o : ProduitAmazon) :
  rederivable o -> f_ltb f_zero (prix_unitaire_kg o) = true ->
  source_prix_kg o = py "Amazon (Direct)" \/
  source_prix_kg o = py "Calculé (NxG)".
Proof.
  unfold rederivable. cbv zeta. intros Hre Hpos.
  destruct (f_ltb f_zero (calculer_prix_au_kg_direct _ _)).
  - left. apply Hre.
  - destruct Hre as (p & _ & Hp). destruct (f_ltb f_zero p).
    + right. apply Hp.
    + destruct Hp as [Hz _]. rewrite Hz in Hpos. discriminate Hpos.
Qed.

(** X12.  The listings [main] hands to [ecrire_csv] and their rows.  The
    ranked listings are in ascending order of price; each has a price
    [> 0] and the source ["Amazon (Direct)"] or ["Calculé (NxG)"]; and the
    row [_preparer_ligne_csv] prepares for it shows that source and, as
    price per kilogram, ["inf"] or a decimal numeral with a comma and two
    decimals: no row of the report has an empty price or the source
    ["N/A"]. *)
Theorem main_rapport_lignes :
  forall (web : nat -> result (list Tag)) (w : world),
  exists w' total tries,
    main web w = (w', inr (total, tries)) /\
    StronglySorted (prix_le w') tries /\
    Forall (fun r => exists o ligne,
              deref w' r = Some o /\
              f_ltb f_zero (prix_unitaire_kg o) = true /\
              (source_prix_kg o = py "Amazon (Direct)" \/
               source_prix_kg o = py "Calculé (NxG)") /\
              _preparer_ligne_csv r w' = (w', inr ligne) /\
              dict_keys ligne = en_tete /\
              dict_get COL_SOURCE ligne = source_prix_kg o /\
              (dict_get COL_PRIX_UNITAIRE ligne = py "inf" \/
               cellule_decimale (dict_get COL_PRIX_UNITAIRE ligne)))
           tries.
Proof.
  intros web w.
  destruct (main_collecte web w)
    as (w' & pages & tries & Hmain & _ & Hlive & Htri & Hpages).
  rewrite Forall_forall in Hlive.
  destruct (nettoyer_sorted_stable (refs_of pages) w' Hlive)
    as (tries' & Htri' & Hperm & Hsort & _).
  rewrite Htri in Htri'. injection Htri' as <-.
  exists w', (refs_of pages), tries.
  split; [ exact Hmain | ]. split; [ exact Hsort | ].
  apply Forall_forall. intros r Hr.
  eapply Permutation_in in Hr; [ | exact Hperm ].
  apply filter_In in Hr. destruct Hr as [Hcol Hpos].
  unfold refs_of in Hcol.
  apply in_concat in Hcol. destruct Hcol as (l & Hl & Hcol).
  apply in_map_iff in Hl. destruct Hl as (page & <- & Hpage).
  apply in_map_iff in Hcol. destruct Hcol as ([k r'] & <- & Hkr).
  apply In_nth_error in Hpage. destruct Hpage as [p Hp].
  destruct (Hpages p page Hp) as (prods & _ & _ & Hall & _).
  rewrite Forall_forall in Hall.
  destruct (Hall _ Hkr) as (o & produit & Ho & _ & _ & _ & Hre).
  cbn [snd] in *. unfold prix_positif, prix_of in Hpos. rewrite Ho in Hpos.
  exists o, (ligne_de o).
  split; [ exact Ho | ]. split; [ exact Hpos | ].
  split; [ now apply rederivable_classe | ].
  split; [ now apply preparer_ligne_run | ].
  split; [ reflexivity | ]. split; [ reflexivity | ].
  change (dict_get COL_PRIX_UNITAIRE (ligne_de o))
    with (if f_ltb f_zero (prix_unitaire_kg o)
          then prix_fr (prix_unitaire_kg o) else []).
  rewrite Hpos. now apply prix_fr_positif.
Qed.

Example ecrire_csv_exemple :
  let w' := fst (main web_exemple empty_world) in
  snd (main web_exemple empty_world) = inr ([0; 1; 2]%nat, [2; 1]%nat) /\
  ecrire_csv tout_accepter [2; 1]%nat NOM_FICHIER_CSV w' []
  = (w',
     [ Ev_open NOM_FICHIER_CSV;
       Ev_write NOM_FICHIER_CSV
         (py "ID;Titre;Prix Unitaire (€/kg);Prix Total (€);Source Prix (€/kg);Prix Unitaire (texte Amazon);Prix Unitaire (Unité Amazon)"
          ++ [13; 10]%N);
       Ev_write NOM_FICHIER_CSV
         (py "R3;Barre A;20,50;24,60;Amazon (Direct);(20,50€/kg);kg"
          ++ [13; 10]%N);
       Ev_write NOM_FICHIER_CSV
         (py "R2;Barres 10x50g;30,00;15,00;Calculé (NxG);N/A;N/A"
          ++ [13; 10]%N);
       Ev_close NOM_FICHIER_CSV ],
     inr tt) /\
  ecrire_csv tout_accepter [] NOM_FICHIER_CSV w' []
  = (w', [Ev_print (py "Aucun produit à enregistrer dans le CSV.")], inr tt).
Proof. cbv zeta. split; [ | split ]; vm_compute; reflexivity. Qed.

(** ** Every listing is collected once *)

Lemma boucle_produits_frais (produits : list Tag) :
  forall (i base : nat) (acc : list ref) (w : world),
  exists w' (news : list ref),
    boucle_produits produits i base acc w = (w', inr (acc ++ news)) /\
    (length (objets w) <= length (objets w'))%nat /\
    StronglySorted lt news /\
    Forall (fun r => (length (objets w) <= r < length (objets w'))%nat) news.
Proof.
  induction produits as [ | produit suite IH]; intros i base acc w.
  - exists w, []. cbn. rewrite app_nil_r. repeat split; auto. constructor.
  - cbn [boucle_produits].
    destruct (traiter_produit_post produit
                (py "R" ++ str_of_nat (base + i + 1))%list w)
      as (o & Hobj & _ & _ & _ & _ & Hres).
    destruct (_traiter_produit produit _ w) as [w1 [e | r]]; cbn [fst snd] in *.
    + destruct (IH (S i) base acc w1) as (w' & news & Hrun & Hlen & Hs & Hall).
      rewrite Hobj, length_app in Hlen, Hall. cbn [length] in Hlen, Hall.
      exists w', news. rewrite Hrun. repeat split; auto; try lia.
      eapply Forall_impl; [ | exact Hall ]. cbn beta. intros; lia.
    + specialize (Hres r eq_refl). subst r.
      destruct (IH (S i) base (acc ++ [length (objets w)]) w1)
        as (w' & news & Hrun & Hlen & Hs & Hall).
      rewrite Hobj, length_app in Hlen, Hall. cbn [length] in Hlen, Hall.
      exists w', (length (objets w) :: news).
      split; [ etransitivity; [ exact Hrun | ]; now rewrite <- app_assoc | ].
      repeat split; try lia.
      * constructor; [ exact Hs | ].
        eapply Forall_impl; [ | exact Hall ]. cbn beta. intros; lia.
      * constructor; [ lia | ].
        eapply Forall_impl; [ | exact Hall ]. cbn beta. intros; lia.
Qed.

Lemma StronglySorted_lt_app (a b : list nat) (n : nat) :
  StronglySorted lt a -> StronglySorted lt b ->
  Forall (fun r => (r < n)%nat) a -> Forall (fun r => (n <= r)%nat) b ->
  StronglySorted lt (a ++ b).
Proof.
  intros Ha Hb Han Hbn. induction Ha as [ | x a Ha IH Hx]; [ exact Hb | ].
  inversion Han as [ | ? ? Hxn Han']; subst.
  cbn [app]. constructor; [ now apply IH | ].
  apply Forall_app. split; [ exact Hx | ].
  eapply Forall_impl; [ | exact Hbn ]. cbn beta. intros; lia.
Qed.

Lemma boucle_pages_frais (web : nat -> result (list Tag)) (page_nums : list nat) :
  forall (acc : list ref) (current_row : nat) (w : world),
  exists w' (news : list ref),
    boucle_pages web page_nums acc current_row w = (w', inr (acc ++ news)) /\
    (length (objets w) <= length (objets w'))%nat /\
    StronglySorted lt news /\
    Forall (fun r => (length (objets w) <= r < length (objets w'))%nat) news.
Proof.
  induction page_nums as [ | page_num suite IH]; intros acc current_row w.
  - exists w, []. cbn. rewrite app_nil_r. repeat split; auto. constructor.
  - cbn [boucle_pages]. destruct (web page_num) as [e | produits].
    + exists w, []. cbn. rewrite app_nil_r. repeat split; auto. constructor.
    + destruct (boucle_produits_frais produits 0 current_row [] w)
        as (w1 & news1 & Hrun1 & Hlen1 & Hs1 & Hall1).
      unfold extraire_donnees_page. rewrite Hrun1. cbn [app].
      destruct (IH (acc ++ news1) (current_row + length news1)%nat w1)
        as (w' & news & Hrun & Hlen & Hs & Hall).
      exists w', (news1 ++ news).
      split; [ etransitivity; [ exact Hrun | ]; now rewrite <- app_assoc | ].
      split; [ lia | ]. split.
      * apply (StronglySorted_lt_app news1 news (length (objets w1))); auto.
        -- eapply Forall_impl; [ | exact Hall1 ]. cbn beta. intros; lia.
        -- eapply Forall_impl; [ | exact Hall ]. cbn beta. intros; lia.
      * apply Forall_app. split.
        -- eapply Forall_impl; [ | exact Hall1 ]. cbn beta. intros; lia.
        -- eapply Forall_impl; [ | exact Hall ]. cbn beta. intros; lia.
Qed.

Lemma StronglySorted_lt_NoDup (l : list nat) : StronglySorted lt l -> NoDup l.
Proof.
  induction 1 as [ | x l Hl IH Hx]; constructor; [ | exact IH ].
  intros Hin. rewrite Forall_forall in Hx. specialize (Hx x Hin). lia.
Qed.

(** X13.  [main] collects every listing once: the listings collected are
    new objects, distinct from one another and from the objects that
    existed before the run, listed in the order of their creation; the
    ranking lists each of them at most once. *)
Theorem main_sans_doublon :
  forall (web : nat -> result (list Tag)) (w : world),
  exists w' total tries,
    main web w = (w', inr (total, tries)) /\
    StronglySorted lt total /\
    NoDup total /\
    NoDup tries /\
    Forall (fun r => ~ live w r /\ live w' r) total.
Proof.
  intros web w.
  destruct (boucle_pages_frais web (seq 1 MAX_PAGES) [] 0%nat w)
    as (w' & total & Hrun & Hlen & Hs & Hall).
  cbn [app] in Hrun.
  assert (Hlive : forall r, In r total -> live w' r).
  { rewrite Forall_forall in Hall. intros r Hr. specialize (Hall r Hr).
    unfold live, deref.
    destruct (nth_error (objets w') r) as [o | ] eqn:Ho; [ now exists o | ].
    apply nth_error_None in Ho. lia. }
  destruct (nettoyer_sorted_stable total w' Hlive) as (tries & Htri & Hperm & _).
  exists w', total, tries.
  pose proof (StronglySorted_lt_NoDup total Hs) as Hnd.
  split; [ unfold main, mbind; rewrite Hrun, Htri; reflexivity | ].
  split; [ exact Hs | ]. split; [ exact Hnd | ]. split.
  - eapply Permutation_NoDup; [ symmetry; exact Hperm | ].
    now apply NoDup_filter.
  - apply Forall_forall. intros r Hr. split; [ | now apply Hlive ].
    rewrite Forall_forall in Hall. specialize (Hall r Hr).
    intros [o Ho]. unfold deref in Ho.
    assert (r < length (objets w))%nat by (apply nth_error_Some; congruence).
    lia.
Qed.
